(** * Focus-mode backend: a shallow embedding of the job engine

    The development follows the Python sources under [backend/]:
    - [audio_utils.py]      : [AudioTimeCalculator], [AudioValidator];
    - [focus_processor.py]  : [FocusProcessor] (tempo policy and pipeline);
    - [processing_queue.py] : [ProcessingJob], [ProcessingQueue] and the
                              asyncio worker;
    - [focus_api.py]        : the [ProcessedVersion] table used as a cache.

    Numbers.  Python [int] is [Z].  Python [float] is idealised as an exact
    rational [Q]: every arithmetic operation is the exact one, the decimal
    literals ([0.7], [0.3], ...) denote the decimal fractions, and there is
    no NaN and no infinity.  Equality of floats is [Qeq] ([==]).  Division
    by a zero float raises [ZeroDivisionError], as in Python.

    A double is rounded after every operation, so an identity that needs
    exact division, such as [x * (y / x) == y], holds for [Q] and not for
    Python.  What is stated about computed floats is therefore limited to
    what monotone rounding keeps: the branch that is taken, the operation
    that produced a value, order and direction, and bounds that leave a
    margin. *)

From Stdlib Require Import ZArith QArith Qminmax Qabs Lqa.
From stdpp Require Import gmap strings list fin_maps.

Open Scope Z_scope.

(* ===================================================================== *)
(** ** Python values: exceptions, floats, dictionaries                    *)
(* ===================================================================== *)

Inductive PyExc : Type :=
  | ZeroDivisionError
  | Exception (msg : string).

(** The outcome of a Python expression: a value, or a raised exception. *)
Inductive pyres (A : Type) : Type :=
  | Ok (a : A)
  | Raise (e : PyExc).
Arguments Ok {A} a.
Arguments Raise {A} e.

#[global] Instance result_bind : MBind pyres := λ A B k r,
  match r with
  | Ok a => k a
  | Raise e => Raise e
  end.

(** [str(e)] for the exceptions of the model. *)
Definition str_exc (e : PyExc) : string :=
  match e with
  | ZeroDivisionError => "float division by zero"
  | Exception msg => msg
  end.

Definition Qltb (x y : Q) : bool := negb (Qle_bool y x).
Definition Qleb (x y : Q) : bool := Qle_bool x y.

(** [x / y] on floats. *)
Definition py_div (x y : Q) : pyres Q :=
  if Qeq_bool y 0 then Raise ZeroDivisionError else Ok (x / y)%Q.

(** [max(a, b)]: Python returns [a] unless [b > a]. *)
Definition py_max (a b : Q) : Q := if Qltb a b then b else a.

(** [int(x)]: truncation toward zero. *)
Definition py_int (x : Q) : Z := Z.quot (Qnum x) (Z.pos (Qden x)).

(** [xs[:n]] for a Python [int] [n]: a negative [n] counts from the end. *)
Definition py_slice_to {A} (xs : list A) (n : Z) : list A :=
  if (0 <=? n)%Z then take (Z.to_nat n) xs
  else take (length xs - Z.to_nat (- n))%nat xs.

(** An insertion-ordered [dict] with [str] keys. *)
Definition pydict (V : Type) : Type := list (string * V).

Fixpoint dict_get {V} (k : string) (d : pydict V) : option V :=
  match d with
  | [] => None
  | (k', v) :: d' => if decide (k = k') then Some v else dict_get k d'
  end.

(** [d[k] = v]: rebinds an existing key in place, appends a new one. *)
Fixpoint dict_set {V} (k : string) (v : V) (d : pydict V) : pydict V :=
  match d with
  | [] => [(k, v)]
  | (k', v') :: d' =>
      if decide (k = k') then (k', v) :: d' else (k', v') :: dict_set k v d'
  end.

(** Mutation of the object bound to [k] (the binding itself is kept). *)
Fixpoint dict_alter {V} (f : V → V) (k : string) (d : pydict V) : pydict V :=
  match d with
  | [] => []
  | (k', v) :: d' =>
      if decide (k = k') then (k', f v) :: d' else (k', v) :: dict_alter f k d'
  end.

Definition dict_values {V} (d : pydict V) : list V := d.*2.
Definition dict_keys {V} (d : pydict V) : list string := d.*1.

(* ===================================================================== *)
(** ** backend/audio_utils.py                                             *)
(* ===================================================================== *)

Module AudioTimeCalculator.

Definition calculate_sync_position
    (original_position original_bpm processed_bpm : Q) : Q :=
  if Qleb original_bpm 0 || Qleb processed_bpm 0 then original_position
  else
    let tempo_ratio := (processed_bpm / original_bpm)%Q in
    let processed_position := (original_position * tempo_ratio)%Q in
    processed_position.

Definition calculate_tempo_ratio (original_bpm processed_bpm : Q) : Q :=
  if Qleb original_bpm 0 then 1%Q
  else (processed_bpm / original_bpm)%Q.

Definition estimate_processing_time
    (duration_seconds : Q) (focus_intensity : Z) : Q :=
  let base_time := (duration_seconds * (7 # 10))%Q in
  let intensity_factor :=
    (1 + (inject_Z focus_intensity / 100) * (3 # 10))%Q in
  let estimated_time := (base_time * intensity_factor)%Q in
  let estimated_time := py_max estimated_time 10 in
  estimated_time.

End AudioTimeCalculator.

Module AudioValidator.

(** [validate_focus_parameters]: [None] is [(True, None)], [Some msg] is
    [(False, msg)]; the two messages are abbreviated. *)
Definition validate_focus_parameters
    (focus_intensity target_bpm : Z) : option string :=
  if negb ((0 <=? focus_intensity) && (focus_intensity <=? 100))
  then Some "Focus intensity must be 0-100"%string
  else if negb (target_bpm =? 0)
            && negb ((30 <=? target_bpm) && (target_bpm <=? 200))
  then Some "Target BPM must be 0 (auto) or 30-200"%string
  else None.

End AudioValidator.

Definition sync_audio_position (original_pos original_bpm processed_bpm : Q) : Q :=
  AudioTimeCalculator.calculate_sync_position original_pos original_bpm processed_bpm.

Definition estimate_processing_duration (audio_duration : Q) (intensity : Z) : Q :=
  AudioTimeCalculator.estimate_processing_time audio_duration intensity.

(* ===================================================================== *)
(** ** backend/focus_processor.py                                         *)
(* ===================================================================== *)

(** The success dictionary of [process_audio_for_focus]. *)
Record FocusResult : Type := mkFocusResult {
  processed_file_path : string;
  original_duration : Q;
  processed_duration : Q;
  original_bpm : Q;
  processed_bpm : Q;
  tempo_ratio : Q;
  res_focus_intensity : Z;
  vocal_reduction_percent : Z;
  effects_applied : bool;
  vocal_filtering : bool;
  accompaniment_filtering : bool
}.

(** The dictionary returned by [process_audio_for_focus]:
    ['success': True] with the fields above, or ['success': False] with
    ['error']. *)
Inductive ProcessOutcome : Type :=
  | Success (r : FocusResult)
  | Failure (error : string).

(** What the external collaborators answer during one pipeline run:
    [librosa.load] (the duration of the waveform), Spleeter,
    [librosa.feature.tempo], the effect chain and the MP3 encoder. *)
Record Collaborators : Type := mkCollaborators {
  load_duration : pyres Q;
  separate : pyres unit;
  librosa_tempo : pyres Q;
  focus_effects : pyres unit;
  temp_file_name : string;
  numpy_to_mp3 : pyres unit
}.

Module FocusProcessor.

(** [detect_bpm]: the fallback is taken only when librosa raises. *)
Definition detect_bpm (tempo : pyres Q) : Q :=
  match tempo with
  | Ok t => t
  | Raise _ => 120%Q
  end.

Definition calculate_tempo_ratio
    (original_bpm target_bpm focus_intensity : Q) : pyres Q :=
  let intensity := (focus_intensity / 100)%Q in
  if Qltb 0 target_bpm then
    py_div target_bpm original_bpm
  else
    let target_tempo :=
      py_max 50 (original_bpm * (1 - intensity * (1 # 2)))%Q in
    py_div target_tempo original_bpm.

(** The body of the [try] block of [process_audio_for_focus]. *)
Definition process_audio_body (env : Collaborators)
    (focus_intensity target_bpm : Z) : pyres FocusResult :=
  duration_seconds ← load_duration env;
  _ ← separate env;
  let original_bpm := detect_bpm (librosa_tempo env) in
  tempo_ratio ← calculate_tempo_ratio original_bpm (inject_Z target_bpm)
                   (inject_Z focus_intensity);
  let new_bpm := (original_bpm * tempo_ratio)%Q in
  new_duration ← py_div duration_seconds tempo_ratio;
  _ ← focus_effects env;
  _ ← numpy_to_mp3 env;
  let intensity_ratio := (inject_Z focus_intensity / 100)%Q in
  let vocal_reduction := py_int (intensity_ratio * 70)%Q in
  Ok {| processed_file_path := temp_file_name env;
        original_duration := duration_seconds;
        processed_duration := new_duration;
        original_bpm := original_bpm;
        processed_bpm := new_bpm;
        tempo_ratio := tempo_ratio;
        res_focus_intensity := focus_intensity;
        vocal_reduction_percent := vocal_reduction;
        effects_applied := Qltb (3 # 10) intensity_ratio;
        vocal_filtering := Qltb (3 # 10) intensity_ratio;
        accompaniment_filtering := Qltb (2 # 10) intensity_ratio |}.

Definition process_audio_for_focus (env : Collaborators)
    (focus_intensity target_bpm : Z) : ProcessOutcome :=
  match process_audio_body env focus_intensity target_bpm with
  | Ok r => Success r
  | Raise e => Failure (str_exc e)
  end.

End FocusProcessor.

(* ===================================================================== *)
(** ** backend/processing_queue.py                                        *)
(* ===================================================================== *)

Inductive JobStatus : Type :=
  | PENDING
  | RUNNING
  | COMPLETED
  | FAILED
  | CANCELLED.

#[global] Instance JobStatus_eq_dec : EqDecision JobStatus.
Proof. solve_decision. Defined.

(** The dataclass [ProcessingJob]; the [datetime] fields are seconds. *)
Record ProcessingJob : Type := mkJob {
  job_id : string;
  song_id : Z;
  input_file_path : string;
  focus_intensity : Z;
  target_bpm : Z;
  created_at : Q;
  status : JobStatus;
  progress_percent : Z;
  current_step : string;
  result : option FocusResult;
  error_message : option string;
  started_at : option Q;
  completed_at : option Q;
  estimated_completion : option Q
}.

(** Assignments [job.field = v]. *)
Definition set_status (v : JobStatus) (job : ProcessingJob) : ProcessingJob :=
  {| job_id := job_id job;
     song_id := song_id job;
     input_file_path := input_file_path job;
     focus_intensity := focus_intensity job;
     target_bpm := target_bpm job;
     created_at := created_at job;
     status := v;
     progress_percent := progress_percent job;
     current_step := current_step job;
     result := result job;
     error_message := error_message job;
     started_at := started_at job;
     completed_at := completed_at job;
     estimated_completion := estimated_completion job |}.

Definition set_progress_percent (v : Z) (job : ProcessingJob) : ProcessingJob :=
  {| job_id := job_id job;
     song_id := song_id job;
     input_file_path := input_file_path job;
     focus_intensity := focus_intensity job;
     target_bpm := target_bpm job;
     created_at := created_at job;
     status := status job;
     progress_percent := v;
     current_step := current_step job;
     result := result job;
     error_message := error_message job;
     started_at := started_at job;
     completed_at := completed_at job;
     estimated_completion := estimated_completion job |}.

Definition set_current_step (v : string) (job : ProcessingJob) : ProcessingJob :=
  {| job_id := job_id job;
     song_id := song_id job;
     input_file_path := input_file_path job;
     focus_intensity := focus_intensity job;
     target_bpm := target_bpm job;
     created_at := created_at job;
     status := status job;
     progress_percent := progress_percent job;
     current_step := v;
     result := result job;
     error_message := error_message job;
     started_at := started_at job;
     completed_at := completed_at job;
     estimated_completion := estimated_completion job |}.

Definition set_result (v : option FocusResult) (job : ProcessingJob) : ProcessingJob :=
  {| job_id := job_id job;
     song_id := song_id job;
     input_file_path := input_file_path job;
     focus_intensity := focus_intensity job;
     target_bpm := target_bpm job;
     created_at := created_at job;
     status := status job;
     progress_percent := progress_percent job;
     current_step := current_step job;
     result := v;
     error_message := error_message job;
     started_at := started_at job;
     completed_at := completed_at job;
     estimated_completion := estimated_completion job |}.

Definition set_error_message (v : option string) (job : ProcessingJob) : ProcessingJob :=
  {| job_id := job_id job;
     song_id := song_id job;
     input_file_path := input_file_path job;
     focus_intensity := focus_intensity job;
     target_bpm := target_bpm job;
     created_at := created_at job;
     status := status job;
     progress_percent := progress_percent job;
     current_step := current_step job;
     result := result job;
     error_message := v;
     started_at := started_at job;
     completed_at := completed_at job;
     estimated_completion := estimated_completion job |}.

Definition set_started_at (v : option Q) (job : ProcessingJob) : ProcessingJob :=
  {| job_id := job_id job;
     song_id := song_id job;
     input_file_path := input_file_path job;
     focus_intensity := focus_intensity job;
     target_bpm := target_bpm job;
     created_at := created_at job;
     status := status job;
     progress_percent := progress_percent job;
     current_step := current_step job;
     result := result job;
     error_message := error_message job;
     started_at := v;
     completed_at := completed_at job;
     estimated_completion := estimated_completion job |}.

Definition set_completed_at (v : option Q) (job : ProcessingJob) : ProcessingJob :=
  {| job_id := job_id job;
     song_id := song_id job;
     input_file_path := input_file_path job;
     focus_intensity := focus_intensity job;
     target_bpm := target_bpm job;
     created_at := created_at job;
     status := status job;
     progress_percent := progress_percent job;
     current_step := current_step job;
     result := result job;
     error_message := error_message job;
     started_at := started_at job;
     completed_at := v;
     estimated_completion := estimated_completion job |}.

Definition set_estimated_completion (v : option Q) (job : ProcessingJob) : ProcessingJob :=
  {| job_id := job_id job;
     song_id := song_id job;
     input_file_path := input_file_path job;
     focus_intensity := focus_intensity job;
     target_bpm := target_bpm job;
     created_at := created_at job;
     status := status job;
     progress_percent := progress_percent job;
     current_step := current_step job;
     result := result job;
     error_message := error_message job;
     started_at := started_at job;
     completed_at := completed_at job;
     estimated_completion := v |}.

(** *** The asyncio side of the queue

    The worker loop and every [_process_job] coroutine run on one event
    loop, so the code between two [await]s is atomic.  A task is a
    coroutine of [_process_job] suspended at one of its [await]s. *)
Inductive ProgramPoint : Type :=
  | AtStart       (* created by [create_task], first step not yet run *)
  | AtSleep1      (* [await asyncio.sleep(0.1)] after "Loading audio..." *)
  | AtSleep2      (* [await asyncio.sleep(0.1)] after "Separating ..." *)
  | AtExecutor    (* [await loop.run_in_executor(...)] *)
  | Done.

#[global] Instance ProgramPoint_eq_dec : EqDecision ProgramPoint.
Proof. solve_decision. Defined.

(** An [asyncio.Task] running [_process_job(job)]; the job object is
    referred to by its [job_id], the key under which [submit_job] stored
    it.  [must_cancel] is set by [Task.cancel()]: the next step of the
    coroutine then receives [CancelledError]. *)
Record Task : Type := mkTask {
  task_job : string;
  task_pc : ProgramPoint;
  must_cancel : bool
}.

(** [ProcessingQueue]: its two dictionaries and the concurrency limit,
    together with the tasks that the worker created on the event loop
    ([running_jobs] maps a job id to the handle of a task in
    [loop_tasks]). *)
Record ProcessingQueue : Type := mkQueue {
  jobs : pydict ProcessingJob;
  max_concurrent_jobs : Z;
  running_jobs : gmap string nat;
  loop_tasks : list Task
}.

(** [ProcessingQueue(max_concurrent_jobs)]. *)
Definition init (max_concurrent_jobs : Z) : ProcessingQueue :=
  {| jobs := []; max_concurrent_jobs := max_concurrent_jobs;
     running_jobs := ∅; loop_tasks := [] |}.

(** [submit_job]; [job_id] is the value drawn by [uuid.uuid4()]. *)
Definition submit_job (job_id : string) (song_id : Z) (input_file_path : string)
    (focus_intensity target_bpm : Z) (now : Q) (q : ProcessingQueue)
    : string * ProcessingQueue :=
  let job :=
    {| job_id := job_id; song_id := song_id;
       input_file_path := input_file_path;
       focus_intensity := focus_intensity; target_bpm := target_bpm;
       created_at := now; status := PENDING;
       progress_percent := 0; current_step := "Initializing";
       result := None; error_message := None;
       started_at := None; completed_at := None;
       estimated_completion := None |} in
  (job_id,
   {| jobs := dict_set job_id job (jobs q);
      max_concurrent_jobs := max_concurrent_jobs q;
      running_jobs := running_jobs q;
      loop_tasks := loop_tasks q |}).

(** [get_job_status]: the record stands for the dictionary of [to_dict]. *)
Definition get_job_status (job_id : string) (q : ProcessingQueue)
    : option ProcessingJob :=
  dict_get job_id (jobs q).

(** [Task.cancel()]: no effect on a finished task. *)
Definition task_cancel (t : Task) : Task :=
  if decide (task_pc t = Done) then t
  else {| task_job := task_job t; task_pc := task_pc t; must_cancel := true |}.

Definition cancel_job (job_id : string) (now : Q) (q : ProcessingQueue)
    : bool * ProcessingQueue :=
  match dict_get job_id (jobs q) with
  | None => (false, q)
  | Some job =>
      if bool_decide (status job ∈ [COMPLETED; FAILED; CANCELLED])
      then (false, q)
      else
        let jobs' :=
          dict_alter (λ job, set_completed_at (Some now)
                               (set_status CANCELLED job))
                     job_id (jobs q) in
        match running_jobs q !! job_id with
        | Some h =>
            (true,
             {| jobs := jobs';
                max_concurrent_jobs := max_concurrent_jobs q;
                running_jobs := delete job_id (running_jobs q);
                loop_tasks := alter task_cancel h (loop_tasks q) |})
        | None =>
            (true,
             {| jobs := jobs';
                max_concurrent_jobs := max_concurrent_jobs q;
                running_jobs := running_jobs q;
                loop_tasks := loop_tasks q |})
        end
  end.

(** [sum(1 for job in self.jobs.values() if job.status == s)]. *)
Definition count_status (s : JobStatus) (q : ProcessingQueue) : nat :=
  sum_list ((λ _, 1%nat) <$> filter (λ job, status job = s) (dict_values (jobs q))).

Record QueueInfo : Type := mkQueueInfo {
  total_jobs : nat;
  pending : nat;
  running : nat;
  completed : nat;
  failed : nat;
  max_concurrent : Z
}.

Definition get_queue_info (q : ProcessingQueue) : QueueInfo :=
  let pending := count_status PENDING q in
  let running := count_status RUNNING q in
  let completed := count_status COMPLETED q in
  let failed := count_status FAILED q in
  {| total_jobs := length (jobs q);
     pending := pending; running := running;
     completed := completed; failed := failed;
     max_concurrent := max_concurrent_jobs q |}.

(** One admission of the worker loop:
    [task = asyncio.create_task(self._process_job(job));
     self.running_jobs[job.job_id] = task]. *)
Definition start_job (q : ProcessingQueue) (job : ProcessingJob) : ProcessingQueue :=
  let task := length (loop_tasks q) in
  {| jobs := jobs q;
     max_concurrent_jobs := max_concurrent_jobs q;
     running_jobs := <[job_id job := task]> (running_jobs q);
     loop_tasks := loop_tasks q ++
                   [{| task_job := job_id job; task_pc := AtStart;
                       must_cancel := false |}] |}.

(** [task.done()]. *)
Definition task_done (q : ProcessingQueue) (h : nat) : bool :=
  match loop_tasks q !! h with
  | Some t => bool_decide (task_pc t = Done)
  | None => false
  end.

Definition del_running (q : ProcessingQueue) (job_id : string) : ProcessingQueue :=
  {| jobs := jobs q;
     max_concurrent_jobs := max_concurrent_jobs q;
     running_jobs := delete job_id (running_jobs q);
     loop_tasks := loop_tasks q |}.

(** The body of one iteration of [_worker_loop], up to its
    [await asyncio.sleep(1.0)]. *)
Definition worker_iteration (q : ProcessingQueue) : ProcessingQueue :=
  let pending_jobs :=
    filter (λ job, status job = PENDING) (dict_values (jobs q)) in
  let current_running := size (running_jobs q) in
  let can_start := max_concurrent_jobs q - Z.of_nat current_running in
  let q := foldl start_job q (py_slice_to pending_jobs can_start) in
  let completed_job_ids :=
    (filter (λ item, task_done q item.2 = true)
            (map_to_list (running_jobs q))).*1 in
  foldl del_running q completed_job_ids.

(** *** [_process_job], one segment per step of the coroutine *)

(** A write of [current_step] or [progress_percent] on the job record,
    logged as the pair of the two fields after the write. *)
Definition ProgressUpdate : Type := string * Z.

Definition Segment : Type := ProcessingJob * list ProgressUpdate.

Definition update_progress (step : string) (percent : Z) (job : ProcessingJob)
    : Segment :=
  (set_progress_percent percent (set_current_step step job), [(step, percent)]).

(** Sequencing of writes on the job, keeping the log of progress updates. *)
Definition then_ (s : Segment) (f : ProcessingJob → Segment) : Segment :=
  let (job', log') := f s.1 in (job', s.2 ++ log').

Definition quiet (job : ProcessingJob) : Segment := (job, []).

(** What the environment hands to a step of the coroutine. *)
Inductive StepInput : Type :=
  | Wakeup                          (* a sleep has elapsed *)
  | Analysis (duration : Q)         (* [analysis.get('duration', 180)] *)
  | Returned (o : ProcessOutcome)   (* [process_song_for_focus] returned *)
  | Raised (e : PyExc).             (* an exception inside the segment *)

(** The first statements of the [try] block. *)
Definition job_begin (now : Q) (job : ProcessingJob) : Segment :=
  let job := set_status RUNNING job in
  let job := set_started_at (Some now) job in
  let job := set_current_step "Starting processing..." job in
  (job, [("Starting processing..."%string, progress_percent job)]).

(** [except Exception as e] followed by [finally]. *)
Definition job_failed (e : PyExc) (now : Q) (job : ProcessingJob) : Segment :=
  let job := set_status FAILED job in
  let job := set_error_message (Some (str_exc e)) job in
  quiet (set_completed_at (Some now) job).

(** [except asyncio.CancelledError] followed by [finally]. *)
Definition job_cancelled (now : Q) (job : ProcessingJob) : Segment :=
  let job := set_status CANCELLED job in
  let job := set_error_message (Some "Job was cancelled"%string) job in
  quiet (set_completed_at (Some now) job).

(** From the start of the coroutine to the first [await]. *)
Definition segment_start (input : StepInput) (now : Q) (job : ProcessingJob)
    : option (Segment * ProgramPoint) :=
  match input with
  | Analysis duration =>
      let estimated_duration :=
        estimate_processing_duration duration (focus_intensity job) in
      Some (then_ (then_ (job_begin now job)
                     (λ job, quiet (set_estimated_completion
                                      (Some (now + estimated_duration)%Q) job)))
                  (update_progress "Loading audio..." 10),
            AtSleep1)
  | Raised e => Some (then_ (job_begin now job) (job_failed e now), Done)
  | _ => None
  end.

Definition segment_sleep1 (input : StepInput) (job : ProcessingJob)
    : option (Segment * ProgramPoint) :=
  match input with
  | Wakeup =>
      Some (update_progress "Separating vocals and instruments..." 20 job,
            AtSleep2)
  | _ => None
  end.

Definition segment_sleep2 (input : StepInput) (job : ProcessingJob)
    : option (Segment * ProgramPoint) :=
  match input with
  | Wakeup => Some (quiet job, AtExecutor)
  | _ => None
  end.

(** From the return of the executor to the end of the coroutine. *)
Definition segment_executor (input : StepInput) (now : Q) (job : ProcessingJob)
    : option (Segment * ProgramPoint) :=
  match input with
  | Returned o =>
      let s := update_progress "Finalizing..." 90 job in
      let s :=
        match o with
        | Success r =>
            then_ s (λ job,
              let job := set_status COMPLETED job in
              let job := set_result (Some r) job in
              let job := set_progress_percent 100 job in
              let job := set_current_step "Complete" job in
              (job, [("Complete"%string, 100)]))
        | Failure error =>
            then_ s (λ job,
              let job := set_status FAILED job in
              quiet (set_error_message (Some error) job))
        end in
      Some (then_ s (λ job, quiet (set_completed_at (Some now) job)), Done)
  | Raised e => Some (job_failed e now job, Done)
  | _ => None
  end.

(** One step of the coroutine of a task.  A task cancelled before its
    first step ends without running any statement of [_process_job];
    cancelled at an [await], it runs the [CancelledError] handler. *)
Definition coroutine_step (t : Task) (input : StepInput) (now : Q)
    (job : ProcessingJob) : option (Segment * ProgramPoint) :=
  match task_pc t with
  | Done => None
  | AtStart =>
      if must_cancel t then Some (quiet job, Done)
      else segment_start input now job
  | AtSleep1 =>
      if must_cancel t then Some (job_cancelled now job, Done)
      else segment_sleep1 input job
  | AtSleep2 =>
      if must_cancel t then Some (job_cancelled now job, Done)
      else segment_sleep2 input job
  | AtExecutor =>
      if must_cancel t then Some (job_cancelled now job, Done)
      else segment_executor input now job
  end.

Definition task_step (h : nat) (input : StepInput) (now : Q) (q : ProcessingQueue)
    : option (ProcessingQueue * list ProgressUpdate) :=
  t ← loop_tasks q !! h;
  job ← dict_get (task_job t) (jobs q);
  '(job', log, pc) ← coroutine_step t input now job;
  Some ({| jobs := dict_alter (λ _, job') (task_job t) (jobs q);
           max_concurrent_jobs := max_concurrent_jobs q;
           running_jobs := running_jobs q;
           loop_tasks :=
             <[h := {| task_job := task_job t; task_pc := pc;
                       must_cancel := must_cancel t |}]> (loop_tasks q) |},
        log).

(** *** Executions of the queue *)

Inductive Event : Type :=
  | Submit (job_id : string) (song_id : Z) (input_file_path : string)
           (focus_intensity target_bpm : Z) (now : Q)
  | Cancel (job_id : string) (now : Q)
  | WorkerIteration
  | TaskStep (h : nat) (input : StepInput) (now : Q).

(** [step] is partial: an event that cannot happen gives [None].
    - [uuid4] never returns the id of an existing job;
    - the first step of a task created by [create_task] is queued on the
      event loop before the timer of the worker's [sleep(1.0)] fires, so an
      iteration of the worker finds no task that has not run yet. *)
Definition step (ev : Event) (q : ProcessingQueue) : option ProcessingQueue :=
  match ev with
  | Submit job_id song_id path intensity bpm now =>
      match dict_get job_id (jobs q) with
      | None => Some (submit_job job_id song_id path intensity bpm now q).2
      | Some _ => None
      end
  | Cancel job_id now => Some (cancel_job job_id now q).2
  | WorkerIteration =>
      if bool_decide (Forall (λ t, task_pc t ≠ AtStart) (loop_tasks q))
      then Some (worker_iteration q) else None
  | TaskStep h input now => fst <$> task_step h input now q
  end.

Fixpoint run (evs : list Event) (q : ProcessingQueue) : option ProcessingQueue :=
  match evs with
  | [] => Some q
  | ev :: evs' => q' ← step ev q; run evs' q'
  end.

Definition reachable_from (q0 q : ProcessingQueue) : Prop :=
  ∃ evs, run evs q0 = Some q.

Definition job_status (q : ProcessingQueue) (job_id : string) : option JobStatus :=
  status <$> dict_get job_id (jobs q).

(** [run] with the progress updates written by the task steps. *)
Fixpoint run_logged (evs : list Event) (q : ProcessingQueue)
    : option (ProcessingQueue * list ProgressUpdate) :=
  match evs with
  | [] => Some (q, [])
  | ev :: evs' =>
      '(q', log) ←
        match ev with
        | TaskStep h input now => task_step h input now q
        | _ => (λ q', (q', [])) <$> step ev q
        end;
      '(q'', log') ← run_logged evs' q';
      Some (q'', log ++ log')
  end.

(* ===================================================================== *)
(** ** backend/models.py and backend/focus_api.py: the cache of results   *)
(* ===================================================================== *)

(** A row of the table [processed_versions]; [id] is the only key of the
    table, no column is declared unique. *)
Record ProcessedVersion : Type := mkProcessedVersion {
  pv_id : Z;
  pv_song_id : Z;
  pv_focus_intensity : Z;
  pv_target_bpm : option Q;
  processed_filepath : string;
  pv_processed_duration : option Q;
  actual_bpm : option Q;
  pv_file_size : option Z
}.

(** The rows of [processed_versions], as a list.  The queries of the
    source end in [.first()] without an ordering, so the database chooses
    which of several matching rows it returns; the model takes the first
    match of the list.  Nothing below is stated about which of several
    matching rows a lookup returns. *)
Definition Table : Type := list ProcessedVersion.

(** The files on disk: [Path(p).exists()] and [Path(p).stat().st_size]. *)
Definition FileSystem : Type := string → option Z.

Inductive HttpResult (A : Type) : Type :=
  | Response (a : A)
  | HTTPException (status_code : Z) (detail : string).
Arguments Response {A} a.
Arguments HTTPException {A} status_code detail.

(** The filter of the two queries on [ProcessedVersion]:
    [song_id == song_id, focus_intensity == intensity,
     target_bpm == target_bpm]; a NULL column matches nothing. *)
Definition version_matches (song_id intensity : Z) (target_bpm : Q)
    (pv : ProcessedVersion) : bool :=
  (pv_song_id pv =? song_id) && (pv_focus_intensity pv =? intensity)
  && match pv_target_bpm pv with
     | Some b => Qeq_bool b target_bpm
     | None => false
     end.

Definition query_versions (song_id intensity : Z) (target_bpm : Q)
    (db : Table) : list ProcessedVersion :=
  filter (λ pv, version_matches song_id intensity target_bpm pv = true) db.

(** [db.add(row); db.commit()]: the row gets the next [id]. *)
Definition db_add (row : Z → ProcessedVersion) (db : Table) : Table :=
  db ++ [row (1 + foldr Z.max 0 (pv_id <$> db))].

Record FocusProcessingResponse : Type := mkFocusProcessingResponse {
  resp_job_id : string;
  resp_song_id : Z;
  estimated_duration_seconds : Q
}.

(** [start_focus_processing] from the cache check on (the song was found,
    its file exists and the request was validated).  [song_duration] is
    [song.duration], [uuid] the id drawn by [submit_job]. *)
Definition start_focus_processing (fs : FileSystem) (db : Table)
    (song_id : Z) (audio_path : string) (song_duration : option Q)
    (focus_intensity target_bpm : Z) (uuid : string) (now : Q)
    (q : ProcessingQueue) : FocusProcessingResponse * ProcessingQueue :=
  let existing_version :=
    head (query_versions song_id focus_intensity (inject_Z target_bpm) db) in
  let cached :=
    match existing_version with
    | Some existing_version =>
        bool_decide (is_Some (fs (processed_filepath existing_version)))
    | None => false
    end in
  if cached then
    ({| resp_job_id := "cached"; resp_song_id := song_id;
        estimated_duration_seconds := 0 |}, q)
  else
    let duration :=
      match song_duration with
      | Some d => if Qeq_bool d 0 then 180%Q else d
      | None => 180%Q
      end in
    let estimated_duration :=
      estimate_processing_duration duration focus_intensity in
    let (job_id, q') :=
      submit_job uuid song_id audio_path focus_intensity target_bpm now q in
    ({| resp_job_id := job_id; resp_song_id := song_id;
        estimated_duration_seconds := estimated_duration |}, q').

(** [download_processed_audio]: the answer is the path of the file that is
    served, and the table after the request.  (On a completed job without
    a result the source fails with an [AttributeError], which the server
    answers with status 500 as well.) *)
Definition download_processed_audio (fs : FileSystem) (job_id : string)
    (q : ProcessingQueue) (db : Table) : HttpResult string * Table :=
  if decide (job_id = "cached"%string) then
    (HTTPException 400 "Use /focus/download/{song_id} for cached versions", db)
  else
    match get_job_status job_id q with
    | None => (HTTPException 404 "Job not found", db)
    | Some job_info =>
        if negb (bool_decide (status job_info = COMPLETED)) then
          (HTTPException 400 "Job not completed", db)
        else
          match result job_info with
          | None => (HTTPException 500 "Processed file path not found", db)
          | Some res =>
              if decide (processed_file_path res = ""%string) then
                (HTTPException 500 "Processed file path not found", db)
              else
                match fs (processed_file_path res) with
                | None =>
                    (HTTPException 404 "Processed file not found on disk", db)
                | Some st_size =>
                    let processed_version id :=
                      {| pv_id := id;
                         pv_song_id := song_id job_info;
                         pv_focus_intensity := res_focus_intensity res;
                         pv_target_bpm := Some (processed_bpm res);
                         processed_filepath := processed_file_path res;
                         pv_processed_duration := Some (processed_duration res);
                         actual_bpm := Some (processed_bpm res);
                         pv_file_size := Some st_size |} in
                    (Response (processed_file_path res),
                     db_add processed_version db)
                end
          end
    end.

(** The entries of the cache for the key [(song, intensity, tempo)]. *)
Definition cache_entries (key : Z * Z * Q) (db : Table) : list ProcessedVersion :=
  let '(song_id, intensity, target_bpm) := key in
  query_versions song_id intensity target_bpm db.

(* ===================================================================== *)
(** ** Invariants of the queue                                            *)
(* ===================================================================== *)

(** Which of [result] and [error_message] a job carries, by status. *)
Definition job_fields_ok (job : ProcessingJob) : Prop :=
  (is_Some (result job) ↔ status job = COMPLETED)
  ∧ (status job = FAILED → is_Some (error_message job))
  ∧ (is_Some (error_message job) →
     status job = FAILED ∨ status job = CANCELLED)
  ∧ (status job = CANCELLED →
     error_message job = None
     ∨ error_message job = Some "Job was cancelled"%string).

(** A task that has not finished works on an existing job; unless it was
    cancelled it is the task registered for that job in [running_jobs],
    and the job is [PENDING] before the first step, [RUNNING] after. *)
Definition task_ok (q : ProcessingQueue) (h : nat) (t : Task) : Prop :=
  task_pc t ≠ Done →
  ∃ job, dict_get (task_job t) (jobs q) = Some job
    ∧ if must_cancel t then status job = CANCELLED
      else running_jobs q !! task_job t = Some h
           ∧ status job
             = (if decide (task_pc t = AtStart) then PENDING else RUNNING).

Record queue_inv (q : ProcessingQueue) : Prop := mkQueueInv {
  inv_keys : NoDup (dict_keys (jobs q));
  inv_ids : ∀ k job, dict_get k (jobs q) = Some job → job_id job = k;
  inv_fields : ∀ k job, dict_get k (jobs q) = Some job → job_fields_ok job;
  inv_running_jobs : ∀ k h,
    running_jobs q !! k = Some h →
    ∃ t, loop_tasks q !! h = Some t ∧ task_job t = k;
  inv_tasks : ∀ h t, loop_tasks q !! h = Some t → task_ok q h t;
  inv_status_running : ∀ k job,
    dict_get k (jobs q) = Some job → status job = RUNNING →
    ∃ h t, running_jobs q !! k = Some h ∧ loop_tasks q !! h = Some t
           ∧ must_cancel t = false
           ∧ task_pc t ≠ AtStart ∧ task_pc t ≠ Done
}.


(** The admission bound of the worker loop. *)
Definition running_bound (q : ProcessingQueue) : Prop :=
  Z.of_nat (size (running_jobs q)) <= max_concurrent_jobs q.

(** The transitions of the lifecycle: [PENDING] may become anything,
    [RUNNING] may stay or end, a terminal status stays. *)
Definition status_may_become (s s' : JobStatus) : Prop :=
  s = s' ∨ s = PENDING ∨ (s = RUNNING ∧ s' ≠ PENDING).


(** *** Sample executions *)

(** One job, cancelled by the user while its worker is running: the worker
    is interrupted at its first [await]. *)
Definition cancelled_while_running : list Event :=
  [ Submit "job-1" 1 "/music/a.mp3" 50 0 0;
    WorkerIteration;
    TaskStep 0 (Analysis 180) 1;
    Cancel "job-1" 2;
    TaskStep 0 Wakeup 3 ].


(** One job, cancelled by the user before the worker admitted it. *)
Definition cancelled_while_pending : list Event :=
  [ Submit "job-1" 1 "/music/a.mp3" 50 0 0 ].


(** *** Order of admission *)

(** The arguments of one call of [submit_job]. *)
Definition Submission : Type := string * Z * string * Z * Z * Q.

Definition submission_id (s : Submission) : string := s.1.1.1.1.1.

Definition submit_event (s : Submission) : Event :=
  let '(job_id, song_id, path, intensity, bpm, now) := s in
  Submit job_id song_id path intensity bpm now.

Definition is_cancel (ev : Event) : Prop :=
  match ev with
  | Cancel _ _ => True
  | _ => False
  end.

(** The job has left [PENDING]: the worker started it. *)
Definition has_started (q : ProcessingQueue) (k : string) : Prop :=
  ∃ job, dict_get k (jobs q) = Some job ∧ status job ≠ PENDING.

(** Before the first iteration of the worker: the two oldest jobs are [a]
    and [b], every job is [PENDING] and nothing runs. *)
Definition before_first_iteration (q : ProcessingQueue) (a b : string) : Prop :=
  (∃ ja jb rest, jobs q = (a, ja) :: (b, jb) :: rest)
  ∧ a ≠ b
  ∧ Forall (λ job, status job = PENDING) (dict_values (jobs q))
  ∧ loop_tasks q = []
  ∧ running_jobs q = ∅
  ∧ max_concurrent_jobs q = 2.

(** The job was started, or its task waits for its first step. *)
Definition started_or_waiting (q : ProcessingQueue) (k : string) : Prop :=
  has_started q k
  ∨ ∃ h t, loop_tasks q !! h = Some t ∧ task_job t = k ∧ task_pc t = AtStart.

(** After the first iteration, as long as [a] or [b] has not started: all
    tasks belong to [a] and [b], every other job is [PENDING]. *)
Definition only_first_two (q : ProcessingQueue) (a b : string) : Prop :=
  (∀ k job, dict_get k (jobs q) = Some job → k ≠ a → k ≠ b →
            status job = PENDING)
  ∧ (∀ h t, loop_tasks q !! h = Some t → task_job t = a ∨ task_job t = b)
  ∧ started_or_waiting q a
  ∧ started_or_waiting q b.

Definition admission_order (q : ProcessingQueue) (a b : string) : Prop :=
  (has_started q a ∧ has_started q b)
  ∨ before_first_iteration q a b
  ∨ only_first_two q a b.


(** *** A successful run of one job *)

(** The events of a run in which one submitted job is admitted, passes its
    three [await]s and gets a successful result from the pipeline. *)
Definition successful_run (s : Submission) (duration : Q) (r : FocusResult)
    (t1 t2 t3 t4 : Q) : list Event :=
  [ submit_event s;
    WorkerIteration;
    TaskStep 0 (Analysis duration) t1;
    TaskStep 0 Wakeup t2;
    TaskStep 0 Wakeup t3;
    TaskStep 0 (Returned (Success r)) t4 ].

(** The progress updates that the worker writes during a successful run. *)
Definition successful_progress : list ProgressUpdate :=
  [ ("Starting processing..."%string, 0);
    ("Loading audio..."%string, 10);
    ("Separating vocals and instruments..."%string, 20);
    ("Finalizing..."%string, 90);
    ("Complete"%string, 100) ].

(** The checkpoints that the specification lists for the pipeline. *)
Definition specified_checkpoints : list Z := [10; 65; 70; 95; 100].

Definition sample_result : FocusResult :=
  {| processed_file_path := "/tmp/focus_a_focus.mp3";
     original_duration := 180; processed_duration := 240;
     original_bpm := 120; processed_bpm := 90; tempo_ratio := 3 # 4;
     res_focus_intensity := 50; vocal_reduction_percent := 35;
     effects_applied := true; vocal_filtering := true;
     accompaniment_filtering := true |}.

Definition J1 : Submission := ("J1"%string, 1, "/music/1.mp3"%string, 50, 0, 0%Q).
Definition J2 : Submission := ("J2"%string, 2, "/music/2.mp3"%string, 50, 0, 0%Q).
Definition J3 : Submission := ("J3"%string, 3, "/music/3.mp3"%string, 50, 0, 0%Q).
Definition J4 : Submission := ("J4"%string, 4, "/music/4.mp3"%string, 50, 0, 0%Q).
Definition J5 : Submission := ("J5"%string, 5, "/music/5.mp3"%string, 50, 0, 0%Q).

(** J1 and J2 are admitted and start; J1 fails; the worker reaps it and
    admits J3, which starts. *)
Definition five_jobs_events : list Event :=
  [ WorkerIteration;
    TaskStep 0 (Analysis 180) 1;
    TaskStep 1 (Analysis 200) 1;
    TaskStep 0 Wakeup 2;
    TaskStep 0 Wakeup 3;
    TaskStep 0 (Returned (Failure "decode error")) 4;
    WorkerIteration;
    WorkerIteration;
    TaskStep 2 (Analysis 100) 7 ].


(** *** Two requests with the same parameters *)

(** Every path exists and has 1000 bytes. *)
Definition all_files : FileSystem := λ _, Some 1000.

(** The pipeline on a 180 s track with a detected tempo of 120. *)
Definition pipeline_outcome (out : string) (intensity bpm : Z) : ProcessOutcome :=
  FocusProcessor.process_audio_for_focus
    {| load_duration := Ok 180%Q; separate := Ok ();
       librosa_tempo := Ok 120%Q; focus_effects := Ok ();
       temp_file_name := out; numpy_to_mp3 := Ok () |}
    intensity bpm.

(** Song 1 is requested twice with intensity 50 and target tempo 90 while
    the table is empty; both jobs run to completion and both results are
    downloaded.  The value is the table after the second download. *)
Definition same_request_twice : option Table :=
  let (_, q) :=
    start_focus_processing all_files [] 1 "/music/1.mp3" None 50 90
                           "job-a" 0 (init 2) in
  let (_, q) :=
    start_focus_processing all_files [] 1 "/music/1.mp3" None 50 90
                           "job-b" 1 q in
  q ← run [ WorkerIteration;
            TaskStep 0 (Analysis 180) 2; TaskStep 1 (Analysis 180) 2;
            TaskStep 0 Wakeup 3; TaskStep 1 Wakeup 3;
            TaskStep 0 Wakeup 4; TaskStep 1 Wakeup 4;
            TaskStep 0 (Returned (pipeline_outcome "/tmp/focus_a.mp3" 50 90)) 5;
            TaskStep 1 (Returned (pipeline_outcome "/tmp/focus_b.mp3" 50 90)) 6 ]
           q;
  let (_, db) := download_processed_audio all_files "job-a" q [] in
  let (_, db) := download_processed_audio all_files "job-b" q db in
  Some db.

Definition is_response {A} (r : HttpResult A) : bool :=
  match r with
  | Response _ => true
  | HTTPException _ _ => false
  end.


(* ===================================================================== *)
(** ** backend/audio_utils.py: analysis and validation                    *)
(* ===================================================================== *)

Module AudioAnalyzer.

Definition _estimate_complexity
    (tempo dynamic_range spectral_centroid : Q) : string :=
  let complexity_score := 0 in
  let complexity_score :=
    if Qltb 140 tempo then complexity_score + 2
    else if Qltb 100 tempo then complexity_score + 1
    else complexity_score in
  let complexity_score :=
    if Qltb (5 # 10) dynamic_range then complexity_score + 2
    else if Qltb (3 # 10) dynamic_range then complexity_score + 1
    else complexity_score in
  let complexity_score :=
    if Qltb 3000 spectral_centroid then complexity_score + 2
    else if Qltb 2000 spectral_centroid then complexity_score + 1
    else complexity_score in
  if 5 <=? complexity_score then "high"%string
  else if 3 <=? complexity_score then "medium"%string
  else "low"%string.

End AudioAnalyzer.

(** The order of the three complexity classes. *)
Definition complexity_rank (c : string) : Z :=
  if decide (c = "high"%string) then 2
  else if decide (c = "medium"%string) then 1
  else 0.

(** What [librosa.load] answers for a file: the number of samples and the
    sample rate of the first second, and the number of samples of the
    whole file. *)
Record AudioDecode : Type := mkAudioDecode {
  load_first_second : pyres (Z * Z);
  load_full : pyres Z
}.

Module AudioValidatorFile.

(** [AudioValidator.validate_audio_file]; [fs] answers [os.path.exists]
    and [os.path.getsize].  The messages are abbreviated to their fixed
    part. *)
Definition validate_audio_file (fs : FileSystem) (decode : string → AudioDecode)
    (file_path : string) : bool * option string :=
  match fs file_path with
  | None => (false, Some "File does not exist"%string)
  | Some file_size =>
      let max_size := 100 * 1024 * 1024 in
      if max_size <? file_size then (false, Some "File too large"%string)
      else
        match load_first_second (decode file_path) with
        | Raise _ => (false, Some "Invalid audio file"%string)
        | Ok (len_y, sr) =>
            if len_y =? 0
            then (false, Some "Audio file appears to be empty"%string)
            else
              match load_full (decode file_path) with
              | Raise _ => (false, Some "Invalid audio file"%string)
              | Ok len_full_y =>
                  match py_div (inject_Z len_full_y) (inject_Z sr) with
                  | Raise _ => (false, Some "Invalid audio file"%string)
                  | Ok duration =>
                      if Qltb duration 10
                      then (false, Some "Audio too short"%string)
                      else
                        let max_duration := 600%Q in
                        if Qltb max_duration duration
                        then (false, Some "Audio too long"%string)
                        else (true, None)
                  end
              end
        end
  end.

End AudioValidatorFile.

(** [validate_processing_request]: the file first, then the parameters. *)
Definition validate_processing_request (fs : FileSystem)
    (decode : string → AudioDecode) (file_path : string)
    (intensity target_bpm : Z) : bool * option string :=
  let (file_valid, file_error) :=
    AudioValidatorFile.validate_audio_file fs decode file_path in
  if negb file_valid then (false, file_error)
  else
    match AudioValidator.validate_focus_parameters intensity target_bpm with
    | Some params_error => (false, Some params_error)
    | None => (true, None)
    end.

(* ===================================================================== *)
(** ** backend/focus_processor.py: the effect chain                       *)
(* ===================================================================== *)

(** A buffer of samples (all channels). *)
Definition Samples : Type := list Q.

Definition Qabs_max (x y : Q) : Q := if Qltb x y then y else x.

(** [np.max(np.abs(a))]; numpy raises [ValueError] on an empty array. *)
Definition np_max_abs (a : Samples) : pyres Q :=
  match a with
  | [] => Raise (Exception "zero-size array to reduction operation maximum which has no identity")
  | x :: a' => Ok (foldl (λ m y, Qabs_max m (Qabs y)) (Qabs x) a')
  end.

(** [a * c] for a scalar [c]. *)
Definition np_scale (a : Samples) (c : Q) : Samples := (λ x, (x * c)%Q) <$> a.

Section effect_chain.

(** The signal primitives of librosa, scipy and numpy stay abstract:
    [librosa.effects.time_stretch], [signal.butter] followed by
    [signal.filtfilt] (the order of the filter, the normalised cutoff, the
    signal), and the addition of two arrays. *)
Variable time_stretch : Samples → Q → pyres Samples.
Variable lowpass_filtfilt : Z → Q → Samples → pyres Samples.
Variable np_add : Samples → Samples → pyres Samples.

(** The last statements of [apply_focus_effects]: a mix whose peak is above
    0.95 is scaled by [0.95 / max_val]. *)
Definition normalize_peak (final_mix : Samples) : pyres Samples :=
  max_val ← np_max_abs final_mix;
  if Qltb (95 # 100) max_val then
    scale ← py_div (95 # 100) max_val;
    Ok (np_scale final_mix scale)
  else Ok final_mix.

Definition apply_focus_effects (vocals accompaniment : Samples)
    (sample_rate : Z) (focus_intensity tempo_ratio : Q) : pyres Samples :=
  let intensity := (focus_intensity / 100)%Q in
  vocals_processed ← time_stretch vocals tempo_ratio;
  vocals_processed ←
    (if Qltb (3 # 10) intensity then
       nyquist ← py_div (inject_Z sample_rate) 2;
       let cutoff := (3000 * (1 - intensity * (5 # 10)))%Q in
       wn ← py_div cutoff nyquist;
       lowpass_filtfilt 4 wn vocals_processed
     else Ok vocals_processed);
  let vocal_volume := (1 - intensity * (7 # 10))%Q in
  let vocals_processed := np_scale vocals_processed vocal_volume in
  accompaniment_processed ← time_stretch accompaniment tempo_ratio;
  accompaniment_processed ←
    (if Qltb (2 # 10) intensity then
       let cutoff_acc := (5000 * (1 - intensity * (3 # 10)))%Q in
       nyquist ← py_div (inject_Z sample_rate) 2;
       wn ← py_div cutoff_acc nyquist;
       lowpass_filtfilt 3 wn accompaniment_processed
     else Ok accompaniment_processed);
  final_mix ← np_add vocals_processed accompaniment_processed;
  normalize_peak final_mix.

End effect_chain.


(** The contribution of one measure to the complexity score. *)
Definition complexity_band (high_mark low_mark x : Q) : Z :=
  if Qltb high_mark x then 2 else if Qltb low_mark x then 1 else 0.


Definition sample_decode : string → AudioDecode :=
  λ _, {| load_first_second := Ok (44100, 44100);
          load_full := Ok 7938000 |}.


(** The collaborators of a pipeline run in which every primitive succeeds. *)
Definition collaborators_ok (duration tempo : Q) (out : string) : Collaborators :=
  {| load_duration := Ok duration; separate := Ok ();
     librosa_tempo := Ok tempo; focus_effects := Ok ();
     temp_file_name := out; numpy_to_mp3 := Ok () |}.


(** Primitives for sample runs of the effect chain: no time stretch, a
    filter that halves every sample, the addition of equally long
    buffers. *)
Definition sample_time_stretch (y : Samples) (rate : Q) : pyres Samples := Ok y.

Definition sample_lowpass (order : Z) (wn : Q) (y : Samples) : pyres Samples :=
  Ok (np_scale y (1 # 2)).

Definition sample_np_add (a b : Samples) : pyres Samples :=
  if decide (length a = length b) then Ok (zip_with Qplus a b)
  else Raise (Exception "operands could not be broadcast together").


(* ===================================================================== *)
(** ** Further invariants of the job records                              *)
(* ===================================================================== *)

Definition terminal (s : JobStatus) : Prop :=
  s = COMPLETED ∨ s = FAILED ∨ s = CANCELLED.

(** The progress of a job, by status. *)
Definition job_progress_ok (job : ProcessingJob) : Prop :=
  0 <= progress_percent job <= 100
  ∧ (status job = PENDING → progress_percent job = 0)
  ∧ (status job = RUNNING → 10 <= progress_percent job <= 20)
  ∧ (status job = COMPLETED ↔ progress_percent job = 100).

(** The time stamps of a job, by status. *)
Definition job_times_ok (job : ProcessingJob) : Prop :=
  (is_Some (completed_at job) ↔ terminal (status job))
  ∧ (status job = PENDING →
     started_at job = None ∧ estimated_completion job = None)
  ∧ (status job = RUNNING ∨ status job = COMPLETED ∨ status job = FAILED →
     is_Some (started_at job))
  ∧ (∀ ec, estimated_completion job = Some ec →
           ∃ s, started_at job = Some s ∧ (s + 10 <= ec)%Q).

Definition job_record_ok (job : ProcessingJob) : Prop :=
  job_fields_ok job ∧ job_progress_ok job ∧ job_times_ok job.

(** What a later state of a job keeps from an earlier one. *)
Definition job_evolves (job job' : ProcessingJob) : Prop :=
  job_id job' = job_id job
  ∧ song_id job' = song_id job
  ∧ input_file_path job' = input_file_path job
  ∧ focus_intensity job' = focus_intensity job
  ∧ target_bpm job' = target_bpm job
  ∧ created_at job' = created_at job
  ∧ status_may_become (status job) (status job')
  ∧ progress_percent job <= progress_percent job'
  ∧ (∀ s, started_at job = Some s → started_at job' = Some s)
  ∧ (∀ r, result job = Some r → result job' = Some r).

(** The status that the invariant gives to the job of a task. *)
Definition status_for_task (t : Task) : JobStatus :=
  if must_cancel t then CANCELLED
  else if decide (task_pc t = AtStart) then PENDING else RUNNING.

(* ===================================================================== *)
(** ** backend/focus_api.py: queue status, recommendations, cached files  *)
(* ===================================================================== *)

(** [get_queue_status]: the queue information and the system status. *)
Definition get_queue_status (q : ProcessingQueue) : QueueInfo * string :=
  let queue_info := get_queue_info q in
  (queue_info,
   if Z.of_nat (running queue_info) <? max_concurrent queue_info
   then "healthy"%string else "busy"%string).

(** The keys of the analysis dictionary read by
    [_generate_focus_recommendations]; a missing key is [None]. *)
Record AnalysisDict : Type := mkAnalysisDict {
  an_tempo : option Q;
  an_processing_complexity : option string;
  an_dynamic_range : option Q
}.

Record Recommendations : Type := mkRecommendations {
  recommended_intensity : Z;
  recommended_target_bpm : Q;
  reasoning : list string
}.

Definition _generate_focus_recommendations (analysis : AnalysisDict)
    : Recommendations :=
  let tempo := default 120%Q (an_tempo analysis) in
  let complexity :=
    default "medium"%string (an_processing_complexity analysis) in
  let dynamic_range := default (1 # 2)%Q (an_dynamic_range analysis) in
  let recommendations :=
    {| recommended_intensity := 50; recommended_target_bpm := 0%Q;
       reasoning := [] |} in
  let recommendations :=
    if Qltb 140 tempo then
      {| recommended_intensity := 70;
         recommended_target_bpm := py_max 80 (tempo * (6 # 10))%Q;
         reasoning := reasoning recommendations
                      ++ ["Fast tempo detected - higher intensity recommended"%string] |}
    else if Qltb tempo 80 then
      {| recommended_intensity := 30;
         recommended_target_bpm := recommended_target_bpm recommendations;
         reasoning := reasoning recommendations
                      ++ ["Slow tempo detected - lower intensity sufficient"%string] |}
    else recommendations in
  let recommendations :=
    if decide (complexity = "high"%string) then
      {| recommended_intensity :=
           Z.min 80 (recommended_intensity recommendations + 20);
         recommended_target_bpm := recommended_target_bpm recommendations;
         reasoning := reasoning recommendations
                      ++ ["Complex audio - higher intensity for better focus"%string] |}
    else if decide (complexity = "low"%string) then
      {| recommended_intensity :=
           Z.max 25 (recommended_intensity recommendations - 15);
         recommended_target_bpm := recommended_target_bpm recommendations;
         reasoning := reasoning recommendations
                      ++ ["Simple audio - lower intensity preserves musicality"%string] |}
    else recommendations in
  if Qltb (6 # 10) dynamic_range then
    {| recommended_intensity := recommended_intensity recommendations;
       recommended_target_bpm := recommended_target_bpm recommendations;
       reasoning := reasoning recommendations
                    ++ ["High dynamic range - processing will smooth energy levels"%string] |}
  else recommendations.

(** [db.delete(row); db.commit()]: the row with that primary key goes. *)
Definition db_delete (row : ProcessedVersion) (db : Table) : Table :=
  filter (λ pv, pv_id pv ≠ pv_id row) db.

(** [download_cached_processed_audio]: the path of the file that is served,
    and the table after the request. *)
Definition download_cached_processed_audio (fs : FileSystem)
    (song_id intensity target_bpm : Z) (db : Table)
    : HttpResult string * Table :=
  match head (query_versions song_id intensity (inject_Z target_bpm) db) with
  | None => (HTTPException 404 "Processed version not found", db)
  | Some processed_version =>
      match fs (processed_filepath processed_version) with
      | None =>
          (HTTPException 404 "Processed file not found on disk",
           db_delete processed_version db)
      | Some _ => (Response (processed_filepath processed_version), db)
      end
  end.

(** The job record that an event addresses: the job submitted or cancelled,
    or the job of the task that takes the step. *)
Definition event_job (q : ProcessingQueue) (ev : Event) : option string :=
  match ev with
  | Submit job_id _ _ _ _ _ => Some job_id
  | Cancel job_id _ => Some job_id
  | WorkerIteration => None
  | TaskStep h _ _ => task_job <$> loop_tasks q !! h
  end.

(** Three jobs submitted to a queue of two slots. *)
Definition three_submitted : list Event :=
  [ Submit "job-1" 1 "/music/a.mp3" 50 0 0;
    Submit "job-2" 2 "/music/b.mp3" 40 0 1;
    Submit "job-3" 3 "/music/c.mp3" 30 90 2 ].

(** A table with one row whose file is no longer on disk. *)
Definition stale_table : Table :=
  [ {| pv_id := 1; pv_song_id := 7; pv_focus_intensity := 50;
       pv_target_bpm := Some 90%Q; processed_filepath := "/tmp/gone.mp3";
       pv_processed_duration := Some 200%Q; actual_bpm := Some 90%Q;
       pv_file_size := Some 1000 |} ].

Definition no_files : FileSystem := λ _, None.

(** One request in automatic mode (target tempo 0) that runs to
    completion. *)
Definition auto_request_run : list Event :=
  [ Submit "job-1" 1 "/music/1.mp3" 50 0 0;
    WorkerIteration;
    TaskStep 0 (Analysis 180) 1;
    TaskStep 0 Wakeup 2;
    TaskStep 0 Wakeup 3;
    TaskStep 0 (Returned (pipeline_outcome "/tmp/focus_a.mp3" 50 0)) 4 ].

(* ===================================================================== *)
(** ** The message of an interrupted worker                               *)
(* ===================================================================== *)

(** The worker of job [k] was interrupted: a task of the job received
    [Task.cancel()] and has ended. *)
Definition worker_interrupted (q : ProcessingQueue) (k : string) : Prop :=
  ∃ h t, loop_tasks q !! h = Some t ∧ task_job t = k
         ∧ must_cancel t = true ∧ task_pc t = Done.

(** An error message on a [CANCELLED] job was written by the
    [CancelledError] handler of a task that had started the job; a task
    that is past its first step has started its job. *)
Record interrupt_inv (q : ProcessingQueue) : Prop := mkInterruptInv {
  inv_cancel_message : ∀ k job,
    dict_get k (jobs q) = Some job → status job = CANCELLED →
    is_Some (error_message job) →
    is_Some (started_at job) ∧ worker_interrupted q k;
  inv_started : ∀ h t job,
    loop_tasks q !! h = Some t → task_pc t ≠ Done → task_pc t ≠ AtStart →
    dict_get (task_job t) (jobs q) = Some job → is_Some (started_at job)
}.

(** Two jobs are admitted; the first fails at once, the second is
    running. *)
Definition one_failed_one_running : list Event :=
  [ Submit "job-1" 1 "/music/a.mp3" 50 0 0;
    Submit "job-2" 2 "/music/b.mp3" 50 0 0;
    WorkerIteration;
    TaskStep 0 (Raised (Exception "cannot read the file")) 1;
    TaskStep 1 (Analysis 180) 1 ].

(* ===================================================================== *)
(** * Properties                                                          *)
(* ===================================================================== *)

(** ** Comparisons of floats *)

Lemma Qleb_true (x y : Q) : Qleb x y = true ↔ (x <= y)%Q.
Proof. apply Qle_bool_iff. Qed.

Lemma Qleb_false (x y : Q) : Qleb x y = false ↔ (y < x)%Q.
Proof.
  unfold Qleb. rewrite <- not_true_iff_false, Qle_bool_iff.
  split; [apply Qnot_le_lt | apply Qlt_not_le].
Qed.

Lemma Qltb_true (x y : Q) : Qltb x y = true ↔ (x < y)%Q.
Proof. unfold Qltb. rewrite negb_true_iff. apply Qleb_false. Qed.

Lemma Qltb_false (x y : Q) : Qltb x y = false ↔ (y <= x)%Q.
Proof. unfold Qltb. rewrite negb_false_iff. apply Qleb_true. Qed.

Lemma py_max_spec (a b : Q) :
  (a < b ∧ py_max a b = b)%Q ∨ (b <= a ∧ py_max a b = a)%Q.
Proof.
  unfold py_max. destruct (Qltb a b) eqn:E.
  - left. by apply Qltb_true in E.
  - right. by apply Qltb_false in E.
Qed.

Lemma py_div_nonzero (x y : Q) : ¬ (y == 0)%Q → py_div x y = Ok (x / y)%Q.
Proof.
  intros Hy. unfold py_div. destruct (Qeq_bool y 0) eqn:E; [|done].
  by apply Qeq_bool_iff in E.
Qed.

Lemma py_div_zero (x y : Q) : (y == 0)%Q → py_div x y = Raise ZeroDivisionError.
Proof.
  intros Hy. unfold py_div.
  destruct (Qeq_bool y 0) eqn:E; [done|].
  apply Qeq_bool_iff in Hy. congruence.
Qed.

(** ** The time synchronisation calculator *)

(** C9: with equal original and processed tempo [t > 0], the synchronised
    position is the original position. *)
Theorem sync_position_same_tempo (p t : Q) :
  (0 < t)%Q →
  (AudioTimeCalculator.calculate_sync_position p t t == p)%Q.
Proof.
  intros Ht. unfold AudioTimeCalculator.calculate_sync_position.
  assert (Qleb t 0 = false) as -> by by apply Qleb_false.
  cbn. field. intros E. rewrite E in Ht. by apply Qlt_irrefl in Ht.
Qed.

Lemma sync_position_same_tempo_witness :
  (0 < 120)%Q ∧ (AudioTimeCalculator.calculate_sync_position 150 120 120 == 150)%Q.
Proof. split; [reflexivity | apply sync_position_same_tempo; reflexivity]. Defined.

(** The example of the synchronisation: 150 s at 120 BPM is 112.5 s at
    90 BPM. *)
Example sync_position_example :
  (AudioTimeCalculator.calculate_sync_position 150 120 90 == 225 # 2)%Q.
Proof. reflexivity. Qed.

(** A tempo that is not positive leaves the position unchanged. *)
Example sync_position_invalid_tempo :
  AudioTimeCalculator.calculate_sync_position 150 0 90 = 150%Q
  ∧ AudioTimeCalculator.calculate_sync_position 150 120 (-1) = 150%Q.
Proof. by split. Qed.

Lemma intensity_factor_bounds (i : Z) :
  0 <= i <= 100 →
  (1 <= 1 + (inject_Z i / 100) * (3 # 10))%Q.
Proof.
  intros [Hi _]. rewrite Zle_Qle in Hi.
  assert (0 <= inject_Z i / 100)%Q.
  { apply Qle_shift_div_l; [reflexivity|]. by rewrite Qmult_0_l. }
  lra.
Qed.

Lemma intensity_factor_mono (i j : Z) :
  i <= j →
  (1 + (inject_Z i / 100) * (3 # 10) <= 1 + (inject_Z j / 100) * (3 # 10))%Q.
Proof.
  intros Hij. rewrite Zle_Qle in Hij.
  assert (inject_Z i / 100 <= inject_Z j / 100)%Q.
  { apply Qmult_le_compat_r; [done|]. by compute. }
  lra.
Qed.

(** C8: for a fixed duration the estimate does not decrease when the
    intensity grows within 0..100, and it is never below 10. *)
Theorem estimate_processing_time_monotone_floor (d : Q) (i j : Z) :
  0 <= i → i <= j → j <= 100 →
  (AudioTimeCalculator.estimate_processing_time d i
     <= AudioTimeCalculator.estimate_processing_time d j)%Q
  ∧ (10 <= AudioTimeCalculator.estimate_processing_time d i)%Q.
Proof.
  intros H0 Hij H100. unfold AudioTimeCalculator.estimate_processing_time.
  pose proof (intensity_factor_bounds i ltac:(lia)) as Hfi.
  pose proof (intensity_factor_mono i j Hij) as Hfij.
  set (fi := (1 + (inject_Z i / 100) * (3 # 10))%Q) in *.
  set (fj := (1 + (inject_Z j / 100) * (3 # 10))%Q) in *.
  set (base := (d * (7 # 10))%Q).
  destruct (py_max_spec (base * fi) 10) as [[Hi ->]|[Hi ->]];
    destruct (py_max_spec (base * fj) 10) as [[Hj ->]|[Hj ->]].
  - split; apply Qle_refl.
  - split; [done | apply Qle_refl].
  - split; [|done]. exfalso.
    assert (0 < base)%Q by nra. nra.
  - split; [|done].
    assert (0 < base)%Q by nra. nra.
Qed.

Lemma estimate_processing_time_monotone_floor_witness :
  (AudioTimeCalculator.estimate_processing_time 200 20
     <= AudioTimeCalculator.estimate_processing_time 200 80)%Q
  ∧ (10 <= AudioTimeCalculator.estimate_processing_time 200 20)%Q.
Proof. apply estimate_processing_time_monotone_floor; lia. Defined.

(** ** The tempo policy of the pipeline *)

Lemma tempo_ratio_zero_tempo (target_bpm focus_intensity : Q) :
  FocusProcessor.calculate_tempo_ratio 0 target_bpm focus_intensity
  = Raise ZeroDivisionError.
Proof.
  unfold FocusProcessor.calculate_tempo_ratio.
  destruct (Qltb 0 target_bpm); by apply py_div_zero.
Qed.

(** C1: a detected tempo of 0 is not replaced by 120: [detect_bpm] hands it
    on unchanged, [calculate_tempo_ratio] then divides by zero for every
    target tempo and intensity, and the pipeline run ends as a failure. *)
Theorem zero_detected_tempo_divides_by_zero
    (target_bpm focus_intensity : Z) (duration : Q) (out : string) :
  FocusProcessor.detect_bpm (Ok 0%Q) = 0%Q
  ∧ FocusProcessor.calculate_tempo_ratio
      (FocusProcessor.detect_bpm (Ok 0%Q))
      (inject_Z target_bpm) (inject_Z focus_intensity)
    = Raise ZeroDivisionError
  ∧ FocusProcessor.process_audio_for_focus
      {| load_duration := Ok duration; separate := Ok ();
         librosa_tempo := Ok 0%Q; focus_effects := Ok ();
         temp_file_name := out; numpy_to_mp3 := Ok () |}
      focus_intensity target_bpm
    = Failure "float division by zero".
Proof.
  split; [done|]. split; [apply tempo_ratio_zero_tempo|].
  unfold FocusProcessor.process_audio_for_focus,
    FocusProcessor.process_audio_body.
  cbn [load_duration separate librosa_tempo mbind result_bind
       FocusProcessor.detect_bpm].
  by rewrite tempo_ratio_zero_tempo.
Qed.

(** The automatic target: intensity 50 at a detected tempo of 120 gives the
    target [max(50, 120 * 0.75) = 90] and the ratio 3/4. *)
Example tempo_ratio_auto_example :
  ∃ ratio, FocusProcessor.calculate_tempo_ratio 120 0 50 = Ok ratio
           ∧ (ratio == 3 # 4)%Q.
Proof. eexists. split; [reflexivity | reflexivity]. Qed.

(** A negative detected tempo is not replaced either: the ratio is
    negative. *)
Example tempo_ratio_negative_tempo :
  ∃ ratio, FocusProcessor.calculate_tempo_ratio (-120) 0 50 = Ok ratio
           ∧ (ratio < 0)%Q.
Proof. eexists. split; [reflexivity | reflexivity]. Qed.

(** The fallback of [detect_bpm] is taken when librosa raises. *)
Example detect_bpm_fallback (msg : string) :
  FocusProcessor.detect_bpm (Raise (Exception msg)) = 120%Q.
Proof. reflexivity. Qed.

(** For a positive detected tempo the ratio of the pipeline is the one the
    time calculator returns for the tempos that the pipeline reports. *)
Lemma tempo_ratio_consistent_positive
    (original_bpm target_bpm focus_intensity ratio : Q) :
  (0 < original_bpm)%Q →
  FocusProcessor.calculate_tempo_ratio original_bpm target_bpm focus_intensity
  = Ok ratio →
  (AudioTimeCalculator.calculate_tempo_ratio
     original_bpm (original_bpm * ratio) == ratio)%Q.
Proof.
  intros Hpos Hr. unfold AudioTimeCalculator.calculate_tempo_ratio.
  assert (Qleb original_bpm 0 = false) as -> by by apply Qleb_false.
  field. intros E. rewrite E in Hpos. by apply Qlt_irrefl in Hpos.
Qed.

Lemma tempo_ratio_defined_positive
    (original_bpm target_bpm focus_intensity : Q) :
  (0 < original_bpm)%Q →
  ∃ ratio,
    FocusProcessor.calculate_tempo_ratio original_bpm target_bpm focus_intensity
    = Ok ratio.
Proof.
  intros Hpos. unfold FocusProcessor.calculate_tempo_ratio.
  assert (¬ (original_bpm == 0)%Q) as Hne.
  { intros E. rewrite E in Hpos. by apply Qlt_irrefl in Hpos. }
  destruct (Qltb 0 target_bpm); rewrite py_div_nonzero by done; eauto.
Qed.

(** C4: at a detected tempo of -120 with the target tempo 60 the pipeline
    computes the ratio -1/2 and reports the processed tempo 60, for which
    the time calculator answers 1; at a detected tempo of 0 the pipeline
    has no ratio at all. *)
Theorem tempo_ratio_inconsistent_nonpositive :
  FocusProcessor.calculate_tempo_ratio (-120) 60 50 = Ok (60 / -120)%Q
  ∧ (AudioTimeCalculator.calculate_tempo_ratio
       (-120) (-120 * (60 / -120)) == 1)%Q
  ∧ ¬ (AudioTimeCalculator.calculate_tempo_ratio
         (-120) (-120 * (60 / -120)) == 60 / -120)%Q
  ∧ FocusProcessor.calculate_tempo_ratio 0 60 50 = Raise ZeroDivisionError.
Proof. repeat split; try reflexivity. by intros H. Qed.

(** ** Counting jobs by status *)

Lemma sum_ones_length {A} (l : list A) :
  sum_list ((λ _, 1%nat) <$> l) = length l.
Proof. induction l; cbn; congruence. Qed.

Lemma count_status_length (s : JobStatus) (q : ProcessingQueue) :
  count_status s q
  = length (filter (λ job, status job = s) (dict_values (jobs q))).
Proof. apply sum_ones_length. Qed.

Lemma status_partition (l : list ProcessingJob) :
  (length (filter (λ job, status job = PENDING) l)
   + length (filter (λ job, status job = RUNNING) l)
   + length (filter (λ job, status job = COMPLETED) l)
   + length (filter (λ job, status job = FAILED) l)
   + length (filter (λ job, status job = CANCELLED) l))%nat
  = length l.
Proof.
  induction l as [|job l IH]; [done|].
  rewrite !filter_cons.
  destruct (status job) eqn:E; repeat case_decide; try done; cbn; lia.
Qed.

Lemma filter_nonempty_exists {A} (P : A → Prop) `{∀ x, Decision (P x)}
    (l : list A) :
  (0 < length (filter P l))%nat ↔ ∃ x, x ∈ l ∧ P x.
Proof.
  split.
  - destruct (filter P l) as [|x l'] eqn:E; cbn; [lia|]. intros _.
    exists x. apply and_comm, (list_elem_of_filter P). rewrite E. left.
  - intros (x & Hx & HP).
    assert (x ∈ filter P l) as Hin by by apply list_elem_of_filter.
    destruct (filter P l); [by apply not_elem_of_nil in Hin | cbn; lia].
Qed.

(** C10: the four counts of [get_queue_info] leave the cancelled jobs out:
    their sum is at most [total_jobs], it is [total_jobs] minus the number
    of cancelled jobs, and it is smaller exactly when some job is
    cancelled. *)
Theorem queue_info_excludes_cancelled (q : ProcessingQueue) :
  let info := get_queue_info q in
  let counted := (pending info + running info + completed info + failed info)%nat in
  (counted ≤ total_jobs info)%nat
  ∧ (counted + count_status CANCELLED q)%nat = total_jobs info
  ∧ ((counted < total_jobs info)%nat
     ↔ ∃ job, job ∈ dict_values (jobs q) ∧ status job = CANCELLED).
Proof.
  cbn. rewrite !count_status_length.
  pose proof (status_partition (dict_values (jobs q))) as Hsum.
  unfold dict_values in *. rewrite length_fmap in Hsum.
  rewrite <- (filter_nonempty_exists (λ job, status job = CANCELLED)).
  lia.
Qed.

(** ** Dictionaries *)

Section dict.
Context {V : Type}.
Implicit Types (d : pydict V) (k : string) (v : V).

Lemma dict_get_None d k : dict_get k d = None ↔ k ∉ dict_keys d.
Proof.
  induction d as [|[k' v'] d IH]; cbn.
  - split; [intros _; apply not_elem_of_nil | done].
  - case_decide; subst.
    + split; [done | intros []; left].
    + rewrite IH, not_elem_of_cons. tauto.
Qed.

Lemma dict_get_elem d k v : dict_get k d = Some v → (k, v) ∈ d.
Proof.
  induction d as [|[k' v'] d IH]; cbn; [done|].
  case_decide; subst.
  - intros [= ->]. left.
  - intros. right. auto.
Qed.

Lemma dict_elem_get d k v :
  NoDup (dict_keys d) → (k, v) ∈ d → dict_get k d = Some v.
Proof.
  induction d as [|[k' v'] d IH]; cbn; [by intros _ ?%not_elem_of_nil|].
  intros [Hk Hd]%NoDup_cons [Heq|Hin]%elem_of_cons.
  - injection Heq as -> ->. by rewrite decide_True.
  - case_decide; subst; [|by auto].
    destruct Hk. apply (list_elem_of_fmap_2 fst) in Hin. done.
Qed.

Lemma dict_get_alter (f : V → V) d k k' :
  dict_get k' (dict_alter f k d)
  = if decide (k' = k) then f <$> dict_get k d else dict_get k' d.
Proof.
  induction d as [|[k0 v0] d IH]; cbn; [by case_decide|].
  destruct (decide (k = k0)) as [->|Hk]; cbn.
  - destruct (decide (k' = k0)) as [->|Hk']; [done|].
    by rewrite ?decide_False.
  - destruct (decide (k' = k0)) as [->|Hk'].
    + by rewrite ?decide_False.
    + apply IH.
Qed.

Lemma dict_keys_alter (f : V → V) d k :
  dict_keys (dict_alter f k d) = dict_keys d.
Proof.
  unfold dict_keys. induction d as [|[k0 v0] d IH]; cbn; [done|].
  case_decide; cbn; congruence.
Qed.

Lemma dict_alter_same d k v :
  dict_get k d = Some v → dict_alter (λ _, v) k d = d.
Proof.
  induction d as [|[k0 v0] d IH]; cbn; [done|].
  case_decide; subst; [by intros [= ->]|]. intros. by rewrite IH.
Qed.

Lemma dict_set_fresh d k v : dict_get k d = None → dict_set k v d = d ++ [(k, v)].
Proof.
  induction d as [|[k0 v0] d IH]; cbn; [done|].
  case_decide; [done|]. intros. by rewrite IH.
Qed.

Lemma dict_get_snoc d k k' v :
  dict_get k' (d ++ [(k, v)])
  = match dict_get k' d with
    | Some x => Some x
    | None => if decide (k' = k) then Some v else None
    end.
Proof.
  induction d as [|[k0 v0] d IH]; cbn; [done|].
  destruct (decide (k' = k0)); [done | apply IH].
Qed.

Lemma dict_values_elem d v : v ∈ dict_values d ↔ ∃ k, (k, v) ∈ d.
Proof.
  unfold dict_values. rewrite list_elem_of_fmap. split.
  - intros ([k v'] & -> & Hin). by exists k.
  - intros (k & Hin). by exists (k, v).
Qed.
End dict.

(** ** One step of [_process_job] *)

(** The five ways in which a step of the coroutine changes its job. *)
Lemma coroutine_step_spec (t : Task) (input : StepInput) (now : Q)
    (job job' : ProcessingJob) (log : list ProgressUpdate) (pc : ProgramPoint) :
  coroutine_step t input now job = Some (job', log, pc) →
  task_pc t ≠ Done ∧ job_id job' = job_id job
  ∧ ((must_cancel t = true ∧ task_pc t = AtStart ∧ pc = Done ∧ job' = job)
     ∨ (must_cancel t = true ∧ task_pc t ≠ AtStart ∧ pc = Done
        ∧ status job' = CANCELLED
        ∧ error_message job' = Some "Job was cancelled"%string
        ∧ result job' = result job)
     ∨ (must_cancel t = false ∧ pc ≠ Done ∧ pc ≠ AtStart
        ∧ status job'
          = (if decide (task_pc t = AtStart) then RUNNING else status job)
        ∧ result job' = result job
        ∧ error_message job' = error_message job)
     ∨ (must_cancel t = false ∧ pc = Done ∧ status job' = FAILED
        ∧ is_Some (error_message job') ∧ result job' = result job)
     ∨ (must_cancel t = false ∧ pc = Done ∧ status job' = COMPLETED
        ∧ is_Some (result job')
        ∧ error_message job' = error_message job)).
Proof.
  unfold coroutine_step, segment_start, segment_sleep1, segment_sleep2,
    segment_executor.
  destruct t as [k [] []]; cbn; try done;
    try (intros [= <- <- <-]; split; [done|]; split; [done|]; cbn;
         naive_solver).
  all: destruct input as [|d|[r|err]|e]; cbn; try done.
  all: intros [= <- <- <-]; split; [done|]; split; [done|]; cbn.
  all: try (do 2 right; left; by repeat split).
  all: try (do 3 right; left; by repeat split; eauto).
  all: try (do 4 right; by repeat split; eauto).
Qed.

(** ** Preservation of the invariant *)

Ltac inv_split :=
  split; cbn [jobs running_jobs loop_tasks max_concurrent_jobs].

Lemma queue_inv_init (m : Z) : queue_inv (init m).
Proof. split; cbn; try done. apply NoDup_nil_2. Qed.

Lemma job_fields_live (job : ProcessingJob) :
  job_fields_ok job → status job = PENDING ∨ status job = RUNNING →
  ¬ is_Some (result job) ∧ ¬ is_Some (error_message job).
Proof.
  intros (Hr & _ & He & _) Hs. split.
  - intros ?%Hr. destruct Hs; congruence.
  - intros [?|?]%He; destruct Hs; congruence.
Qed.

Lemma job_fields_ok_step (c : bool) (pc0 pc : ProgramPoint)
    (job job' : ProcessingJob) :
  job_fields_ok job →
  (if c then status job = CANCELLED
   else status job = (if decide (pc0 = AtStart) then PENDING else RUNNING)) →
  ((c = true ∧ pc0 = AtStart ∧ pc = Done ∧ job' = job)
   ∨ (c = true ∧ pc0 ≠ AtStart ∧ pc = Done
      ∧ status job' = CANCELLED
      ∧ error_message job' = Some "Job was cancelled"%string
      ∧ result job' = result job)
   ∨ (c = false ∧ pc ≠ Done ∧ pc ≠ AtStart
      ∧ status job' = (if decide (pc0 = AtStart) then RUNNING else status job)
      ∧ result job' = result job
      ∧ error_message job' = error_message job)
   ∨ (c = false ∧ pc = Done ∧ status job' = FAILED
      ∧ is_Some (error_message job') ∧ result job' = result job)
   ∨ (c = false ∧ pc = Done ∧ status job' = COMPLETED
      ∧ is_Some (result job')
      ∧ error_message job' = error_message job)) →
  job_fields_ok job'.
Proof.
  unfold job_fields_ok. intros (Hr & Hf & He & Hc) Hbefore Hkind.
  assert (status job ≠ COMPLETED) as Hnc.
  { destruct c; [congruence|]. rewrite Hbefore. by case_decide. }
  assert (¬ is_Some (result job)) as Hnr by by rewrite Hr.
  destruct Hkind as [(-> & _ & _ & ->)|[(-> & _ & _ & Hs & Hem & Hres)
    |[(-> & _ & _ & Hs & Hres & Hem)|[(-> & _ & Hs & Hem & Hres)
    |(-> & _ & Hs & Hres & Hem)]]]]; [done|..];
    rewrite ?Hem, ?Hres.
  - rewrite Hs. repeat split; try done; auto.
  - assert (status job' = RUNNING) as Hs'.
    { rewrite Hs, Hbefore. by case_decide. }
    assert (¬ is_Some (error_message job)) as Hne.
    { intros [?|?]%He; rewrite Hbefore in *; by case_decide. }
    rewrite Hs'. repeat split; done.
  - rewrite Hs. repeat split; try done; auto.
  - assert (¬ is_Some (error_message job)) as Hne.
    { intros [?|?]%He; rewrite Hbefore in *; by case_decide. }
    rewrite Hs. repeat split; done.
Qed.

Lemma task_step_unfold (h : nat) (input : StepInput) (now : Q)
    (q q' : ProcessingQueue) (log : list ProgressUpdate) :
  task_step h input now q = Some (q', log) →
  ∃ t job job' pc,
    loop_tasks q !! h = Some t
    ∧ dict_get (task_job t) (jobs q) = Some job
    ∧ coroutine_step t input now job = Some (job', log, pc)
    ∧ q' = {| jobs := dict_alter (λ _, job') (task_job t) (jobs q);
              max_concurrent_jobs := max_concurrent_jobs q;
              running_jobs := running_jobs q;
              loop_tasks :=
                <[h := {| task_job := task_job t; task_pc := pc;
                          must_cancel := must_cancel t |}]> (loop_tasks q) |}.
Proof.
  unfold task_step. intros H.
  destruct (loop_tasks q !! h) as [t|] eqn:Ht; [|done]. cbn in H.
  destruct (dict_get (task_job t) (jobs q)) as [job|] eqn:Hj; [|done].
  cbn in H.
  destruct (coroutine_step t input now job) as [[[job' log'] pc]|] eqn:Hc;
    [|done].
  cbn in H. injection H as <- <-. by exists t, job, job', pc.
Qed.

Lemma queue_inv_task_step (h : nat) (input : StepInput) (now : Q)
    (q q' : ProcessingQueue) (log : list ProgressUpdate) :
  queue_inv q → task_step h input now q = Some (q', log) → queue_inv q'.
Proof.
  intros Hinv (t & job & job' & pc & Ht & Hjob & Hstep & ->)%task_step_unfold.
  apply coroutine_step_spec in Hstep as (Halive & Hid & Hkind).
  pose proof (inv_tasks q Hinv h t Ht Halive) as (job0 & Hjob0 & Htask).
  assert (job0 = job) as -> by congruence. clear Hjob0.
  remember (task_job t) as k eqn:Hk.
  pose proof (inv_fields q Hinv k job Hjob) as Hfields.
  pose proof (lookup_lt_Some _ _ _ Ht) as Hlt.
  (* the status of the job before the step *)
  assert (if must_cancel t then status job = CANCELLED
          else status job = PENDING ∨ status job = RUNNING) as Hbefore.
  { destruct (must_cancel t); [done|]. destruct Htask as [_ ->].
    case_decide; auto. }
  assert (job_fields_ok job') as Hfields'.
  { apply (job_fields_ok_step (must_cancel t) (task_pc t) pc job job');
      [done| |done]. destruct (must_cancel t); [done|]. by destruct Htask. }
  inv_split.
  - rewrite dict_keys_alter. apply Hinv.
  - intros k' j'. rewrite dict_get_alter.
    destruct (decide (k' = k)) as [->|Hne]; [|apply Hinv].
    rewrite Hjob. cbn. intros [= <-]. rewrite Hid. by apply Hinv.
  - intros k' j'. rewrite dict_get_alter.
    destruct (decide (k' = k)) as [->|Hne]; [|apply Hinv].
    rewrite Hjob. cbn. by intros [= <-].
  - intros k' h' Hrun.
    destruct (inv_running_jobs q Hinv k' h' Hrun) as (t0 & Ht0 & Hk0).
    destruct (decide (h' = h)) as [->|Hne].
    + rewrite list_lookup_insert_eq by done. eexists. split; [done|]. cbn.
      congruence.
    + rewrite list_lookup_insert_ne by done. eauto.
  - intros h' t'. destruct (decide (h' = h)) as [->|Hne].
    + rewrite list_lookup_insert_eq by done. intros [= <-].
      unfold task_ok. cbn. intros Hpc. exists job'.
      rewrite dict_get_alter, decide_True, Hjob by done. split; [done|].
      destruct Hkind as [(_ & _ & -> & _)|[(_ & _ & -> & _)
        |[(Hc1 & _ & Hpc' & Hs & _)|[(_ & -> & _)|(_ & -> & _)]]]];
        try done.
      rewrite Hc1 in *. destruct Htask as [Hrun Hst]. split; [done|].
      rewrite decide_False by done. rewrite Hs.
      by destruct (decide (task_pc t = AtStart)).
    + rewrite list_lookup_insert_ne by done. intros Ht' Hpc.
      destruct (inv_tasks q Hinv h' t' Ht' Hpc) as (j0 & Hj0 & Hok).
      cbn [jobs running_jobs loop_tasks].
      destruct (decide (task_job t' = k)) as [Hsame|Hother].
      * rewrite Hsame in *. assert (j0 = job) as -> by congruence.
        exists job'. rewrite dict_get_alter, decide_True, Hjob by done.
        split; [done|].
        destruct (must_cancel t') eqn:Hc'.
        -- destruct (must_cancel t) eqn:Hc1.
           ++ destruct Hkind as [(_ & _ & _ & ->)|[(_ & _ & _ & Hs & _)
                |[(? & _)|[(? & _)|(? & _)]]]]; done.
           ++ destruct Hbefore; congruence.
        -- destruct Hok as [Hrun' Hst'].
           destruct (must_cancel t) eqn:Hc1.
           ++ rewrite Hbefore in Hst'. by case_decide.
           ++ destruct Htask as [Hrun _]. congruence.
      * exists j0. rewrite dict_get_alter, decide_False by done.
        split; [done|]. done.
  - intros k' j'. rewrite dict_get_alter.
    destruct (decide (k' = k)) as [->|Hne].
    + rewrite Hjob. cbn. intros [= <-] Hrunning.
      destruct Hkind as [(Hc1 & _ & _ & ->)|[(_ & _ & _ & Hs & _)
        |[(Hc1 & Hd & Hst & Hs & _)|[(_ & _ & Hs & _)|(_ & _ & Hs & _)]]]];
        try congruence.
      * rewrite Hc1 in Hbefore. congruence.
      * rewrite Hc1 in Htask. destruct Htask as [Hrun _].
        exists h. eexists. rewrite list_lookup_insert_eq by done.
        repeat split; done.
    + intros Hj' Hrunning.
      destruct (inv_status_running q Hinv k' j' Hj' Hrunning)
        as (h0 & t0 & Hrun0 & Ht0 & Hc0 & Hs0 & Hd0).
      exists h0, t0. repeat split; try done.
      rewrite list_lookup_insert_ne; [done|]. intros <-.
      destruct (inv_running_jobs q Hinv k' h Hrun0) as (t1 & Ht1 & Hk1).
      congruence.
Qed.

Lemma queue_inv_submit (k : string) (song : Z) (path : string)
    (intensity bpm : Z) (now : Q) (q : ProcessingQueue) :
  queue_inv q → dict_get k (jobs q) = None →
  queue_inv (submit_job k song path intensity bpm now q).2.
Proof.
  intros Hinv Hfresh. unfold submit_job. cbn [snd].
  rewrite dict_set_fresh by done.
  set (job := mkJob k song path intensity bpm now PENDING 0 "Initializing"
                    None None None None None).
  assert (∀ k' j', dict_get k' (jobs q ++ [(k, job)]) = Some j' →
            dict_get k' (jobs q) = Some j' ∨ (k' = k ∧ j' = job)) as Hget.
  { intros k' j'. rewrite dict_get_snoc.
    destruct (dict_get k' (jobs q)); [auto|].
    destruct (decide (k' = k)) as [->|]; [|done]. intros [= <-]. auto. }
  assert (∀ k' j', dict_get k' (jobs q) = Some j' →
            dict_get k' (jobs q ++ [(k, job)]) = Some j') as Hkeep.
  { intros k' j' E. by rewrite dict_get_snoc, E. }
  inv_split.
  - unfold dict_keys. rewrite fmap_app. apply NoDup_app.
    split; [apply Hinv|]. split; [|apply NoDup_singleton].
    intros x Hx ->%list_elem_of_singleton.
    by apply dict_get_None in Hfresh.
  - intros k' j' [?|[-> ->]]%Hget; [by apply Hinv | done].
  - intros k' j' [?|[-> ->]]%Hget; [by eapply inv_fields|].
    repeat split; try done; cbn; try (by intros [? ?]); auto.
  - apply Hinv.
  - intros h t Ht Hpc.
    destruct (inv_tasks q Hinv h t Ht Hpc) as (j0 & Hj0 & Hok).
    exists j0. split; [by apply Hkeep | done].
  - intros k' j' [?|[-> ->]]%Hget; [by eapply inv_status_running | done].
Qed.

(** [cancel_job], case by case. *)
Lemma cancel_job_unfold (k : string) (now : Q) (q : ProcessingQueue) :
  (cancel_job k now q = (false, q)
   ∧ ∀ job, dict_get k (jobs q) = Some job →
            status job ≠ PENDING ∧ status job ≠ RUNNING)
  ∨ ∃ job,
      dict_get k (jobs q) = Some job
      ∧ (status job = PENDING ∨ status job = RUNNING)
      ∧ cancel_job k now q
        = (true,
           {| jobs := dict_alter
                        (λ job, set_completed_at (Some now)
                                  (set_status CANCELLED job)) k (jobs q);
              max_concurrent_jobs := max_concurrent_jobs q;
              running_jobs := delete k (running_jobs q);
              loop_tasks :=
                match running_jobs q !! k with
                | Some h => alter task_cancel h (loop_tasks q)
                | None => loop_tasks q
                end |}).
Proof.
  unfold cancel_job. destruct (dict_get k (jobs q)) as [job|] eqn:Hjob.
  - destruct (status job) eqn:Hs.
    3,4,5: left; split; [done|]; intros ? [= <-]; by rewrite Hs.
    all: right; exists job; split; [done|]; split; [auto|].
    all: replace (bool_decide (_ ∈ _)) with false by done.
    all: destruct (running_jobs q !! k) eqn:Hrun; [done|];
      by rewrite delete_id.
  - left. split; [done|]. done.
Qed.

Lemma queue_inv_cancel (k : string) (now : Q) (q : ProcessingQueue) :
  queue_inv q → queue_inv (cancel_job k now q).2.
Proof.
  intros Hinv.
  destruct (cancel_job_unfold k now q) as [[-> _]|(job & Hjob & Hlive & ->)];
    [done|]. cbn [snd].
  set (job' := set_completed_at (Some now) (set_status CANCELLED job)).
  pose proof (inv_fields q Hinv k job Hjob) as Hfields.
  destruct (job_fields_live job Hfields Hlive) as [Hnr Hne].
  set (tasks' := match running_jobs q !! k with
                 | Some h => alter task_cancel h (loop_tasks q)
                 | None => loop_tasks q
                 end).
  assert (∀ h', tasks' !! h'
                = if decide (running_jobs q !! k = Some h')
                  then task_cancel <$> loop_tasks q !! h'
                  else loop_tasks q !! h') as Htasks.
  { intros h'. unfold tasks'. destruct (running_jobs q !! k) as [h|] eqn:Hrun.
    - destruct (decide (h = h')) as [->|Hne'].
      + by rewrite list_lookup_alter_eq, decide_True.
      + rewrite list_lookup_alter_ne by done. rewrite decide_False; congruence.
    - by rewrite decide_False. }
  clearbody tasks'.
  (* a task of another job is not the one registered for [k] *)
  assert (∀ k' h', k' ≠ k → running_jobs q !! k' = Some h' →
                   running_jobs q !! k ≠ Some h') as Hother.
  { intros k' h' Hne' Hrun' Hrun.
    destruct (inv_running_jobs q Hinv k' h' Hrun') as (t1 & Ht1 & Hk1).
    destruct (inv_running_jobs q Hinv k h' Hrun) as (t2 & Ht2 & Hk2).
    congruence. }
  inv_split.
  - rewrite dict_keys_alter. apply Hinv.
  - intros k' j'. rewrite dict_get_alter.
    destruct (decide (k' = k)) as [->|]; [|apply Hinv].
    rewrite Hjob. intros [= <-]. cbn. by apply Hinv.
  - intros k' j'. rewrite dict_get_alter.
    destruct (decide (k' = k)) as [->|]; [|apply Hinv].
    rewrite Hjob. intros [= <-]. unfold job_fields_ok. cbn.
    repeat split; try done.
    left. destruct (error_message job); [|done]. by destruct Hne.
  - intros k' h' [Hne' Hrun']%lookup_delete_Some.
    destruct (inv_running_jobs q Hinv k' h' Hrun') as (t1 & Ht1 & Hk1).
    exists t1. rewrite Htasks, decide_False by eauto. done.
  - intros h' t'. rewrite Htasks.
    destruct (decide (running_jobs q !! k = Some h')) as [Hrun|Hnrun].
    + destruct (loop_tasks q !! h') as [t0|] eqn:Ht0; [|done].
      intros [= <-]. unfold task_ok, task_cancel.
      destruct (inv_running_jobs q Hinv k h' Hrun) as (t1 & Ht1 & Hk1).
      assert (t1 = t0) as -> by congruence.
      destruct (decide (task_pc t0 = Done)); [done|]. cbn. intros _.
      exists job'. rewrite Hk1, dict_get_alter, decide_True, Hjob by done.
      done.
    + intros Ht' Hpc.
      destruct (inv_tasks q Hinv h' t' Ht' Hpc) as (j0 & Hj0 & Hok).
      assert (task_job t' ≠ k) as Hne'.
      { intros E. rewrite E in *. assert (j0 = job) as -> by congruence.
        destruct (must_cancel t'); [destruct Hlive; congruence|].
        by destruct Hok. }
      exists j0. cbn [jobs running_jobs loop_tasks].
      rewrite dict_get_alter, decide_False by done.
      split; [done|]. destruct (must_cancel t'); [done|].
      by rewrite lookup_delete_ne.
  - intros k' j'. rewrite dict_get_alter.
    destruct (decide (k' = k)) as [->|Hne'].
    + rewrite Hjob. by intros [= <-].
    + intros Hj' Hrunning.
      destruct (inv_status_running q Hinv k' j' Hj' Hrunning)
        as (h0 & t0 & Hrun0 & Ht0 & Hrest).
      exists h0, t0. rewrite lookup_delete_ne by done.
      rewrite Htasks, decide_False by eauto. done.
Qed.

(** *** The worker loop *)

Lemma start_job_jobs (q : ProcessingQueue) (job : ProcessingJob) :
  jobs (start_job q job) = jobs q.
Proof. done. Qed.

Lemma start_jobs_jobs (l : list ProcessingJob) (q : ProcessingQueue) :
  jobs (foldl start_job q l) = jobs q.
Proof. revert q. induction l as [|job l IH]; intros q; [done|]. cbn. by rewrite IH. Qed.

Lemma start_jobs_max (l : list ProcessingJob) (q : ProcessingQueue) :
  max_concurrent_jobs (foldl start_job q l) = max_concurrent_jobs q.
Proof. revert q. induction l as [|job l IH]; intros q; [done|]. cbn. by rewrite IH. Qed.

Lemma del_runnings_jobs (ids : list string) (q : ProcessingQueue) :
  jobs (foldl del_running q ids) = jobs q.
Proof. revert q. induction ids as [|k l IH]; intros q; [done|]. cbn. by rewrite IH. Qed.

Lemma del_runnings_max (ids : list string) (q : ProcessingQueue) :
  max_concurrent_jobs (foldl del_running q ids) = max_concurrent_jobs q.
Proof. revert q. induction ids as [|k l IH]; intros q; [done|]. cbn. by rewrite IH. Qed.

Lemma del_runnings_tasks (ids : list string) (q : ProcessingQueue) :
  loop_tasks (foldl del_running q ids) = loop_tasks q.
Proof. revert q. induction ids as [|k l IH]; intros q; [done|]. cbn. by rewrite IH. Qed.

Lemma queue_inv_start_job (q : ProcessingQueue) (job : ProcessingJob) :
  queue_inv q →
  dict_get (job_id job) (jobs q) = Some job → status job = PENDING →
  (∀ h t, loop_tasks q !! h = Some t → task_pc t = AtStart →
          task_job t ≠ job_id job) →
  queue_inv (start_job q job).
Proof.
  intros Hinv Hjob Hpending Hnew. unfold start_job. inv_split.
  - apply Hinv.
  - apply Hinv.
  - apply Hinv.
  - intros k h. rewrite lookup_insert.
    destruct (decide (job_id job = k)) as [<-|Hne].
    + intros [= <-]. eexists. by rewrite list_lookup_middle.
    + intros Hrun.
      destruct (inv_running_jobs q Hinv k h Hrun) as (t & Ht & Hk).
      exists t. by rewrite lookup_app_l by by eapply lookup_lt_Some.
  - intros h t Ht. unfold task_ok. cbn [jobs running_jobs loop_tasks].
    apply lookup_snoc_Some in Ht as [[Hlt Ht]|[<- <-]].
    + intros Hpc.
      destruct (inv_tasks q Hinv h t Ht Hpc) as (j0 & Hj0 & Hok).
      exists j0. split; [done|]. destruct (must_cancel t); [done|].
      destruct Hok as [Hrun Hst]. split; [|done].
      rewrite lookup_insert_ne; [done|]. intros E.
      rewrite <- E in Hj0. assert (j0 = job) as -> by congruence.
      rewrite Hpending in Hst.
      destruct (decide (task_pc t = AtStart)); [|done].
      by eapply Hnew.
    + cbn. intros _. exists job. by rewrite lookup_insert_eq.
  - intros k j Hj Hrunning.
    destruct (inv_status_running q Hinv k j Hj Hrunning)
      as (h0 & t0 & Hrun0 & Ht0 & Hrest).
    exists h0, t0. rewrite lookup_insert_ne.
    + by rewrite lookup_app_l by by eapply lookup_lt_Some.
    + intros E. rewrite <- E in Hj. congruence.
Qed.

Lemma queue_inv_start_jobs (l : list ProcessingJob) (q : ProcessingQueue) :
  queue_inv q →
  Forall (λ job, dict_get (job_id job) (jobs q) = Some job
                 ∧ status job = PENDING) l →
  NoDup (job_id <$> l) →
  (∀ h t, loop_tasks q !! h = Some t → task_pc t = AtStart →
          task_job t ∉ job_id <$> l) →
  queue_inv (foldl start_job q l).
Proof.
  revert q. induction l as [|job l IH]; intros q Hinv Hall Hnd Hnew; [done|].
  cbn [foldl]. rewrite fmap_cons in *.
  apply Forall_cons in Hall as [[Hjob Hpending] Hall].
  apply NoDup_cons in Hnd as [Hnotin Hnd].
  apply IH; try done.
  - apply queue_inv_start_job; try done.
    intros h t Ht Hpc E. apply (Hnew h t Ht Hpc). rewrite E. left.
  - intros h t Ht Hpc Hin. cbn in Ht.
    apply lookup_snoc_Some in Ht as [[Hlt Ht]|[_ <-]].
    + apply (Hnew h t Ht Hpc). by right.
    + done.
Qed.

Lemma queue_inv_del_running (q : ProcessingQueue) (k : string) :
  queue_inv q →
  (∀ h, running_jobs q !! k = Some h → task_done q h = true) →
  queue_inv (del_running q k).
Proof.
  intros Hinv Hdone. unfold del_running.
  assert (∀ h t, running_jobs q !! k = Some h → loop_tasks q !! h = Some t →
                 task_pc t = Done) as Hdone'.
  { intros h t Hrun Ht. specialize (Hdone h Hrun). unfold task_done in Hdone.
    rewrite Ht in Hdone. by apply bool_decide_eq_true in Hdone. }
  inv_split; try apply Hinv.
  - intros k' h [_ Hrun]%lookup_delete_Some. by apply Hinv.
  - intros h t Ht Hpc.
    destruct (inv_tasks q Hinv h t Ht Hpc) as (j0 & Hj0 & Hok).
    exists j0. split; [done|]. cbn [jobs running_jobs loop_tasks].
    destruct (must_cancel t); [done|]. destruct Hok as [Hrun Hst].
    split; [|done]. rewrite lookup_delete_ne; [done|].
    intros E. rewrite <- E in Hrun. apply Hpc. by eapply Hdone'.
  - intros k' j Hj Hrunning.
    destruct (inv_status_running q Hinv k' j Hj Hrunning)
      as (h0 & t0 & Hrun0 & Ht0 & Hc0 & Hs0 & Hd0).
    exists h0, t0. rewrite lookup_delete_ne; [done|].
    intros <-. apply Hd0. by eapply Hdone'.
Qed.

Lemma queue_inv_del_runnings (ids : list string) (q : ProcessingQueue) :
  queue_inv q →
  (∀ k h, k ∈ ids → running_jobs q !! k = Some h → task_done q h = true) →
  queue_inv (foldl del_running q ids).
Proof.
  revert q. induction ids as [|k ids IH]; intros q Hinv Hdone; [done|].
  cbn [foldl]. apply IH.
  - apply queue_inv_del_running; [done|]. intros h. apply Hdone. left.
  - intros k' h Hin Hrun. cbn in Hrun.
    apply lookup_delete_Some in Hrun as [_ Hrun].
    apply (Hdone k' h); [by right | done].
Qed.

Lemma py_slice_to_sublist {A} (xs : list A) (n : Z) :
  py_slice_to xs n `sublist_of` xs.
Proof. unfold py_slice_to. case_match; apply sublist_take. Qed.

Lemma job_ids_keys (d : pydict ProcessingJob) :
  (∀ k job, (k, job) ∈ d → job_id job = k) →
  job_id <$> dict_values d = dict_keys d.
Proof.
  unfold dict_values, dict_keys.
  induction d as [|[k job] d IH]; intros Hids; [done|]. cbn.
  rewrite (Hids k job) by left. f_equal. apply IH.
  intros k' job' Hin. apply Hids. by right.
Qed.

Lemma pending_slice_facts (q : ProcessingQueue) (n : Z) :
  queue_inv q →
  let l := py_slice_to (filter (λ job, status job = PENDING)
                               (dict_values (jobs q))) n in
  Forall (λ job, dict_get (job_id job) (jobs q) = Some job
                 ∧ status job = PENDING) l
  ∧ NoDup (job_id <$> l).
Proof.
  intros Hinv l.
  assert (l `sublist_of` dict_values (jobs q)) as Hsub.
  { etrans; [apply py_slice_to_sublist | apply sublist_filter]. }
  assert (∀ k job, (k, job) ∈ jobs q → job_id job = k) as Hids.
  { intros k job Hin. eapply inv_ids; [done|].
    apply dict_elem_get; [apply Hinv | done]. }
  split.
  - apply Forall_forall. intros job Hin.
    assert (job ∈ filter (λ job, status job = PENDING) (dict_values (jobs q)))
      as [Hp Hv]%list_elem_of_filter
      by (eapply sublist_subseteq; [apply py_slice_to_sublist | done]).
    split; [|done].
    apply dict_values_elem in Hv as [k Hk].
    rewrite (Hids k job Hk). apply dict_elem_get; [apply Hinv | done].
  - eapply sublist_NoDup; [|by apply fmap_sublist].
    rewrite job_ids_keys by done. apply Hinv.
Qed.

Lemma queue_inv_worker_iteration (q : ProcessingQueue) :
  queue_inv q → Forall (λ t, task_pc t ≠ AtStart) (loop_tasks q) →
  queue_inv (worker_iteration q).
Proof.
  intros Hinv Hstarted. unfold worker_iteration.
  set (l := py_slice_to _ _).
  destruct (pending_slice_facts q
              (max_concurrent_jobs q - Z.of_nat (size (running_jobs q))) Hinv)
    as [Hall Hnd].
  fold l in Hall, Hnd.
  set (q1 := foldl start_job q l).
  assert (queue_inv q1) as Hinv1.
  { apply queue_inv_start_jobs; try done.
    intros h t Ht Hpc. rewrite Forall_forall in Hstarted.
    destruct (Hstarted t); [|done]. by eapply list_elem_of_lookup_2. }
  apply queue_inv_del_runnings; [done|].
  intros k h [[k' h'] [-> [Hdone Hin]%list_elem_of_filter]]%list_elem_of_fmap Hrun.
  apply elem_of_map_to_list in Hin. cbn in *. congruence.
Qed.

Lemma queue_inv_step (ev : Event) (q q' : ProcessingQueue) :
  queue_inv q → step ev q = Some q' → queue_inv q'.
Proof.
  intros Hinv. destruct ev as [k song path i b now|k now| |h input now]; cbn.
  - destruct (dict_get k (jobs q)) eqn:E; [done|]. intros [= <-].
    by apply queue_inv_submit.
  - intros [= <-]. by apply queue_inv_cancel.
  - case_bool_decide; [|done]. intros [= <-].
    by apply queue_inv_worker_iteration.
  - destruct (task_step h input now q) as [[q1 log]|] eqn:E; [|done].
    cbn. intros [= <-]. by eapply queue_inv_task_step.
Qed.

Lemma queue_inv_run (evs : list Event) (q q' : ProcessingQueue) :
  queue_inv q → run evs q = Some q' → queue_inv q'.
Proof.
  revert q. induction evs as [|ev evs IH]; intros q Hinv; cbn.
  - by intros [= <-].
  - destruct (step ev q) as [q1|] eqn:E; [|done]. cbn.
    apply IH. by eapply queue_inv_step.
Qed.

Lemma queue_inv_reachable (m : Z) (q : ProcessingQueue) :
  reachable_from (init m) q → queue_inv q.
Proof. intros [evs Hrun]. eapply queue_inv_run; [apply queue_inv_init | done]. Qed.

(** ** The admission bound *)

Lemma start_jobs_size (l : list ProcessingJob) (q : ProcessingQueue) :
  (size (running_jobs (foldl start_job q l))
   ≤ size (running_jobs q) + length l)%nat.
Proof.
  revert q. induction l as [|job l IH]; intros q; cbn [foldl length]; [lia|].
  etrans; [apply IH|]. cbn [start_job running_jobs].
  rewrite map_size_insert. destruct (running_jobs q !! job_id job); cbn; lia.
Qed.

Lemma del_runnings_size (ids : list string) (q : ProcessingQueue) :
  (size (running_jobs (foldl del_running q ids)) ≤ size (running_jobs q))%nat.
Proof.
  revert q. induction ids as [|k ids IH]; intros q; cbn [foldl]; [lia|].
  etrans; [apply IH|]. cbn [del_running running_jobs].
  rewrite map_size_delete. destruct (running_jobs q !! k); cbn; lia.
Qed.

Lemma py_slice_to_length {A} (xs : list A) (n : Z) :
  0 <= n → (length (py_slice_to xs n) ≤ Z.to_nat n)%nat.
Proof.
  intros Hn. unfold py_slice_to.
  destruct (0 <=? n) eqn:E; [|lia]. rewrite length_take. lia.
Qed.

Lemma running_bound_worker_iteration (q : ProcessingQueue) :
  running_bound q → running_bound (worker_iteration q).
Proof.
  unfold running_bound, worker_iteration. intros Hb.
  rewrite del_runnings_max, start_jobs_max.
  set (n := max_concurrent_jobs q - Z.of_nat (size (running_jobs q))).
  set (l := py_slice_to _ n).
  pose proof (py_slice_to_length
                (filter (λ job, status job = PENDING) (dict_values (jobs q)))
                n ltac:(lia)) as Hlen.
  fold l in Hlen.
  pose proof (start_jobs_size l q) as H1.
  pose proof (del_runnings_size
    (filter (λ item, task_done (foldl start_job q l) item.2 = true)
            (map_to_list (running_jobs (foldl start_job q l)))).*1
    (foldl start_job q l)) as H2.
  lia.
Qed.

Lemma running_bound_step (ev : Event) (q q' : ProcessingQueue) :
  running_bound q → step ev q = Some q' → running_bound q'.
Proof.
  intros Hb. destruct ev as [k song path i b now|k now| |h input now]; cbn.
  - destruct (dict_get k (jobs q)); [done|]. by intros [= <-].
  - intros [= <-].
    destruct (cancel_job_unfold k now q) as [[-> _]|(job & _ & _ & ->)];
      [done|].
    unfold running_bound in *. cbn. rewrite map_size_delete.
    destruct (running_jobs q !! k); cbn; lia.
  - case_bool_decide; [|done]. intros [= <-].
    by apply running_bound_worker_iteration.
  - destruct (task_step h input now q) as [[q1 log]|] eqn:E; [|done].
    cbn. intros [= <-].
    apply task_step_unfold in E as (t & job & job' & pc & _ & _ & _ & ->).
    done.
Qed.

Lemma running_bound_run (evs : list Event) (q q' : ProcessingQueue) :
  running_bound q → run evs q = Some q' → running_bound q'.
Proof.
  revert q. induction evs as [|ev evs IH]; intros q Hb; cbn.
  - by intros [= <-].
  - destruct (step ev q) as [q1|] eqn:E; [|done]. cbn.
    apply IH. by eapply running_bound_step.
Qed.

(** Every job with status [RUNNING] holds an entry of [running_jobs]. *)
Lemma count_running_le_size (q : ProcessingQueue) :
  queue_inv q → (count_status RUNNING q ≤ size (running_jobs q))%nat.
Proof.
  intros Hinv. rewrite count_status_length.
  set (l := filter (λ job, status job = RUNNING) (dict_values (jobs q))).
  assert (∀ k job, (k, job) ∈ jobs q → job_id job = k) as Hids.
  { intros k job Hin. eapply inv_ids; [done|].
    apply dict_elem_get; [apply Hinv | done]. }
  assert (NoDup (job_id <$> l)) as Hnd.
  { eapply sublist_NoDup; [|apply fmap_sublist, sublist_filter].
    rewrite job_ids_keys by done. apply Hinv. }
  rewrite <- (length_fmap job_id l).
  rewrite <- (size_list_to_set (C := gset string)) by done.
  rewrite <- (size_dom (D := gset string)).
  apply subseteq_size. intros k [job [-> Hin]]%elem_of_list_to_set%list_elem_of_fmap.
  apply list_elem_of_filter in Hin as [Hrunning Hv].
  apply dict_values_elem in Hv as [k Hk].
  rewrite (Hids k job Hk).
  apply dict_elem_get in Hk; [|apply Hinv].
  destruct (inv_status_running q Hinv k job Hk Hrunning) as (h & _ & Hrun & _).
  by apply elem_of_dom.
Qed.

Lemma step_max_concurrent (ev : Event) (q q' : ProcessingQueue) :
  step ev q = Some q' → max_concurrent_jobs q' = max_concurrent_jobs q.
Proof.
  destruct ev as [k song path i b now|k now| |h input now]; cbn.
  - destruct (dict_get k (jobs q)); [done|]. by intros [= <-].
  - intros [= <-].
    by destruct (cancel_job_unfold k now q) as [[-> _]|(job & _ & _ & ->)].
  - case_bool_decide; [|done]. intros [= <-]. unfold worker_iteration.
    by rewrite del_runnings_max, start_jobs_max.
  - destruct (task_step h input now q) as [[q2 log]|] eqn:E; [|done].
    cbn. intros [= <-].
    by apply task_step_unfold in E as (t & job & job' & pc & _ & _ & _ & ->).
Qed.

Lemma run_max_concurrent (evs : list Event) (q q' : ProcessingQueue) :
  run evs q = Some q' → max_concurrent_jobs q' = max_concurrent_jobs q.
Proof.
  revert q. induction evs as [|ev evs IH]; intros q; cbn.
  - by intros [= <-].
  - destruct (step ev q) as [q1|] eqn:E; [|done]. cbn.
    intros ->%IH. by eapply step_max_concurrent.
Qed.

Lemma running_count_bounded (m : Z) (q : ProcessingQueue) :
  0 <= m → reachable_from (init m) q →
  Z.of_nat (count_status RUNNING q) <= m.
Proof.
  intros Hm [evs Hrun].
  assert (queue_inv q) as Hinv
    by (eapply queue_inv_run; [apply queue_inv_init | done]).
  assert (running_bound q) as Hb.
  { eapply running_bound_run; [|done]. unfold running_bound. cbn.
    rewrite map_size_empty. lia. }
  pose proof (run_max_concurrent _ _ _ Hrun) as Hmax. cbn in Hmax.
  pose proof (count_running_le_size q Hinv). unfold running_bound in Hb. lia.
Qed.


(** ** The lifecycle of a job *)

Lemma status_may_become_refl (s : JobStatus) : status_may_become s s.
Proof. by left. Qed.

Lemma status_may_become_trans (s1 s2 s3 : JobStatus) :
  status_may_become s1 s2 → status_may_become s2 s3 → status_may_become s1 s3.
Proof.
  unfold status_may_become.
  intros [->|[->|[-> H2]]] [->|[->|[-> H3]]]; auto; try done.
Qed.

Lemma step_status (ev : Event) (q q' : ProcessingQueue) (k : string)
    (job : ProcessingJob) :
  queue_inv q → step ev q = Some q' → dict_get k (jobs q) = Some job →
  ∃ job', dict_get k (jobs q') = Some job'
          ∧ status_may_become (status job) (status job').
Proof.
  intros Hinv Hstep Hjob.
  destruct ev as [k0 song path i b now|k0 now| |h input now]; cbn in Hstep.
  - destruct (dict_get k0 (jobs q)) eqn:Hfresh; [done|]. injection Hstep as <-.
    exists job. split; [|apply status_may_become_refl].
    unfold submit_job. cbn. rewrite dict_set_fresh by done.
    by rewrite dict_get_snoc, Hjob.
  - injection Hstep as <-.
    destruct (cancel_job_unfold k0 now q) as [[-> _]|(job0 & Hj0 & Hlive & ->)].
    + exists job. split; [done | apply status_may_become_refl].
    + cbn. rewrite dict_get_alter. destruct (decide (k = k0)) as [->|Hne].
      * rewrite Hj0. eexists. split; [done|]. cbn.
        assert (job0 = job) as -> by congruence.
        unfold status_may_become. destruct Hlive as [->| ->]; auto.
      * exists job. split; [done | apply status_may_become_refl].
  - case_bool_decide; [|done]. injection Hstep as <-.
    exists job. split; [|apply status_may_become_refl].
    unfold worker_iteration. by rewrite del_runnings_jobs, start_jobs_jobs.
  - destruct (task_step h input now q) as [[q1 log]|] eqn:E; [|done].
    cbn in Hstep. injection Hstep as <-.
    apply task_step_unfold in E
      as (t & job0 & job' & pc & Ht & Hj0 & Hco & ->).
    cbn. rewrite dict_get_alter. destruct (decide (k = task_job t)) as [->|Hne].
    + rewrite Hj0. cbn. exists job'. split; [done|].
      assert (job0 = job) as -> by congruence.
      apply coroutine_step_spec in Hco as (Halive & _ & Hkind).
      destruct (inv_tasks q Hinv h t Ht Halive) as (j1 & Hj1 & Hok).
      assert (j1 = job) as -> by congruence.
      unfold status_may_become.
      destruct Hkind as [(_ & _ & _ & ->)|[(Hc & _ & _ & Hs & _)
        |[(Hc & _ & _ & Hs & _)|[(Hc & _ & Hs & _)|(Hc & _ & Hs & _)]]]];
        [by left|..]; rewrite Hc in Hok; rewrite Hs.
      * left. done.
      * destruct Hok as [_ Hst]. rewrite Hst.
        destruct (decide (task_pc t = AtStart)); auto.
      * destruct Hok as [_ Hst]. rewrite Hst.
        destruct (decide (task_pc t = AtStart)); auto.
      * destruct Hok as [_ Hst]. rewrite Hst.
        destruct (decide (task_pc t = AtStart)); auto.
    + exists job. split; [done | apply status_may_become_refl].
Qed.

Lemma run_status (evs : list Event) (q q' : ProcessingQueue) (k : string)
    (job : ProcessingJob) :
  queue_inv q → run evs q = Some q' → dict_get k (jobs q) = Some job →
  ∃ job', dict_get k (jobs q') = Some job'
          ∧ status_may_become (status job) (status job').
Proof.
  revert q job. induction evs as [|ev evs IH]; intros q job Hinv; cbn.
  - intros [= <-] Hjob. exists job. split; [done|apply status_may_become_refl].
  - destruct (step ev q) as [q1|] eqn:E; [|done]. cbn. intros Hrun Hjob.
    destruct (step_status ev q q1 k job Hinv E Hjob) as (job1 & Hj1 & Hs1).
    destruct (IH q1 job1 (queue_inv_step _ _ _ Hinv E) Hrun Hj1)
      as (job' & Hj' & Hs').
    exists job'. split; [done|]. by eapply status_may_become_trans.
Qed.

Lemma run_app (evs1 evs2 : list Event) (q : ProcessingQueue) :
  run (evs1 ++ evs2) q = q1 ← run evs1 q; run evs2 q1.
Proof.
  revert q. induction evs1 as [|ev evs1 IH]; intros q; cbn; [done|].
  destruct (step ev q); cbn; [apply IH | done].
Qed.

(** *** The message "Job was cancelled" *)

Lemma worker_iteration_jobs (q : ProcessingQueue) :
  jobs (worker_iteration q) = jobs q.
Proof. unfold worker_iteration. by rewrite del_runnings_jobs, start_jobs_jobs. Qed.

Lemma start_jobs_tasks (l : list ProcessingJob) (q : ProcessingQueue) :
  loop_tasks (foldl start_job q l)
  = loop_tasks q ++ ((λ job, mkTask (job_id job) AtStart false) <$> l).
Proof.
  revert q. induction l as [|job l IH]; intros q; cbn [foldl].
  - by rewrite app_nil_r.
  - rewrite IH. cbn. by rewrite <- app_assoc.
Qed.

Lemma coroutine_step_started (t : Task) (input : StepInput) (now : Q)
    (job job' : ProcessingJob) (log : list ProgressUpdate) (pc : ProgramPoint) :
  coroutine_step t input now job = Some (job', log, pc) →
  (is_Some (started_at job) → is_Some (started_at job'))
  ∧ (task_pc t = AtStart → pc ≠ Done → is_Some (started_at job')).
Proof.
  unfold coroutine_step, segment_start, segment_sleep1, segment_sleep2,
    segment_executor.
  destruct t as [k [] []]; cbn; try done;
    try (intros [= <- <- <-]; by split).
  all: destruct input as [|d|[r|err]|e]; cbn; try done.
  all: intros [= <- <- <-]; cbn; split; try done; eauto.
Qed.

Lemma interrupt_inv_init (m : Z) : interrupt_inv (init m).
Proof. split; cbn; [done|]. intros h t job Ht. by rewrite lookup_nil in Ht. Qed.

Lemma worker_iteration_old_tasks (q : ProcessingQueue) (h : nat) (t : Task) :
  loop_tasks (worker_iteration q) !! h = Some t →
  loop_tasks q !! h = Some t ∨ task_pc t = AtStart.
Proof.
  unfold worker_iteration. rewrite del_runnings_tasks, start_jobs_tasks.
  intros [?|[_ Hnew]]%lookup_app_Some; [by left|]. right.
  rewrite list_lookup_fmap in Hnew.
  destruct (_ !! _) as [job|]; [|done]. by injection Hnew as <-.
Qed.

Lemma worker_iteration_keeps_tasks (q : ProcessingQueue) (h : nat) (t : Task) :
  loop_tasks q !! h = Some t → loop_tasks (worker_iteration q) !! h = Some t.
Proof.
  intros Ht. unfold worker_iteration.
  rewrite del_runnings_tasks, start_jobs_tasks.
  by apply lookup_app_l_Some.
Qed.

Lemma interrupt_inv_step (ev : Event) (q q' : ProcessingQueue) :
  queue_inv q → interrupt_inv q → step ev q = Some q' → interrupt_inv q'.
Proof.
  intros Hinv [Hmsg Hstarted] Hstep.
  destruct ev as [k0 song path i b now|k0 now| |h0 input now]; cbn in Hstep.
  - (* submit_job *)
    destruct (dict_get k0 (jobs q)) eqn:Hfresh; [done|]. injection Hstep as <-.
    unfold submit_job. cbn [snd]. rewrite dict_set_fresh by done.
    split; cbn [jobs loop_tasks].
    + intros k job. rewrite dict_get_snoc.
      destruct (dict_get k (jobs q)) as [job0|] eqn:Hk.
      * intros [= <-] Hs He. destruct (Hmsg k job0 Hk Hs He) as [? Hw].
        split; [done|]. exact Hw.
      * destruct (decide (k = k0)); [|done]. by intros [= <-].
    + intros h t job Ht Hd Hs. rewrite dict_get_snoc.
      destruct (dict_get (task_job t) (jobs q)) as [job0|] eqn:Hk.
      * intros [= <-]. by eapply Hstarted.
      * destruct (inv_tasks q Hinv h t Ht Hd) as (j & Hj & _). congruence.
  - (* cancel_job *)
    injection Hstep as <-.
    destruct (cancel_job_unfold k0 now q) as [[-> _]|(job0 & Hj0 & Hlive & ->)];
      [by split|].
    cbn [snd].
    assert (∀ h t', match running_jobs q !! k0 with
                     | Some h0 => alter task_cancel h0 (loop_tasks q)
                     | None => loop_tasks q
                     end !! h = Some t' →
                    ∃ t, loop_tasks q !! h = Some t
                         ∧ task_job t' = task_job t ∧ task_pc t' = task_pc t)
      as Hold.
    { intros h t'. destruct (running_jobs q !! k0) as [h0|]; [|by eauto].
      destruct (decide (h = h0)) as [->|Hne].
      - rewrite list_lookup_alter_eq.
        destruct (loop_tasks q !! h0) as [t|]; [|done]. cbn. intros [= <-].
        exists t. split; [done|]. unfold task_cancel. by case_decide.
      - rewrite list_lookup_alter_ne by done. eauto. }
    assert (∀ k, worker_interrupted q k →
                 worker_interrupted
                   {| jobs := dict_alter
                                (λ job, set_completed_at (Some now)
                                          (set_status CANCELLED job))
                                k0 (jobs q);
                      max_concurrent_jobs := max_concurrent_jobs q;
                      running_jobs := delete k0 (running_jobs q);
                      loop_tasks :=
                        match running_jobs q !! k0 with
                        | Some h0 => alter task_cancel h0 (loop_tasks q)
                        | None => loop_tasks q
                        end |} k) as Hkeep.
    { intros k (h & t & Ht & Hk & Hc & Hd). exists h, t. cbn [loop_tasks].
      split; [|done]. destruct (running_jobs q !! k0) as [h0|]; [|done].
      destruct (decide (h = h0)) as [->|Hne].
      - rewrite list_lookup_alter_eq, Ht. cbn. f_equal.
        unfold task_cancel. by rewrite decide_True.
      - by rewrite list_lookup_alter_ne. }
    split; cbn [jobs loop_tasks].
    + intros k job. rewrite dict_get_alter.
      destruct (decide (k = k0)) as [->|Hne].
      * rewrite Hj0. intros [= <-] _ He. cbn in He. exfalso.
        destruct (inv_fields q Hinv k0 job0 Hj0) as (_ & _ & Herr & _).
        destruct (Herr He) as [E|E]; rewrite E in Hlive;
          by destruct Hlive.
      * intros Hk Hs He. destruct (Hmsg k job Hk Hs He) as [? Hw].
        split; [done|]. by apply Hkeep.
    + intros h t' job Ht' Hd Hs.
      destruct (Hold h t' Ht') as (t & Ht & Hjob & Hpc).
      rewrite Hjob, dict_get_alter. rewrite Hpc in Hd, Hs.
      destruct (decide (task_job t = k0)) as [E|Hne].
      * rewrite Hj0. intros [= <-]. cbn.
        eapply (Hstarted h t); try done. by rewrite E.
      * intros Hk. by eapply Hstarted.
  - (* one iteration of the worker *)
    case_bool_decide; [|done]. injection Hstep as <-.
    split; rewrite worker_iteration_jobs.
    + intros k job Hk Hs He.
      destruct (Hmsg k job Hk Hs He) as [? (h & t & Ht & Hrest)].
      split; [done|]. exists h, t. split; [|done].
      by apply worker_iteration_keeps_tasks.
    + intros h t job Ht Hd Hs Hk.
      apply worker_iteration_old_tasks in Ht as [Ht|Ht]; [|done].
      by eapply Hstarted.
  - (* a step of a task *)
    destruct (task_step h0 input now q) as [[q1 log]|] eqn:E; [|done].
    cbn in Hstep. injection Hstep as <-.
    apply task_step_unfold in E
      as (t0 & job0 & job' & pc & Ht0 & Hj0 & Hco & ->).
    pose proof (coroutine_step_started _ _ _ _ _ _ _ Hco) as [Hkeep Hnew].
    pose proof (coroutine_step_spec _ _ _ _ _ _ _ Hco) as (Hpc0 & _ & Hcases).
    assert (h0 < length (loop_tasks q))%nat as Hlen
      by by eapply lookup_lt_Some.
    assert (∀ k, worker_interrupted q k →
                 worker_interrupted
                   {| jobs := dict_alter (λ _, job') (task_job t0) (jobs q);
                      max_concurrent_jobs := max_concurrent_jobs q;
                      running_jobs := running_jobs q;
                      loop_tasks :=
                        <[h0 := {| task_job := task_job t0; task_pc := pc;
                                   must_cancel := must_cancel t0 |}]>
                          (loop_tasks q) |} k) as Hold.
    { intros k (h & t & Ht & Hk & Hc & Hd). exists h, t. cbn [loop_tasks].
      split; [|done]. rewrite list_lookup_insert_ne; [done|].
      intros <-. congruence. }
    split; cbn [jobs loop_tasks].
    + intros k job. rewrite dict_get_alter.
      destruct (decide (k = task_job t0)) as [->|Hne].
      * rewrite Hj0. intros [= <-] Hs He.
        destruct Hcases
          as [(_ & _ & _ & ->)
             |[(Hc & Hstart & -> & _)
              |[(_ & _ & _ & Hst & _ & Herr)
               |[(_ & _ & Hst & _)|(_ & _ & Hst & _)]]]];
          try congruence.
        -- destruct (Hmsg _ _ Hj0 Hs He) as [? Hw].
           split; [done|]. by apply Hold.
        -- split.
           ++ apply Hkeep. by eapply (Hstarted h0 t0).
           ++ exists h0, (mkTask (task_job t0) Done (must_cancel t0)).
              cbn [loop_tasks]. by rewrite list_lookup_insert_eq.
        -- rewrite Hst in Hs. case_decide; [done|].
           rewrite Herr in He.
           destruct (Hmsg _ _ Hj0 Hs He) as [? Hw].
           split; [by apply Hkeep|]. by apply Hold.
      * intros Hk Hs He. destruct (Hmsg k job Hk Hs He) as [? Hw].
        split; [done|]. by apply Hold.
    + intros h t job Ht Hd Hs. rewrite dict_get_alter.
      destruct (decide (h = h0)) as [->|Hne].
      * rewrite list_lookup_insert_eq in Ht by done. injection Ht as <-.
        cbn in *. rewrite decide_True, Hj0 by done. intros [= <-].
        destruct (decide (task_pc t0 = AtStart)) as [E|E]; [by apply Hnew|].
        apply Hkeep. by eapply (Hstarted h0 t0).
      * rewrite list_lookup_insert_ne in Ht by done.
        destruct (decide (task_job t = task_job t0)) as [E|Hne'].
        -- rewrite Hj0. intros [= <-]. apply Hkeep.
           eapply (Hstarted h t); try done. by rewrite E.
        -- intros Hk. by eapply Hstarted.
Qed.

Lemma interrupt_inv_run (evs : list Event) (q q' : ProcessingQueue) :
  queue_inv q → interrupt_inv q → run evs q = Some q' → interrupt_inv q'.
Proof.
  revert q. induction evs as [|ev evs IH]; intros q Hinv Hint; cbn.
  - by intros [= <-].
  - destruct (step ev q) as [q1|] eqn:E; [|done]. cbn.
    apply IH; [by eapply queue_inv_step | by eapply interrupt_inv_step].
Qed.

(** C3 (as the code has it): in every state reached by the queue, a job has
    a result exactly when it is [COMPLETED]; a [FAILED] job has an error
    message; an error message is found only on a [FAILED] job or on a
    [CANCELLED] job whose running worker was interrupted: the job had been
    started, a task of the job received [Task.cancel()] and has ended, and
    the message is "Job was cancelled"; a [PENDING] or [RUNNING] job has
    neither result nor error. *)
Theorem result_and_error_follow_status (m : Z) (q : ProcessingQueue)
    (k : string) (job : ProcessingJob) :
  reachable_from (init m) q →
  dict_get k (jobs q) = Some job →
  (is_Some (result job) ↔ status job = COMPLETED)
  ∧ (status job = FAILED → is_Some (error_message job))
  ∧ (is_Some (error_message job) →
     status job = FAILED
     ∨ (status job = CANCELLED
        ∧ error_message job = Some "Job was cancelled"%string
        ∧ is_Some (started_at job)
        ∧ worker_interrupted q k))
  ∧ (status job = CANCELLED →
     error_message job = None
     ∨ error_message job = Some "Job was cancelled"%string)
  ∧ (status job = PENDING ∨ status job = RUNNING →
     result job = None ∧ error_message job = None).
Proof.
  intros Hreach Hjob.
  pose proof (queue_inv_reachable m q Hreach) as Hinv.
  pose proof (inv_fields q Hinv k job Hjob) as Hfields.
  pose proof Hfields as (Hr & Hf & He & Hc).
  split; [done|]. split; [done|]. split; [|split; [done|]].
  - intros Herr. destruct (He Herr) as [?|Hs]; [by left|]. right.
    destruct Hreach as [evs Hrun].
    pose proof (interrupt_inv_run evs (init m) q (queue_inv_init m)
                  (interrupt_inv_init m) Hrun) as Hint.
    destruct (inv_cancel_message q Hint k job Hjob Hs Herr) as [Hst Hw].
    split; [done|]. split; [|done].
    destruct (Hc Hs) as [E|E]; [|done]. rewrite E in Herr. by destruct Herr.
  - intros Hlive. destruct (job_fields_live job Hfields Hlive) as [Hnr Hne].
    split.
    + destruct (result job); [|done]. by destruct Hnr.
    + destruct (error_message job); [|done]. by destruct Hne.
Qed.

Lemma result_and_error_follow_status_witness :
  ∃ q job,
    run cancelled_while_running (init 2) = Some q
    ∧ dict_get "job-1" (jobs q) = Some job
    ∧ status job = CANCELLED
    ∧ error_message job = Some "Job was cancelled"%string
    ∧ is_Some (started_at job)
    ∧ worker_interrupted q "job-1".
Proof.
  eexists _, _.
  split; [vm_compute; reflexivity|].
  match goal with |- dict_get _ (jobs ?q0) = _ ∧ _ => pose (q := q0) end.
  split; [vm_compute; reflexivity|].
  match goal with |- status ?j = _ ∧ _ => pose (job := j) end.
  destruct (result_and_error_follow_status 2 q "job-1" job)
    as (_ & _ & H & _).
  - exists cancelled_while_running. vm_compute. reflexivity.
  - vm_compute. reflexivity.
  - destruct H as [H|H]; [by eexists | discriminate H | exact H].
Defined.

(** C3 fails as stated: a job cancelled while its worker runs ends
    [CANCELLED] with the error message "Job was cancelled". *)
Lemma cancelled_job_has_error_counterexample :
  ¬ (∀ q k job,
       reachable_from (init 2) q → dict_get k (jobs q) = Some job →
       (is_Some (result job) ↔ status job = COMPLETED)
       ∧ (is_Some (error_message job) ↔ status job = FAILED)).
Proof.
  intros Hclaim.
  destruct (run cancelled_while_running (init 2)) as [q|] eqn:Hrun;
    [|by vm_compute in Hrun].
  destruct (dict_get "job-1" (jobs q)) as [job|] eqn:Hjob.
  - destruct (Hclaim q "job-1" job) as [_ [He _]];
      [by exists cancelled_while_running | done |].
    vm_compute in Hrun. injection Hrun as <-.
    vm_compute in Hjob. injection Hjob as <-.
    cbn in He. by specialize (He ltac:(by eexists)).
  - vm_compute in Hrun. injection Hrun as <-. by vm_compute in Hjob.
Qed.

(** The job of [cancelled_while_running] at the end of the run. *)
Example cancelled_while_running_job :
  (λ q, (λ job, (status job, error_message job, result job,
                 progress_percent job))
        <$> dict_get "job-1" (jobs q))
  <$> run cancelled_while_running (init 2)
  = Some (Some (CANCELLED, Some "Job was cancelled"%string, None, 10)).
Proof. vm_compute. reflexivity. Qed.

(** A job cancelled before the worker took it has no error message, and
    the worker never starts it. *)
Example cancelled_while_pending_job :
  (λ q, (λ job, (status job, error_message job, started_at job))
        <$> dict_get "job-1" (jobs q))
  <$> run (cancelled_while_pending ++ [Cancel "job-1" 1; WorkerIteration])
          (init 2)
  = Some (Some (CANCELLED, None, None)).
Proof. vm_compute. reflexivity. Qed.

(** ** Cancellation *)

(** C6: [cancel_job] answers [True] exactly for a known job that is
    [PENDING] or [RUNNING], and then the job is [CANCELLED]; it answers
    [False] and changes nothing otherwise.  A job that is [PENDING] when it
    is cancelled was never [RUNNING] before and is [CANCELLED] in every
    later state. *)
Theorem cancel_job_contract (k : string) (now : Q) (q : ProcessingQueue) :
  ((cancel_job k now q).1 = true
   ↔ ∃ job, dict_get k (jobs q) = Some job
            ∧ (status job = PENDING ∨ status job = RUNNING))
  ∧ ((cancel_job k now q).1 = true →
     job_status (cancel_job k now q).2 k = Some CANCELLED)
  ∧ ((cancel_job k now q).1 = false → (cancel_job k now q).2 = q)
  ∧ (∀ m pre,
       run pre (init m) = Some q → job_status q k = Some PENDING →
       (∀ pre1 pre2 q1,
          pre = pre1 ++ pre2 → run pre1 (init m) = Some q1 →
          job_status q1 k ≠ Some RUNNING)
       ∧ (∀ post q2,
            run post (cancel_job k now q).2 = Some q2 →
            job_status q2 k = Some CANCELLED)).
Proof.
  destruct (cancel_job_unfold k now q)
    as [[Hc Hnot]|(job & Hjob & Hlive & Hc)]; rewrite Hc; cbn [fst snd].
  - split; [|split; [done|split; [done|]]].
    + split; [done|]. intros (job & Hjob & Hlive).
      destruct (Hnot job Hjob). destruct Hlive; done.
    + intros m pre Hpre Hpending. unfold job_status in Hpending.
      destruct (dict_get k (jobs q)) as [job|] eqn:Hjob; [|done].
      injection Hpending as Hpending. by destruct (Hnot job eq_refl).
  - split; [|split; [|split; [done|]]].
    + split; [eauto | done].
    + intros _. unfold job_status. cbn.
      by rewrite dict_get_alter, decide_True, Hjob.
    + intros m pre Hpre Hpending.
      assert (queue_inv q) as Hinv by (by eapply queue_inv_reachable; eexists).
      split.
      * intros pre1 pre2 q1 -> Hq1 Hrunning.
        rewrite run_app, Hq1 in Hpre. cbn in Hpre.
        unfold job_status in Hrunning, Hpending.
        destruct (dict_get k (jobs q1)) as [job1|] eqn:Hjob1; [|done].
        injection Hrunning as Hrunning.
        assert (queue_inv q1) as Hinv1
          by (by eapply queue_inv_reachable; eexists).
        destruct (run_status pre2 q1 q k job1 Hinv1 Hpre Hjob1)
          as (job' & Hj' & Hs).
        rewrite Hj' in Hpending. injection Hpending as Hpending.
        rewrite Hrunning, Hpending in Hs.
        by destruct Hs as [?|[?|[_ ?]]].
      * intros post q2 Hpost.
        pose proof (queue_inv_cancel k now q Hinv) as Hinv'.
        rewrite Hc in Hinv'. cbn [snd] in Hinv'.
        set (q' := {| jobs := _ |}) in *.
        assert (dict_get k (jobs q')
                = Some (set_completed_at (Some now) (set_status CANCELLED job)))
          as Hj' by (cbn; by rewrite dict_get_alter, decide_True, Hjob).
        destruct (run_status post q' q2 k _ Hinv' Hpost Hj') as (j2 & Hj2 & Hs).
        unfold job_status. rewrite Hj2. cbn in Hs. cbn.
        by destruct Hs as [<-|[?|[? _]]].
Qed.

Lemma cancel_job_contract_witness :
  ∃ q, run cancelled_while_pending (init 2) = Some q
       ∧ job_status q "job-1" = Some PENDING
       ∧ (cancel_job "job-1" 1 q).1 = true
       ∧ ∀ post q2, run post (cancel_job "job-1" 1 q).2 = Some q2 →
                    job_status q2 "job-1" = Some CANCELLED.
Proof.
  destruct (run cancelled_while_pending (init 2)) as [q|] eqn:Hrun;
    [|by vm_compute in Hrun].
  exists q. split; [done|].
  assert (job_status q "job-1" = Some PENDING) as Hp.
  { vm_compute in Hrun. injection Hrun as <-. by vm_compute. }
  split; [done|].
  destruct (cancel_job_contract "job-1" 1 q) as (Hiff & _ & _ & Htrace).
  split.
  - apply Hiff. unfold job_status in Hp.
    destruct (dict_get "job-1" (jobs q)) as [job|]; [|done].
    exists job. split; [done|]. left. by injection Hp.
  - by destruct (Htrace 2 cancelled_while_pending Hrun Hp) as [_ Hpost].
Defined.

(** ** The order of admission *)

Lemma has_started_step (ev : Event) (q q' : ProcessingQueue) (k : string) :
  queue_inv q → step ev q = Some q' → has_started q k → has_started q' k.
Proof.
  intros Hinv Hstep (job & Hjob & Hs).
  destruct (step_status ev q q' k job Hinv Hstep Hjob) as (job' & Hj' & Hs').
  exists job'. split; [done|]. intros E. rewrite E in Hs'.
  by destruct Hs' as [?|[?|[_ ?]]].
Qed.



Lemma filter_all {A} (P : A → Prop) `{∀ x, Decision (P x)} (l : list A) :
  Forall P l → filter P l = l.
Proof.
  induction 1 as [|x l Hx Hl IH]; [done|]. by rewrite filter_cons_True, IH.
Qed.

Lemma filter_none {A} (P : A → Prop) `{∀ x, Decision (P x)} (l : list A) :
  Forall (λ x, ¬ P x) l → filter P l = [].
Proof.
  induction 1 as [|x l Hx Hl IH]; [done|]. by rewrite filter_cons_False.
Qed.

(** The first iteration of the worker, on a queue where nothing runs. *)
Lemma first_iteration (q : ProcessingQueue) (a b : string) :
  queue_inv q → before_first_iteration q a b →
  running_jobs (worker_iteration q) = <[b := 1%nat]> (<[a := 0%nat]> ∅)
  ∧ loop_tasks (worker_iteration q)
    = [mkTask a AtStart false; mkTask b AtStart false].
Proof.
  intros Hinv ((ja & jb & rest & Hjobs) & Hab & Hpending & Htasks & Hrun & Hmax).
  assert (job_id ja = a) as Ha.
  { eapply inv_ids; [done|]. rewrite Hjobs. cbn. by rewrite decide_True. }
  assert (job_id jb = b) as Hb.
  { eapply inv_ids; [done|]. rewrite Hjobs. cbn.
    by rewrite decide_False, decide_True. }
  unfold worker_iteration.
  rewrite (filter_all (λ job, status job = PENDING)) by done.
  rewrite Hrun, Hmax, map_size_empty. rewrite Hjobs.
  change (py_slice_to _ _) with [ja; jb].
  set (q1 := foldl start_job q [ja; jb]).
  assert (running_jobs q1 = <[b := 1%nat]> (<[a := 0%nat]> ∅)) as Hrun1.
  { unfold q1. cbn. by rewrite Htasks, Hrun, Ha, Hb. }
  assert (loop_tasks q1 = [mkTask a AtStart false; mkTask b AtStart false])
    as Htasks1.
  { unfold q1. rewrite start_jobs_tasks, Htasks. cbn. by rewrite Ha, Hb. }
  rewrite (filter_none (λ item, task_done q1 item.2 = true)).
  - done.
  - apply Forall_forall. intros [k h] _. unfold task_done. rewrite Htasks1.
    cbn. destruct h as [|[|h]]; cbn; done.
Qed.

Lemma before_first_iteration_submit (q : ProcessingQueue) (a b k : string)
    (song : Z) (path : string) (intensity bpm : Z) (now : Q) :
  before_first_iteration q a b → dict_get k (jobs q) = None →
  before_first_iteration (submit_job k song path intensity bpm now q).2 a b.
Proof.
  intros ((ja & jb & rest & Hjobs) & Hab & Hpending & Htasks & Hrun & Hmax) Hk.
  unfold submit_job. cbn [snd]. rewrite dict_set_fresh by done.
  repeat split; cbn [jobs loop_tasks running_jobs max_concurrent_jobs];
    try done.
  - rewrite Hjobs. by eexists ja, jb, _.
  - unfold dict_values in *. rewrite fmap_app. apply Forall_app.
    split; [done|]. by repeat constructor.
Qed.

Lemma admission_order_step (ev : Event) (q q' : ProcessingQueue) (a b : string) :
  queue_inv q → ¬ is_cancel ev → step ev q = Some q' →
  admission_order q a b → admission_order q' a b.
Proof.
  intros Hinv Hnc Hstep [[Ha Hb]|[H0|H1]].
  { left. split; by eapply has_started_step. }
  - (* nothing runs yet *)
    destruct ev as [k song path i bpm now|k now| |h input now];
      cbn in Hstep; [| done | |].
    + destruct (dict_get k (jobs q)) eqn:Hk; [done|]. injection Hstep as <-.
      right. left. by apply before_first_iteration_submit.
    + case_bool_decide; [|done]. injection Hstep as <-.
      destruct (first_iteration q a b Hinv H0) as [_ Htasks'].
      destruct H0 as (_ & Hab & Hpending & _).
      right. right. repeat split.
      * intros k job. rewrite worker_iteration_jobs. intros Hjob _ _.
        rewrite Forall_forall in Hpending. apply Hpending.
        apply dict_values_elem. exists k. by apply dict_get_elem.
      * intros h t. rewrite Htasks'.
        destruct h as [|[|h]]; cbn; [| |done]; intros [= <-]; auto.
      * right. exists 0%nat. eexists. by rewrite Htasks'.
      * right. exists 1%nat. eexists. by rewrite Htasks'.
    + destruct H0 as (_ & _ & _ & Htasks & _).
      unfold task_step in Hstep. by rewrite Htasks in Hstep.
  - (* only the first two jobs have tasks *)
    destruct H1 as (Hothers & Htasks & Hwa & Hwb).
    destruct ev as [k song path i bpm now|k now| |h input now];
      cbn in Hstep; [| done | |].
    + destruct (dict_get k (jobs q)) eqn:Hk; [done|]. injection Hstep as <-.
      right. right. unfold submit_job. cbn [snd].
      rewrite dict_set_fresh by done.
      assert (∀ x, started_or_waiting q x →
                started_or_waiting
                  {| jobs := jobs q ++
                       [(k, mkJob k song path i bpm now PENDING 0
                               "Initializing" None None None None None)];
                     max_concurrent_jobs := max_concurrent_jobs q;
                     running_jobs := running_jobs q;
                     loop_tasks := loop_tasks q |} x) as Hkeep.
      { intros x [(job & Hjob & Hs)|Hw]; [left|by right].
        exists job. cbn. by rewrite dict_get_snoc, Hjob. }
      repeat split; cbn [jobs loop_tasks]; auto.
      intros k' job'. rewrite dict_get_snoc.
      destruct (dict_get k' (jobs q)) eqn:Hk'.
      * intros [= <-]. by eapply Hothers.
      * destruct (decide (k' = k)); [|done]. by intros [= <-].
    + case_bool_decide as Hstarted; [|done]. injection Hstep as <-.
      rewrite Forall_forall in Hstarted.
      assert (∀ x, started_or_waiting q x → has_started q x) as Hadm.
      { intros x [?|(h & t & Ht & _ & Hpc)]; [done|].
        destruct (Hstarted t); [|done]. by eapply list_elem_of_lookup_2. }
      left. unfold has_started. rewrite worker_iteration_jobs.
      split; by apply Hadm.
    + destruct (task_step h input now q) as [[q1 log]|] eqn:E; [|done].
      cbn in Hstep. injection Hstep as <-.
      assert (∀ x, started_or_waiting q x → started_or_waiting q1 x) as Hkeep.
      { intros x [Hadm|(h' & t' & Ht' & Hx & Hpc')].
        - left. eapply (has_started_step (TaskStep h input now)); [done| |done].
          cbn. by rewrite E.
        - apply task_step_unfold in E
            as (t & job & job' & pc & Ht & Hjob & Hco & ->).
          destruct (decide (h' = h)) as [->|Hne].
          + left. assert (t' = t) as -> by congruence.
            exists job'. cbn. rewrite Hx, dict_get_alter, decide_True by done.
            rewrite <- Hx, Hjob. split; [done|].
            apply coroutine_step_spec in Hco as (Halive & _ & Hkind).
            destruct (inv_tasks q Hinv h t Ht Halive) as (j1 & Hj1 & Hok).
            assert (j1 = job) as -> by congruence.
            destruct Hkind as [(Hc & _ & _ & ->)|[(_ & ? & _)
              |[(_ & _ & _ & Hs & _)|[(_ & _ & Hs & _)|(_ & _ & Hs & _)]]]];
              try congruence.
            * rewrite Hc in Hok. congruence.
            * rewrite Hs. by rewrite decide_True.
          + right. exists h', t'. cbn.
            by rewrite list_lookup_insert_ne. }
      apply task_step_unfold in E
        as (t & job & job' & pc & Ht & Hjob & Hco & ->).
      right. right. repeat split; cbn [jobs loop_tasks]; auto.
      * intros k job0. rewrite dict_get_alter.
        destruct (decide (k = task_job t)) as [->|Hne]; [|apply Hothers].
        intros _ Hna Hnb. destruct (Htasks h t Ht); done.
      * intros h' t'. destruct (decide (h' = h)) as [->|Hne].
        -- rewrite list_lookup_insert_eq by by eapply lookup_lt_Some.
           intros [= <-]. cbn. by eapply Htasks.
        -- rewrite list_lookup_insert_ne by done. apply Htasks.
Qed.

Lemma admission_order_run (evs : list Event) (q q' : ProcessingQueue)
    (a b : string) :
  queue_inv q → Forall (λ ev, ¬ is_cancel ev) evs → run evs q = Some q' →
  admission_order q a b → admission_order q' a b.
Proof.
  revert q. induction evs as [|ev evs IH]; intros q Hinv Hnc; cbn.
  - by intros [= <-].
  - apply Forall_cons in Hnc as [Hev Hnc].
    destruct (step ev q) as [q1|] eqn:E; [|done]. cbn. intros Hrun Hord.
    eapply IH; [by eapply queue_inv_step | done | done |].
    by eapply admission_order_step.
Qed.

Lemma admission_order_first (q : ProcessingQueue) (a b k : string) :
  admission_order q a b → k ≠ a → k ≠ b → has_started q k →
  has_started q a ∧ has_started q b.
Proof.
  intros [?|[H0|H1]] Hna Hnb (job & Hjob & Hs); [done|..]; exfalso.
  - destruct H0 as (_ & _ & Hpending & _).
    rewrite Forall_forall in Hpending. apply Hs, Hpending.
    apply dict_values_elem. exists k. by apply dict_get_elem.
  - destruct H1 as (Hothers & _). by eapply Hs, Hothers.
Qed.

Lemma before_first_iteration_submits (rest : list Submission)
    (q q' : ProcessingQueue) (a b : string) :
  before_first_iteration q a b →
  run (submit_event <$> rest) q = Some q' →
  before_first_iteration q' a b.
Proof.
  revert q. induction rest as [|[[[[[k song] path] i] bpm] now] rest IH];
    intros q H0; cbn.
  - by intros [= <-].
  - destruct (dict_get k (jobs q)) eqn:Hk; [done|]. cbn.
    apply IH. by apply before_first_iteration_submit.
Qed.

Lemma before_first_iteration_two (s1 s2 : Submission) (q : ProcessingQueue) :
  run (submit_event <$> [s1; s2]) (init 2) = Some q →
  before_first_iteration q (submission_id s1) (submission_id s2).
Proof.
  destruct s1 as [[[[[a song1] path1] i1] bpm1] now1].
  destruct s2 as [[[[[b song2] path2] i2] bpm2] now2].
  cbn. destruct (decide (b = a)) as [->|Hne]; [done|]. cbn.
  intros [= <-].
  repeat split; cbn; try done.
  - by eexists _, _, [].
  - by repeat constructor.
Qed.

(** C5: with [max_concurrent_jobs = 2] and five jobs submitted in the order
    J1..J5, at most two jobs are [RUNNING] in every state the queue reaches;
    the first iteration of the worker registers exactly J1 and J2; and, as
    long as no job is cancelled, no other job leaves [PENDING] before J1
    and J2 both have. *)
Theorem admission_respects_limit_and_order
    (s1 s2 s3 s4 s5 : Submission) (evs : list Event) (q5 q : ProcessingQueue) :
  run (submit_event <$> [s1; s2; s3; s4; s5]) (init 2) = Some q5 →
  run evs q5 = Some q →
  (count_status RUNNING q ≤ 2)%nat
  ∧ running_jobs (worker_iteration q5)
    = <[submission_id s2 := 1%nat]> (<[submission_id s1 := 0%nat]> ∅)
  ∧ (Forall (λ ev, ¬ is_cancel ev) evs →
     ∀ k, k ≠ submission_id s1 → k ≠ submission_id s2 → has_started q k →
          has_started q (submission_id s1) ∧ has_started q (submission_id s2)).
Proof.
  intros Hsub Hrun.
  assert (queue_inv q5) as Hinv5 by (by eapply queue_inv_reachable; eexists).
  assert (before_first_iteration q5 (submission_id s1) (submission_id s2))
    as H0.
  { change (submit_event <$> [s1; s2; s3; s4; s5])
      with ((submit_event <$> [s1; s2]) ++ (submit_event <$> [s3; s4; s5]))
      in Hsub.
    rewrite run_app in Hsub.
    destruct (run (submit_event <$> [s1; s2]) (init 2)) as [q2|] eqn:E2;
      [|done].
    cbn [mbind option_bind] in Hsub.
    eapply before_first_iteration_submits; [|done].
    by apply before_first_iteration_two. }
  split; [|split].
  - assert (Z.of_nat (count_status RUNNING q) <= 2); [|lia].
    apply running_count_bounded; [done|].
    exists ((submit_event <$> [s1; s2; s3; s4; s5]) ++ evs).
    by rewrite run_app, Hsub.
  - by destruct (first_iteration q5 _ _ Hinv5 H0).
  - intros Hnc k Hn1 Hn2 Hadm.
    eapply admission_order_first; [|done..].
    eapply admission_order_run; [done|done|done|]. right. by left.
Qed.

Lemma admission_respects_limit_and_order_witness :
  ∃ q5 q,
    run (submit_event <$> [J1; J2; J3; J4; J5]) (init 2) = Some q5
    ∧ run five_jobs_events q5 = Some q
    ∧ (count_status RUNNING q ≤ 2)%nat
    ∧ has_started q "J3" ∧ has_started q "J1" ∧ has_started q "J2".
Proof.
  destruct (run (submit_event <$> [J1; J2; J3; J4; J5]) (init 2))
    as [q5|] eqn:Hsub; [|by vm_compute in Hsub].
  destruct (run five_jobs_events q5) as [q|] eqn:Hrun.
  - exists q5, q. split; [done|]. split; [done|].
    destruct (admission_respects_limit_and_order J1 J2 J3 J4 J5
                five_jobs_events q5 q Hsub Hrun) as (Hbound & _ & Horder).
    split; [done|].
    assert (has_started q "J3") as H3.
    { vm_compute in Hsub. injection Hsub as <-.
      vm_compute in Hrun. injection Hrun as <-.
      eexists. split; [vm_compute; reflexivity | done]. }
    split; [done|].
    apply (Horder ltac:(repeat constructor; by intros []) "J3"); done.
  - exfalso. vm_compute in Hsub. injection Hsub as <-.
    by vm_compute in Hrun.
Defined.

(** ** Progress of a successful run *)

Lemma py_slice_to_all {A} (xs : list A) (n : Z) :
  Z.of_nat (length xs) <= n → py_slice_to xs n = xs.
Proof.
  intros Hn. unfold py_slice_to. destruct (0 <=? n) eqn:E; [|lia].
  apply take_ge. lia.
Qed.

Lemma single_job_admission (k : string) (song : Z) (path : string)
    (i bpm : Z) (now : Q) (m : Z) :
  1 <= m →
  worker_iteration (submit_job k song path i bpm now (init m)).2
  = {| jobs := [(k, mkJob k song path i bpm now PENDING 0 "Initializing"
                          None None None None None)];
       max_concurrent_jobs := m;
       running_jobs := {[k := 0%nat]};
       loop_tasks := [mkTask k AtStart false] |}.
Proof.
  intros Hm. unfold worker_iteration, submit_job, init.
  cbn [snd jobs running_jobs max_concurrent_jobs loop_tasks dict_set
       dict_values fmap list_fmap].
  rewrite map_size_empty.
  rewrite (filter_all (λ job, status job = PENDING)) by by repeat constructor.
  rewrite py_slice_to_all by (cbn; lia).
  cbn [foldl start_job jobs running_jobs max_concurrent_jobs loop_tasks
       length app job_id].
  rewrite insert_empty, map_to_list_singleton.
  rewrite (filter_none (λ item, task_done _ item.2 = true));
    [done | by repeat constructor].
Qed.

Lemma single_job_task_step (k : string) (job : ProcessingJob) (m : Z)
    (running : gmap string nat) (t : Task) (input : StepInput) (now : Q) :
  task_job t = k →
  task_step 0 input now
    {| jobs := [(k, job)]; max_concurrent_jobs := m;
       running_jobs := running; loop_tasks := [t] |}
  = '(job', log, pc) ← coroutine_step t input now job;
    Some ({| jobs := [(k, job')]; max_concurrent_jobs := m;
             running_jobs := running;
             loop_tasks := [mkTask k pc (must_cancel t)] |}, log).
Proof.
  intros <-. unfold task_step. cbn. rewrite decide_True by done. cbn.
  destruct (coroutine_step t input now job) as [[[job' log] pc]|]; [|done].
  cbn. by rewrite decide_True.
Qed.

(** C7 (as the code has it): a successful run of a job writes, in this
    order, "Starting processing..." (0%), "Loading audio..." (10%),
    "Separating vocals and instruments..." (20%), "Finalizing..." (90%) and
    "Complete" (100%), and leaves the job [COMPLETED]; tempo detection,
    tempo ratio and encoding have no checkpoint of their own. *)
Theorem successful_run_progress (s : Submission) (m : Z) (duration : Q)
    (r : FocusResult) (t1 t2 t3 t4 : Q) :
  1 <= m →
  ∃ q job,
    run_logged (successful_run s duration r t1 t2 t3 t4) (init m)
    = Some (q, successful_progress)
    ∧ dict_get (submission_id s) (jobs q) = Some job
    ∧ status job = COMPLETED
    ∧ (current_step job, progress_percent job) = ("Complete"%string, 100).
Proof.
  intros Hm. destruct s as [[[[[k song] path] i] bpm] now].
  remember ({[k := 0%nat]} : gmap string nat) as running eqn:Hrunning.
  eexists _, _. split.
  - unfold successful_run, submit_event.
    cbn [run_logged step dict_get jobs init fmap option_fmap option_map
         mbind option_bind].
    rewrite bool_decide_eq_true_2 by constructor.
    cbn [fmap option_fmap option_map mbind option_bind].
    rewrite single_job_admission by done. rewrite <- Hrunning.
    do 4 (rewrite single_job_task_step by done;
          lazy -[estimate_processing_duration Qplus task_step]).
    reflexivity.
  - cbn. rewrite decide_True by done. done.
Qed.

Lemma successful_run_progress_witness :
  1 <= 2
  ∧ ∃ q job,
      run_logged (successful_run J1 180 sample_result 1 2 3 4) (init 2)
      = Some (q, successful_progress)
      ∧ dict_get (submission_id J1) (jobs q) = Some job
      ∧ status job = COMPLETED
      ∧ (current_step job, progress_percent job) = ("Complete"%string, 100).
Proof.
  split; [lia|].
  apply (successful_run_progress J1 2 180 sample_result 1 2 3 4). lia.
Defined.

(** C7 fails as stated: the progress updates of a successful run contain no
    update at 65%, 70% or 95%. *)
Lemma progress_checkpoints_counterexample :
  ¬ (∀ q log,
       run_logged (successful_run J1 180 sample_result 1 2 3 4) (init 2)
       = Some (q, log) →
       ∀ percent, percent ∈ specified_checkpoints →
                  ∃ step, (step, percent) ∈ log).
Proof.
  intros Hclaim.
  destruct (run_logged (successful_run J1 180 sample_result 1 2 3 4) (init 2))
    as [[q log]|] eqn:Hrun; [|by vm_compute in Hrun].
  destruct (Hclaim q log eq_refl 65) as [step Hin].
  { apply list_elem_of_further, list_elem_of_here. }
  vm_compute in Hrun. injection Hrun as <- <-.
  repeat (apply elem_of_cons in Hin as [[=]|Hin]).
  by apply elem_of_nil in Hin.
Qed.

(** ** The cache of processed versions *)

Lemma query_versions_app (song_id intensity : Z) (target_bpm : Q)
    (db1 db2 : Table) :
  query_versions song_id intensity target_bpm (db1 ++ db2)
  = query_versions song_id intensity target_bpm db1
    ++ query_versions song_id intensity target_bpm db2.
Proof. apply filter_app. Qed.

(** C2 (as the code has it): a download never overwrites or removes a row
    of the table; it adds one row when it serves the file and changes
    nothing when it answers with an error.  Hence every entry of a key is
    kept, and a key can have any number of entries. *)
Theorem download_appends_to_cache (fs : FileSystem) (job_id : string)
    (q : ProcessingQueue) (db : Table) (key : Z * Z * Q) :
  ∃ added,
    (download_processed_audio fs job_id q db).2 = db ++ added
    ∧ length added
      = (if is_response (download_processed_audio fs job_id q db).1
         then 1%nat else 0%nat)
    ∧ cache_entries key (download_processed_audio fs job_id q db).2
      = cache_entries key db ++ cache_entries key added.
Proof.
  assert (∃ added,
            (download_processed_audio fs job_id q db).2 = db ++ added
            ∧ length added
              = (if is_response (download_processed_audio fs job_id q db).1
                 then 1%nat else 0%nat)) as (added & Hdb & Hlen).
  { unfold download_processed_audio, db_add.
    repeat case_match; cbn; try (exists []; by rewrite app_nil_r).
    eexists [_]. done. }
  exists added. rewrite Hdb. split; [done|]. split; [done|].
  destruct key as [[song_id intensity] target_bpm]. cbn [cache_entries].
  by rewrite query_versions_app.
Qed.

(** C2 fails as stated: after two completed jobs for the same request were
    downloaded, the table holds two entries for the key. *)
Lemma cache_duplicate_entries_counterexample :
  ∃ db, same_request_twice = Some db
        ∧ ¬ (length (cache_entries (1%Z, 50%Z, 90%Q) db) ≤ 1)%nat.
Proof.
  destruct same_request_twice as [db|] eqn:E; [|by vm_compute in E].
  exists db. split; [done|].
  vm_compute in E. injection E as <-. vm_compute. lia.
Qed.

(** The two rows of [same_request_twice]: the second download added a row
    with the same key and left the first row in place. *)
Example same_request_twice_rows :
  (λ db : list ProcessedVersion,
     (λ pv, (pv_id pv, pv_song_id pv, pv_focus_intensity pv,
             processed_filepath pv)) <$> db)
  <$> same_request_twice
  = Some [ (1, 1, 50, "/tmp/focus_a.mp3"%string);
           (2, 1, 50, "/tmp/focus_b.mp3"%string) ].
Proof. vm_compute. reflexivity. Qed.

(** While the first result is not yet downloaded, the second request for
    the same parameters misses the cache and creates a second job. *)
Example second_request_starts_a_job :
  let (_, q) :=
    start_focus_processing all_files [] 1 "/music/1.mp3" None 50 90
                           "job-a" 0 (init 2) in
  let (resp, q) :=
    start_focus_processing all_files [] 1 "/music/1.mp3" None 50 90
                           "job-b" 1 q in
  resp_job_id resp = "job-b"%string ∧ length (jobs q) = 2%nat.
Proof. vm_compute. by split. Qed.

(** Once a version is stored and its file exists, the request is answered
    from the cache and no job is created. *)
Example cached_request_creates_no_job :
  match same_request_twice with
  | Some db =>
      let (resp, q) :=
        start_focus_processing all_files db 1 "/music/1.mp3" None 50 90
                               "job-c" 9 (init 2) in
      resp_job_id resp = "cached"%string ∧ jobs q = []
  | None => False
  end.
Proof. vm_compute. by split. Qed.

(* ===================================================================== *)
(** * Further properties of the code                                      *)
(* ===================================================================== *)

(** ** Time synchronisation *)

Lemma Qpos_nonzero (x : Q) : (0 < x)%Q → ¬ (x == 0)%Q.
Proof. intros Hx E. rewrite E in Hx. by apply Qlt_irrefl in Hx. Qed.

Lemma sync_position_positive (p a b : Q) :
  (0 < a)%Q → (0 < b)%Q →
  AudioTimeCalculator.calculate_sync_position p a b = (p * (b / a))%Q.
Proof.
  intros Ha Hb. unfold AudioTimeCalculator.calculate_sync_position.
  assert (Qleb a 0 = false) as -> by by apply Qleb_false.
  assert (Qleb b 0 = false) as -> by by apply Qleb_false.
  done.
Qed.

Lemma Qdiv_pos (x y : Q) : (0 < x)%Q → (0 < y)%Q → (0 < x / y)%Q.
Proof. intros Hx Hy. apply Qlt_shift_div_l; [done|]. by rewrite Qmult_0_l. Qed.

Lemma Qdiv_le_1 (x y : Q) : (0 < y)%Q → (x <= y)%Q → (x / y <= 1)%Q.
Proof. intros Hy Hxy. apply Qle_shift_div_r; [done|]. by rewrite Qmult_1_l. Qed.

Lemma Qdiv_ge_1 (x y : Q) : (0 < y)%Q → (y <= x)%Q → (1 <= x / y)%Q.
Proof. intros Hy Hxy. apply Qle_shift_div_l; [done|]. by rewrite Qmult_1_l. Qed.

Lemma Qdiv_le_mono (x x' y : Q) :
  (0 < y)%Q → (x <= x')%Q → (x / y <= x' / y)%Q.
Proof.
  intros Hy Hx. unfold Qdiv. apply Qmult_le_compat_r; [done|].
  apply Qlt_le_weak, Qinv_lt_0_compat, Hy.
Qed.

(** X1: synchronisation keeps the order of positions and follows the
    direction of the tempo change.  For positive tempos a later position
    is mapped to a later or equal position and position 0 to 0; a position
    at or after 0 moves to an earlier or equal position when the processed
    tempo is the lower one, to a later or equal position when it is the
    higher one, and a higher processed tempo never gives an earlier
    position. *)
Theorem sync_position_order (p p' a b b' : Q) :
  (0 < a)%Q → (0 < b)%Q →
  ((p <= p')%Q →
   (AudioTimeCalculator.calculate_sync_position p a b
    <= AudioTimeCalculator.calculate_sync_position p' a b)%Q)
  ∧ (AudioTimeCalculator.calculate_sync_position 0 a b == 0)%Q
  ∧ ((0 <= p)%Q → (b <= a)%Q →
     (AudioTimeCalculator.calculate_sync_position p a b <= p)%Q)
  ∧ ((0 <= p)%Q → (a <= b)%Q →
     (p <= AudioTimeCalculator.calculate_sync_position p a b)%Q)
  ∧ ((0 <= p)%Q → (b <= b')%Q →
     (AudioTimeCalculator.calculate_sync_position p a b
      <= AudioTimeCalculator.calculate_sync_position p a b')%Q).
Proof.
  intros Ha Hb. rewrite !sync_position_positive by done.
  pose proof (Qdiv_pos b a Hb Ha) as Hr.
  split; [intros; nra|]. split; [ring|].
  split; [|split].
  - intros Hp Hba. pose proof (Qdiv_le_1 b a Ha Hba). nra.
  - intros Hp Hab. pose proof (Qdiv_ge_1 b a Ha Hab). nra.
  - intros Hp Hbb. rewrite sync_position_positive by lra.
    pose proof (Qdiv_le_mono b b' a Ha Hbb). nra.
Qed.

Lemma sync_position_order_witness :
  (AudioTimeCalculator.calculate_sync_position 150 120 80
   <= AudioTimeCalculator.calculate_sync_position 160 120 80)%Q
  ∧ (AudioTimeCalculator.calculate_sync_position 150 120 80 <= 150)%Q.
Proof.
  destruct (sync_position_order 150 160 120 80 80) as (H1 & _ & H2 & _);
    [reflexivity | reflexivity |].
  split; [apply H1 | apply H2]; by vm_compute.
Defined.

(** X3: for a positive processed tempo the synchronised position is the
    position times [calculate_tempo_ratio]; for a positive original and a
    non-positive processed tempo the two functions part: the position is
    kept while the ratio is not 1. *)
Theorem sync_position_uses_tempo_ratio (p a b : Q) :
  ((0 < b)%Q →
   (AudioTimeCalculator.calculate_sync_position p a b
    == p * AudioTimeCalculator.calculate_tempo_ratio a b)%Q)
  ∧ ((0 < a)%Q → (b <= 0)%Q →
     AudioTimeCalculator.calculate_sync_position p a b = p
     ∧ (AudioTimeCalculator.calculate_tempo_ratio a b <= 0)%Q).
Proof.
  split.
  - intros Hb. unfold AudioTimeCalculator.calculate_tempo_ratio.
    destruct (Qleb a 0) eqn:Ha.
    + unfold AudioTimeCalculator.calculate_sync_position. rewrite Ha. cbn.
      by rewrite Qmult_1_r.
    + apply Qleb_false in Ha. by rewrite sync_position_positive.
  - intros Ha Hb.
    unfold AudioTimeCalculator.calculate_sync_position,
      AudioTimeCalculator.calculate_tempo_ratio.
    assert (Qleb a 0 = false) as -> by by apply Qleb_false.
    assert (Qleb b 0 = true) as -> by by apply Qleb_true.
    split; [done|]. cbn.
    apply Qle_shift_div_r; [done|]. by rewrite Qmult_0_l.
Qed.

Lemma sync_position_uses_tempo_ratio_witness :
  (AudioTimeCalculator.calculate_sync_position 150 120 90
   == 150 * AudioTimeCalculator.calculate_tempo_ratio 120 90)%Q
  ∧ AudioTimeCalculator.calculate_sync_position 150 120 0 = 150%Q.
Proof.
  destruct (sync_position_uses_tempo_ratio 150 120 90) as [H1 _].
  destruct (sync_position_uses_tempo_ratio 150 120 0) as [_ H2].
  split; [by apply H1 | by apply H2].
Defined.

(** ** The estimate of the processing time *)



(** ** Complexity of a track *)

Lemma estimate_complexity_bands (tempo dynamic_range spectral_centroid : Q) :
  AudioAnalyzer._estimate_complexity tempo dynamic_range spectral_centroid
  = let score := complexity_band 140 100 tempo
                 + complexity_band (5 # 10) (3 # 10) dynamic_range
                 + complexity_band 3000 2000 spectral_centroid in
    if 5 <=? score then "high"%string
    else if 3 <=? score then "medium"%string else "low"%string.
Proof.
  unfold AudioAnalyzer._estimate_complexity, complexity_band.
  destruct (Qltb 140 tempo), (Qltb 100 tempo), (Qltb (5 # 10) dynamic_range),
    (Qltb (3 # 10) dynamic_range), (Qltb 3000 spectral_centroid),
    (Qltb 2000 spectral_centroid); reflexivity.
Qed.

Lemma complexity_band_mono (hi lo x y : Q) :
  (lo <= hi)%Q → (x <= y)%Q →
  complexity_band hi lo x <= complexity_band hi lo y.
Proof.
  intros Hmarks Hxy. unfold complexity_band.
  destruct (Qltb hi x) eqn:E1; destruct (Qltb hi y) eqn:E2;
    destruct (Qltb lo x) eqn:E3; destruct (Qltb lo y) eqn:E4; try lia;
    rewrite ?Qltb_true, ?Qltb_false in *; exfalso; lra.
Qed.

Lemma complexity_band_range (hi lo x : Q) : 0 <= complexity_band hi lo x <= 2.
Proof. unfold complexity_band. repeat case_match; lia. Qed.

(** X5: the complexity class never drops when tempo, dynamic range and
    spectral centroid all grow; a track with a tempo of at most 100, a
    dynamic range of at most 0.3 and a centroid of at most 2000 is "low",
    and one above 140, 0.5 and 3000 is "high". *)
Theorem estimate_complexity_monotone (t t' r r' c c' : Q) :
  ((t <= t')%Q → (r <= r')%Q → (c <= c')%Q →
   complexity_rank (AudioAnalyzer._estimate_complexity t r c)
   <= complexity_rank (AudioAnalyzer._estimate_complexity t' r' c'))
  ∧ ((t <= 100)%Q → (r <= 3 # 10)%Q → (c <= 2000)%Q →
     AudioAnalyzer._estimate_complexity t r c = "low"%string)
  ∧ ((140 < t)%Q → (5 # 10 < r)%Q → (3000 < c)%Q →
     AudioAnalyzer._estimate_complexity t r c = "high"%string).
Proof.
  split; [|split].
  - intros Ht Hr Hc. rewrite !estimate_complexity_bands. cbv zeta.
    pose proof (complexity_band_mono 140 100 t t' ltac:(done) Ht).
    pose proof (complexity_band_mono (5 # 10) (3 # 10) r r' ltac:(done) Hr).
    pose proof (complexity_band_mono 3000 2000 c c' ltac:(done) Hc).
    repeat case_match; try (vm_compute; discriminate); lia.
  - intros Ht Hr Hc. unfold AudioAnalyzer._estimate_complexity.
    assert (Qltb 140 t = false) as -> by (apply Qltb_false; lra).
    assert (Qltb 100 t = false) as -> by by apply Qltb_false.
    assert (Qltb (5 # 10) r = false) as -> by (apply Qltb_false; lra).
    assert (Qltb (3 # 10) r = false) as -> by by apply Qltb_false.
    assert (Qltb 3000 c = false) as -> by (apply Qltb_false; lra).
    assert (Qltb 2000 c = false) as -> by by apply Qltb_false.
    reflexivity.
  - intros Ht Hr Hc. unfold AudioAnalyzer._estimate_complexity.
    assert (Qltb 140 t = true) as -> by by apply Qltb_true.
    assert (Qltb (5 # 10) r = true) as -> by by apply Qltb_true.
    assert (Qltb 3000 c = true) as -> by by apply Qltb_true.
    reflexivity.
Qed.

Lemma estimate_complexity_monotone_witness :
  complexity_rank (AudioAnalyzer._estimate_complexity 90 (2 # 10) 1500)
  <= complexity_rank (AudioAnalyzer._estimate_complexity 150 (6 # 10) 2500)
  ∧ AudioAnalyzer._estimate_complexity 90 (2 # 10) 1500 = "low"%string
  ∧ AudioAnalyzer._estimate_complexity 150 (6 # 10) 3500 = "high"%string.
Proof.
  destruct (estimate_complexity_monotone 90 150 (2 # 10) (6 # 10) 1500 2500)
    as (H1 & H2 & _).
  destruct (estimate_complexity_monotone 150 150 (6 # 10) (6 # 10) 3500 3500)
    as (_ & _ & H3).
  split; [by apply H1|]. split; [by apply H2 | by apply H3].
Defined.

(** ** Validation of a request *)

Lemma validate_audio_file_message (fs : FileSystem)
    (decode : string → AudioDecode) (path : string) :
  (AudioValidatorFile.validate_audio_file fs decode path).2 = None
  ↔ (AudioValidatorFile.validate_audio_file fs decode path).1 = true.
Proof.
  unfold AudioValidatorFile.validate_audio_file, py_div.
  repeat case_match; done.
Qed.

(** X6: [validate_audio_file] accepts a file exactly when it exists, has at
    most 100 MB, both loads succeed, the first second is not empty, the
    sample rate is not 0 and the duration lies between 10 and 600 seconds;
    it reports an error message exactly when it rejects. *)
Theorem validate_audio_file_accepts (fs : FileSystem)
    (decode : string → AudioDecode) (path : string) :
  ((AudioValidatorFile.validate_audio_file fs decode path).1 = true
   ↔ ∃ size len_y sr len_full,
       fs path = Some size ∧ size <= 104857600
       ∧ load_first_second (decode path) = Ok (len_y, sr) ∧ len_y ≠ 0
       ∧ load_full (decode path) = Ok len_full
       ∧ sr ≠ 0
       ∧ (10 <= inject_Z len_full / inject_Z sr <= 600)%Q)
  ∧ ((AudioValidatorFile.validate_audio_file fs decode path).2 = None
     ↔ (AudioValidatorFile.validate_audio_file fs decode path).1 = true).
Proof.
  unfold AudioValidatorFile.validate_audio_file, py_div.
  change (100 * 1024 * 1024) with 104857600.
  split; [split|].
  - destruct (fs path) as [size|]; [|done].
    destruct (104857600 <? size) eqn:Hsize; [done|].
    destruct (load_first_second (decode path)) as [[len_y sr]|e]; [|done].
    destruct (len_y =? 0) eqn:Hlen; [done|].
    destruct (load_full (decode path)) as [len_full|e]; [|done].
    destruct (Qeq_bool (inject_Z sr) 0) eqn:Hsr; [done|].
    destruct (Qltb (inject_Z len_full / inject_Z sr) 10) eqn:Hshort; [done|].
    destruct (Qltb 600 (inject_Z len_full / inject_Z sr)) eqn:Hlong; [done|].
    intros _. exists size, len_y, sr, len_full.
    apply Qltb_false in Hshort, Hlong.
    repeat split; try done; try lia.
    intros ->. by rewrite Qeq_bool_refl in Hsr.
  - intros (size & len_y & sr & len_full & -> & Hsize & -> & Hlen & ->
            & Hsr & Hlo & Hhi).
    assert ((104857600 <? size) = false) as -> by lia.
    assert ((len_y =? 0) = false) as -> by lia.
    assert (Qeq_bool (inject_Z sr) 0 = false) as ->.
    { apply not_true_iff_false. intros E%Qeq_bool_iff.
      by apply (inject_Z_injective sr 0) in E. }
    assert (Qltb (inject_Z len_full / inject_Z sr) 10 = false) as ->
      by by apply Qltb_false.
    assert (Qltb 600 (inject_Z len_full / inject_Z sr) = false) as ->
      by by apply Qltb_false.
    done.
  - repeat case_match; done.
Qed.

Lemma validate_focus_parameters_accepts (intensity target_bpm : Z) :
  AudioValidator.validate_focus_parameters intensity target_bpm = None
  ↔ 0 <= intensity <= 100 ∧ (target_bpm = 0 ∨ 30 <= target_bpm <= 200).
Proof.
  unfold AudioValidator.validate_focus_parameters.
  destruct (0 <=? intensity) eqn:E1; destruct (intensity <=? 100) eqn:E2;
    destruct (target_bpm =? 0) eqn:E3; destruct (30 <=? target_bpm) eqn:E4;
    destruct (target_bpm <=? 200) eqn:E5; cbn; split; try done; lia.
Qed.

(** X7: [validate_processing_request] accepts exactly when the file and
    the parameters are both accepted; for a rejected file it reports the
    error of the file whatever the parameters are. *)
Theorem validate_processing_request_accepts (fs : FileSystem)
    (decode : string → AudioDecode) (path : string) (intensity target_bpm : Z) :
  ((validate_processing_request fs decode path intensity target_bpm).1 = true
   ↔ (AudioValidatorFile.validate_audio_file fs decode path).1 = true
     ∧ 0 <= intensity <= 100
     ∧ (target_bpm = 0 ∨ 30 <= target_bpm <= 200))
  ∧ ((AudioValidatorFile.validate_audio_file fs decode path).1 = false →
     validate_processing_request fs decode path intensity target_bpm
     = AudioValidatorFile.validate_audio_file fs decode path)
  ∧ ((validate_processing_request fs decode path intensity target_bpm).1 = false
     → is_Some (validate_processing_request fs decode path
                                            intensity target_bpm).2).
Proof.
  pose proof (validate_audio_file_message fs decode path) as Hmsg.
  pose proof (validate_focus_parameters_accepts intensity target_bpm) as Hp.
  unfold validate_processing_request.
  destruct (AudioValidatorFile.validate_audio_file fs decode path)
    as [[] file_error]; cbn in *.
  - destruct (AudioValidator.validate_focus_parameters intensity target_bpm)
      as [msg|]; cbn.
    + split; [|split; [done | eauto]].
      split; [done|]. intros (_ & H). by apply Hp in H.
    + split; [|split; [done | done]].
      split; [|done]. intros _. split; [done|]. by apply Hp.
  - split; [|split; [done|]].
    + split; [done | by intros [? _]].
    + intros _. destruct file_error; [eauto|].
      destruct Hmsg as [Hmsg _]. by specialize (Hmsg eq_refl).
Qed.

Lemma validate_processing_request_accepts_witness :
  (validate_processing_request all_files sample_decode "/music/a.mp3" 50 0).1
  = true
  ∧ validate_processing_request (λ _, None) sample_decode "/music/a.mp3" 50 0
    = (false, Some "File does not exist"%string).
Proof.
  destruct (validate_processing_request_accepts
              all_files sample_decode "/music/a.mp3" 50 0) as (H1 & _).
  destruct (validate_processing_request_accepts
              (λ _, None) sample_decode "/music/a.mp3" 50 0) as (_ & H2 & _).
  split.
  - apply H1. split; [reflexivity|]. lia.
  - rewrite H2; reflexivity.
Defined.

(** ** The tempo policy *)

(** X8: with a target tempo above 0 and a positive detected tempo, the
    ratio is defined, positive and independent of the intensity; it is at
    most 1 when the target is not above the detected tempo and at least 1
    when it is not below. *)
Theorem tempo_ratio_explicit_target (original_bpm target_bpm : Q) :
  (0 < original_bpm)%Q → (0 < target_bpm)%Q →
  ∃ ratio,
    (∀ intensity,
       FocusProcessor.calculate_tempo_ratio original_bpm target_bpm intensity
       = Ok ratio)
    ∧ (0 < ratio)%Q
    ∧ ((target_bpm <= original_bpm)%Q → (ratio <= 1)%Q)
    ∧ ((original_bpm <= target_bpm)%Q → (1 <= ratio)%Q).
Proof.
  intros Ho Ht. exists (target_bpm / original_bpm)%Q. split.
  { intros intensity. unfold FocusProcessor.calculate_tempo_ratio.
    assert (Qltb 0 target_bpm = true) as -> by by apply Qltb_true.
    by rewrite py_div_nonzero by by apply Qpos_nonzero. }
  split; [by apply Qdiv_pos|]. split.
  - by apply Qdiv_le_1.
  - by apply Qdiv_ge_1.
Qed.

Lemma tempo_ratio_explicit_target_witness :
  ∃ ratio,
    FocusProcessor.calculate_tempo_ratio 120 90 50 = Ok ratio
    ∧ (0 < ratio)%Q ∧ (ratio <= 1)%Q.
Proof.
  destruct (tempo_ratio_explicit_target 120 90) as (ratio & H1 & H2 & H3 & _);
    [reflexivity | reflexivity |].
  exists ratio. split; [apply H1|]. split; [exact H2|]. apply H3. by vm_compute.
Defined.

Lemma auto_target_bounds (original_bpm intensity : Q) :
  (0 < original_bpm)%Q → (0 <= intensity)%Q → (intensity <= 100)%Q →
  let target :=
    py_max 50 (original_bpm * (1 - intensity / 100 * (1 # 2)))%Q in
  (50 <= target)%Q
  ∧ (original_bpm * (1 # 2) <= target)%Q
  ∧ ((50 <= original_bpm)%Q → (target <= original_bpm)%Q).
Proof.
  intros Ho Hi0 Hi1 target.
  set (f := (1 - intensity / 100 * (1 # 2))%Q) in *.
  assert (1 # 2 <= f)%Q as Hf1.
  { assert (intensity / 100 <= 1)%Q; [|unfold f; lra].
    apply Qle_shift_div_r; [reflexivity | lra]. }
  assert (f <= 1)%Q as Hf2.
  { assert (0 <= intensity / 100)%Q; [|unfold f; lra].
    apply Qle_shift_div_l; [reflexivity | lra]. }
  unfold target.
  destruct (py_max_spec 50 (original_bpm * f)) as [[? ->]|[? ->]];
    repeat split; try lra; try nra.
Qed.

(** X9: in automatic mode (target tempo 0 or below) with a positive
    detected tempo and an intensity in 0..100, the ratio is defined and at
    least 1/2; a track of at least 50 BPM is never sped up, a track of at
    most 50 BPM is never slowed down, and a higher intensity never gives a
    higher ratio. *)
Theorem tempo_ratio_automatic (original_bpm target_bpm intensity : Q) :
  (0 < original_bpm)%Q → (target_bpm <= 0)%Q →
  (0 <= intensity)%Q → (intensity <= 100)%Q →
  ∃ ratio,
    FocusProcessor.calculate_tempo_ratio original_bpm target_bpm intensity
    = Ok ratio
    ∧ (1 # 2 <= ratio)%Q
    ∧ ((50 <= original_bpm)%Q → (ratio <= 1)%Q)
    ∧ ((original_bpm <= 50)%Q → (1 <= ratio)%Q)
    ∧ (∀ intensity' ratio',
         (intensity <= intensity')%Q →
         FocusProcessor.calculate_tempo_ratio original_bpm target_bpm
           intensity' = Ok ratio' →
         (ratio' <= ratio)%Q).
Proof.
  intros Ho Ht Hi0 Hi1. unfold FocusProcessor.calculate_tempo_ratio.
  assert (Qltb 0 target_bpm = false) as -> by by apply Qltb_false.
  rewrite py_div_nonzero by by apply Qpos_nonzero.
  destruct (auto_target_bounds original_bpm intensity Ho Hi0 Hi1)
    as (H50 & Hhalf & Hfast).
  set (target := py_max 50 _) in *.
  eexists. split; [done|]. split; [|split; [|split]].
  - apply Qle_shift_div_l; [done|]. lra.
  - intros H. apply Qdiv_le_1; [done|]. by apply Hfast.
  - intros H. apply Qdiv_ge_1; [done|]. lra.
  - intros intensity' ratio' Hii.
    rewrite py_div_nonzero by by apply Qpos_nonzero. intros [= <-].
    apply Qdiv_le_mono; [done|].
    assert (intensity / 100 <= intensity' / 100)%Q as Hdiv
      by by apply Qdiv_le_mono.
    unfold target.
    destruct (py_max_spec 50
                (original_bpm * (1 - intensity' / 100 * (1 # 2))))
      as [[? ->]|[? ->]];
      destruct (py_max_spec 50
                  (original_bpm * (1 - intensity / 100 * (1 # 2))))
        as [[? ->]|[? ->]]; try lra; nra.
Qed.

Lemma tempo_ratio_automatic_witness :
  ∃ ratio,
    FocusProcessor.calculate_tempo_ratio 120 0 50 = Ok ratio
    ∧ (1 # 2 <= ratio)%Q
    ∧ (ratio <= 1)%Q.
Proof.
  destruct (tempo_ratio_automatic 120 0 50) as (ratio & H1 & H2 & H3 & _);
    [by vm_compute..|].
  exists ratio. split; [exact H1|]. split; [exact H2|]. apply H3.
  by vm_compute.
Defined.

(** The ratio is never 0: it is defined exactly for a detected tempo that
    is not 0. *)
Lemma tempo_ratio_nonzero (original_bpm target_bpm intensity ratio : Q) :
  FocusProcessor.calculate_tempo_ratio original_bpm target_bpm intensity
  = Ok ratio →
  ¬ (original_bpm == 0)%Q ∧ ¬ (ratio == 0)%Q.
Proof.
  unfold FocusProcessor.calculate_tempo_ratio, py_div.
  destruct (Qeq_bool original_bpm 0) eqn:Ho; [by destruct (Qltb 0 target_bpm)|].
  assert (¬ (original_bpm == 0)%Q) as Hne.
  { intros E%Qeq_bool_iff. congruence. }
  destruct (Qltb 0 target_bpm) eqn:Ht; intros [= <-]; split; try done.
  - apply Qltb_true in Ht. intros E.
    assert (target_bpm == 0)%Q; [|lra].
    rewrite <- (Qmult_div_r target_bpm original_bpm) by done.
    rewrite E. ring.
  - set (target := py_max 50 _). intros E.
    assert (50 <= target)%Q.
    { unfold target. destruct (py_max_spec 50
        (original_bpm * (1 - intensity / 100 * (1 # 2))))
        as [[? ->]|[? ->]]; lra. }
    assert (target == 0)%Q; [|lra].
    rewrite <- (Qmult_div_r target original_bpm) by done.
    rewrite E. ring.
Qed.

(** ** The pipeline *)

Lemma process_audio_body_ok (env : Collaborators) (i t : Z) (r : FocusResult) :
  FocusProcessor.process_audio_body env i t = Ok r →
  ∃ duration ratio new_duration,
    load_duration env = Ok duration
    ∧ separate env = Ok ()
    ∧ FocusProcessor.calculate_tempo_ratio
        (FocusProcessor.detect_bpm (librosa_tempo env))
        (inject_Z t) (inject_Z i) = Ok ratio
    ∧ py_div duration ratio = Ok new_duration
    ∧ focus_effects env = Ok ()
    ∧ numpy_to_mp3 env = Ok ()
    ∧ r = {| processed_file_path := temp_file_name env;
             original_duration := duration;
             processed_duration := new_duration;
             original_bpm := FocusProcessor.detect_bpm (librosa_tempo env);
             processed_bpm :=
               (FocusProcessor.detect_bpm (librosa_tempo env) * ratio)%Q;
             tempo_ratio := ratio;
             res_focus_intensity := i;
             vocal_reduction_percent := py_int (inject_Z i / 100 * 70)%Q;
             effects_applied := Qltb (3 # 10) (inject_Z i / 100)%Q;
             vocal_filtering := Qltb (3 # 10) (inject_Z i / 100)%Q;
             accompaniment_filtering := Qltb (2 # 10) (inject_Z i / 100)%Q |}.
Proof.
  unfold FocusProcessor.process_audio_body.
  destruct (load_duration env) as [duration|]; [|done].
  destruct (separate env) as [[]|]; [|done]. cbn [mbind result_bind].
  destruct (FocusProcessor.calculate_tempo_ratio _ _ _) as [ratio|] eqn:Hr;
    [|done].
  cbn [mbind result_bind].
  destruct (py_div duration ratio) as [new_duration|] eqn:Hd;
    cbn [mbind result_bind]; [|done].
  destruct (focus_effects env) as [[]|]; cbn [mbind result_bind]; [|done].
  destruct (numpy_to_mp3 env) as [[]|]; cbn [mbind result_bind]; [|done].
  intros [= <-]. by exists duration, ratio, new_duration.
Qed.

(** X10: a successful result of the pipeline is complete and consistent:
    every primitive succeeded, the artefact is the temporary file, the
    detected tempo and the ratio are not 0, the processed tempo is the
    detected tempo times the ratio, the processed duration is the
    original duration divided by the ratio, and for an intensity in
    0..100 the vocal reduction is [7 * intensity / 10] percent (rounded
    down). *)
Theorem pipeline_success_is_consistent (env : Collaborators) (i t : Z)
    (r : FocusResult) :
  FocusProcessor.process_audio_for_focus env i t = Success r →
  load_duration env = Ok (original_duration r)
  ∧ separate env = Ok () ∧ focus_effects env = Ok ()
  ∧ numpy_to_mp3 env = Ok ()
  ∧ processed_file_path r = temp_file_name env
  ∧ original_bpm r = FocusProcessor.detect_bpm (librosa_tempo env)
  ∧ ¬ (original_bpm r == 0)%Q
  ∧ ¬ (tempo_ratio r == 0)%Q
  ∧ FocusProcessor.calculate_tempo_ratio (original_bpm r) (inject_Z t)
      (inject_Z i) = Ok (tempo_ratio r)
  ∧ processed_bpm r = (original_bpm r * tempo_ratio r)%Q
  ∧ processed_duration r = (original_duration r / tempo_ratio r)%Q
  ∧ res_focus_intensity r = i
  ∧ (0 <= i <= 100 → vocal_reduction_percent r = 7 * i / 10).
Proof.
  unfold FocusProcessor.process_audio_for_focus.
  destruct (FocusProcessor.process_audio_body env i t) as [r'|] eqn:Hbody;
    [|done].
  intros [= ->].
  apply process_audio_body_ok in Hbody
    as (duration & ratio & new_duration & Hl & Hs & Hr & Hd & He & Hm & ->).
  pose proof Hr as [Ho Hratio]%tempo_ratio_nonzero. cbn.
  rewrite py_div_nonzero in Hd by done. injection Hd as <-.
  repeat split; try done.
  intros Hi. unfold py_int. cbn.
  change (Z.pos (1 * 100 * 1)) with 100.
  rewrite Z.quot_div_nonneg by lia.
  replace (i * 1 * 70) with (7 * i * 10) by lia.
  change 100 with (10 * 10). by rewrite Z.div_mul_cancel_r by lia.
Qed.

Lemma pipeline_success_is_consistent_witness :
  ∃ r, FocusProcessor.process_audio_for_focus
         (collaborators_ok 180 120 "/tmp/focus_a.mp3") 50 0 = Success r
       ∧ processed_bpm r = (original_bpm r * tempo_ratio r)%Q
       ∧ processed_duration r = (original_duration r / tempo_ratio r)%Q
       ∧ vocal_reduction_percent r = 35.
Proof.
  eexists. split; [vm_compute; reflexivity|].
  edestruct (pipeline_success_is_consistent
               (collaborators_ok 180 120 "/tmp/focus_a.mp3") 50 0)
    as (_ & _ & _ & _ & _ & _ & _ & _ & _ & H1 & H2 & _ & H3);
    [vm_compute; reflexivity|].
  split; [exact H1|]. split; [exact H2|]. apply H3. lia.
Defined.

(** X11: the pipeline succeeds exactly when loading, separation, effects
    and encoding succeed and the detected tempo is not 0; otherwise it
    answers with a failure and no result. *)
Theorem pipeline_succeeds_iff (env : Collaborators) (i t : Z) :
  (∃ r, FocusProcessor.process_audio_for_focus env i t = Success r)
  ↔ (∃ duration, load_duration env = Ok duration)
    ∧ separate env = Ok () ∧ focus_effects env = Ok ()
    ∧ numpy_to_mp3 env = Ok ()
    ∧ ¬ (FocusProcessor.detect_bpm (librosa_tempo env) == 0)%Q.
Proof.
  split.
  - intros [r Hr].
    unfold FocusProcessor.process_audio_for_focus in Hr.
    destruct (FocusProcessor.process_audio_body env i t) as [r'|] eqn:Hbody;
      [|done].
    apply process_audio_body_ok in Hbody
      as (duration & ratio & new_duration & Hl & Hs & Hratio & _ & He & Hm & _).
    apply tempo_ratio_nonzero in Hratio as [Ho _]. eauto 10.
  - intros ([duration Hl] & Hs & He & Hm & Ho).
    unfold FocusProcessor.process_audio_for_focus,
      FocusProcessor.process_audio_body.
    rewrite Hl, Hs, He, Hm. cbn [mbind result_bind].
    set (o := FocusProcessor.detect_bpm (librosa_tempo env)) in *.
    destruct (FocusProcessor.calculate_tempo_ratio o (inject_Z t) (inject_Z i))
      as [ratio|e] eqn:Hr.
    + apply tempo_ratio_nonzero in Hr as [_ Hratio].
      cbn [mbind result_bind]. rewrite py_div_nonzero by done. cbn. eauto.
    + exfalso. revert Hr. unfold FocusProcessor.calculate_tempo_ratio.
      destruct (Qltb 0 (inject_Z t)); by rewrite py_div_nonzero.
Qed.

(** ** The effect chain *)

Lemma Qabs_max_ge_l (x y : Q) : (x <= Qabs_max x y)%Q.
Proof.
  unfold Qabs_max. destruct (Qltb x y) eqn:E; [|apply Qle_refl].
  apply Qltb_true in E. by apply Qlt_le_weak.
Qed.

Lemma Qabs_max_ge_r (x y : Q) : (y <= Qabs_max x y)%Q.
Proof.
  unfold Qabs_max. destruct (Qltb x y) eqn:E; [apply Qle_refl|].
  by apply Qltb_false in E.
Qed.

Lemma Qabs_max_le (x y b : Q) : (x <= b)%Q → (y <= b)%Q → (Qabs_max x y <= b)%Q.
Proof. unfold Qabs_max. by destruct (Qltb x y). Qed.

Lemma fold_abs_max_spec (l : Samples) (acc : Q) :
  (acc <= foldl (λ m y, Qabs_max m (Qabs y)) acc l)%Q
  ∧ Forall (λ y, (Qabs y <= foldl (λ m y, Qabs_max m (Qabs y)) acc l)%Q) l.
Proof.
  revert acc. induction l as [|x l IH]; intros acc; cbn.
  - split; [apply Qle_refl | constructor].
  - destruct (IH (Qabs_max acc (Qabs x))) as [Hacc Hall]. split.
    + eapply Qle_trans; [apply Qabs_max_ge_l | done].
    + constructor; [|done].
      eapply Qle_trans; [apply Qabs_max_ge_r | done].
Qed.

Lemma fold_abs_max_le (l : Samples) (acc b : Q) :
  (acc <= b)%Q → Forall (λ y, (Qabs y <= b)%Q) l →
  (foldl (λ m y, Qabs_max m (Qabs y)) acc l <= b)%Q.
Proof.
  revert acc. induction l as [|x l IH]; intros acc Hacc Hall; cbn; [done|].
  apply Forall_cons in Hall as [Hx Hall].
  apply IH; [by apply Qabs_max_le | done].
Qed.

Lemma np_max_abs_spec (l : Samples) (m : Q) :
  np_max_abs l = Ok m →
  Forall (λ y, (Qabs y <= m)%Q) l
  ∧ ∀ b, Forall (λ y, (Qabs y <= b)%Q) l → (m <= b)%Q.
Proof.
  destruct l as [|x l]; [done|]. cbn. intros [= <-].
  destruct (fold_abs_max_spec l (Qabs x)) as [Hacc Hall]. split.
  - by constructor.
  - intros b [Hx Hl]%Forall_cons. by apply fold_abs_max_le.
Qed.

Lemma normalize_peak_ok (final_mix out : Samples) :
  normalize_peak final_mix = Ok out →
  length out = length final_mix
  ∧ Forall (λ x, (Qabs x <= 1)%Q) out
  ∧ (Forall (λ x, (Qabs x <= 95 # 100)%Q) final_mix → out = final_mix)
  ∧ (out = final_mix
     ∨ ∃ c, (0 < c)%Q ∧ (c < 1)%Q ∧ out = np_scale final_mix c).
Proof.
  unfold normalize_peak.
  destruct (np_max_abs final_mix) as [max_val|] eqn:Hmax; [|done].
  cbn [mbind result_bind].
  destruct (np_max_abs_spec final_mix max_val Hmax) as [Hall Hleast].
  destruct (Qltb (95 # 100) max_val) eqn:Hpeak.
  - apply Qltb_true in Hpeak.
    rewrite py_div_nonzero by (apply Qpos_nonzero; lra).
    cbn [mbind result_bind]. intros [= <-]. unfold np_scale.
    assert (0 < (95 # 100) / max_val)%Q as Hscale.
    { apply Qlt_shift_div_l; lra. }
    assert ((95 # 100) / max_val < 1)%Q as Hscale1.
    { apply Qlt_shift_div_r; lra. }
    split; [by rewrite length_fmap|]. split; [|split].
    + apply Forall_fmap. eapply Forall_impl; [done|]. intros x Hx.
      cbv beta in Hx. unfold compose.
      rewrite Qabs_Qmult, (Qabs_pos ((95 # 100) / max_val)) by lra.
      assert (max_val * ((95 # 100) / max_val) == 95 # 100)%Q as E.
      { field. apply Qpos_nonzero. lra. }
      eapply Qle_trans;
        [apply Qmult_le_compat_r; [exact Hx | lra] | rewrite E; lra].
    + intros Hsmall. specialize (Hleast _ Hsmall). lra.
    + right. by exists ((95 # 100) / max_val)%Q.
  - apply Qltb_false in Hpeak. intros [= <-].
    split; [done|]. split; [|split; [done | by left]].
    eapply Forall_impl; [done|]. intros x Hx. cbv beta in Hx. lra.
Qed.

(** X12: the peak normalisation never lets a mix clip and only attenuates:
    the mix it returns has the length of its input and no sample above 1
    in absolute value; it is the input itself or the input scaled by one
    factor between 0 and 1; a mix whose samples stay within 0.95 is
    returned unchanged; an empty mix raises. *)
Theorem normalize_peak_limits (final_mix out : Samples) :
  normalize_peak [] = Raise (Exception "zero-size array to reduction operation maximum which has no identity")
  ∧ (normalize_peak final_mix = Ok out →
     length out = length final_mix
     ∧ Forall (λ x, (Qabs x <= 1)%Q) out
     ∧ (Forall (λ x, (Qabs x <= 95 # 100)%Q) final_mix → out = final_mix)
     ∧ (out = final_mix
        ∨ ∃ c, (0 < c)%Q ∧ (c < 1)%Q ∧ out = np_scale final_mix c)).
Proof. split; [done | apply normalize_peak_ok]. Qed.

Lemma normalize_peak_limits_witness :
  ∃ out, normalize_peak [6 # 10; -12 # 10; 3 # 10] = Ok out
         ∧ length out = 3%nat
         ∧ Forall (λ x, (Qabs x <= 1)%Q) out.
Proof.
  eexists. split; [vm_compute; reflexivity|].
  edestruct (normalize_peak_limits [6 # 10; -12 # 10; 3 # 10])
    as [_ (H1 & H2 & _)]; [vm_compute; reflexivity|].
  split; [exact H1 | exact H2].
Defined.

(** X13: whatever the signal primitives answer, a mix returned by
    [apply_focus_effects] does not clip: no sample is above 1 in absolute
    value. *)
Theorem apply_focus_effects_never_clips
    (time_stretch : Samples → Q → pyres Samples)
    (lowpass : Z → Q → Samples → pyres Samples)
    (np_add : Samples → Samples → pyres Samples)
    (vocals accompaniment : Samples) (sample_rate : Z)
    (focus_intensity ratio : Q) (out : Samples) :
  apply_focus_effects time_stretch lowpass np_add vocals accompaniment
                      sample_rate focus_intensity ratio = Ok out →
  Forall (λ x, (Qabs x <= 1)%Q) out.
Proof.
  unfold apply_focus_effects.
  repeat (match goal with
          | |- context [mbind _ ?x] =>
              lazymatch x with
              | normalize_peak _ => fail
              | _ => destruct x eqn:?; cbn [mbind result_bind]; [|done]
              end
          end).
  all: intros Hout.
  all: match type of Hout with
       | normalize_peak ?mix = Ok _ =>
           by destruct (normalize_peak_ok mix out Hout) as (_ & H & _)
       end.
Qed.

Lemma apply_focus_effects_never_clips_witness :
  ∃ out, apply_focus_effects sample_time_stretch sample_lowpass sample_np_add
           [9 # 10; -5 # 10] [8 # 10; -7 # 10] 44100 10 1 = Ok out
         ∧ Forall (λ x, (Qabs x <= 1)%Q) out.
Proof.
  eexists. split; [vm_compute; reflexivity|].
  eapply (apply_focus_effects_never_clips
            sample_time_stretch sample_lowpass sample_np_add
            [9 # 10; -5 # 10] [8 # 10; -7 # 10] 44100 10 1).
  vm_compute; reflexivity.
Defined.

(** X14: up to an intensity of 20 the chain filters nothing; up to 30 it
    filters the accompaniment only; in general the only filters it applies
    are the vocal filter of order 4 at [3000 * (1 - 0.5 * i)] Hz and the
    accompaniment filter of order 3 at [5000 * (1 - 0.3 * i)] Hz, both
    relative to half the sample rate ([i] the intensity over 100). *)
Theorem apply_focus_effects_filters
    (time_stretch : Samples → Q → pyres Samples)
    (lowpass lowpass' : Z → Q → Samples → pyres Samples)
    (np_add : Samples → Samples → pyres Samples)
    (vocals accompaniment : Samples) (sample_rate : Z)
    (focus_intensity ratio : Q) :
  let i := (focus_intensity / 100)%Q in
  let nyquist := (inject_Z sample_rate / 2)%Q in
  let chain lp := apply_focus_effects time_stretch lp np_add vocals
                    accompaniment sample_rate focus_intensity ratio in
  ((focus_intensity <= 20)%Q → chain lowpass = chain lowpass')
  ∧ ((focus_intensity <= 30)%Q →
     (∀ wn y, lowpass 3 wn y = lowpass' 3 wn y) →
     chain lowpass = chain lowpass')
  ∧ ((∀ y, lowpass 4 (3000 * (1 - i * (5 # 10)) / nyquist)%Q y
           = lowpass' 4 (3000 * (1 - i * (5 # 10)) / nyquist)%Q y) →
     (∀ y, lowpass 3 (5000 * (1 - i * (3 # 10)) / nyquist)%Q y
           = lowpass' 3 (5000 * (1 - i * (3 # 10)) / nyquist)%Q y) →
     chain lowpass = chain lowpass').
Proof.
  cbv zeta. unfold apply_focus_effects.
  assert (py_div (inject_Z sample_rate) 2
          = Ok (inject_Z sample_rate / 2)%Q) as Hny by by apply py_div_nonzero.
  split; [|split].
  - intros Hi.
    assert (Qltb (3 # 10) (focus_intensity / 100) = false) as ->.
    { apply Qltb_false. apply Qle_shift_div_r; [reflexivity | lra]. }
    assert (Qltb (2 # 10) (focus_intensity / 100) = false) as ->; [|done].
    apply Qltb_false. apply Qle_shift_div_r; [reflexivity | lra].
  - intros Hi H3.
    assert (Qltb (3 # 10) (focus_intensity / 100) = false) as ->.
    { apply Qltb_false. apply Qle_shift_div_r; [reflexivity | lra]. }
    destruct (time_stretch vocals ratio); [|done]. cbn [mbind result_bind].
    destruct (time_stretch accompaniment ratio); [|done].
    cbn [mbind result_bind].
    destruct (Qltb (2 # 10) (focus_intensity / 100)); [|done].
    rewrite Hny. cbn [mbind result_bind].
    destruct (py_div (5000 * _) _); [|done]. cbn [mbind result_bind].
    by rewrite H3.
  - intros H4 H3. rewrite Hny.
    destruct (time_stretch vocals ratio); [|done]. cbn [mbind result_bind].
    assert (∀ c, py_div c (inject_Z sample_rate / 2)
                 = Ok (c / (inject_Z sample_rate / 2))%Q
                 ∨ py_div c (inject_Z sample_rate / 2)
                   = Raise ZeroDivisionError) as Hdiv.
    { intros c. unfold py_div. destruct (Qeq_bool _ _); auto. }
    destruct (Qltb (3 # 10) (focus_intensity / 100)).
    + cbn [mbind result_bind].
      destruct (Hdiv (3000 * (1 - focus_intensity / 100 * (5 # 10)))%Q)
        as [-> | ->]; [|done].
      cbn [mbind result_bind]. rewrite H4.
      destruct (lowpass' 4 _ _); [|done]. cbn [mbind result_bind].
      destruct (time_stretch accompaniment ratio); [|done].
      cbn [mbind result_bind].
      destruct (Qltb (2 # 10) (focus_intensity / 100)); [|done].
      cbn [mbind result_bind].
      destruct (Hdiv (5000 * (1 - focus_intensity / 100 * (3 # 10)))%Q)
        as [-> | ->]; [|done].
      cbn [mbind result_bind]. by rewrite H3.
    + cbn [mbind result_bind].
      destruct (time_stretch accompaniment ratio); [|done].
      cbn [mbind result_bind].
      destruct (Qltb (2 # 10) (focus_intensity / 100)); [|done].
      cbn [mbind result_bind].
      destruct (Hdiv (5000 * (1 - focus_intensity / 100 * (3 # 10)))%Q)
        as [-> | ->]; [|done].
      cbn [mbind result_bind]. by rewrite H3.
Qed.

Lemma apply_focus_effects_filters_witness :
  apply_focus_effects sample_time_stretch sample_lowpass sample_np_add
    [9 # 10; -5 # 10] [8 # 10; -7 # 10] 44100 10 1
  = apply_focus_effects sample_time_stretch
      (λ _ _ _, Raise (Exception "no filter")) sample_np_add
      [9 # 10; -5 # 10] [8 # 10; -7 # 10] 44100 10 1.
Proof.
  destruct (apply_focus_effects_filters sample_time_stretch sample_lowpass
              (λ _ _ _, Raise (Exception "no filter")) sample_np_add
              [9 # 10; -5 # 10] [8 # 10; -7 # 10] 44100 10 1) as [H _].
  apply H. by vm_compute.
Defined.

(** ** Job records along an execution *)

Lemma estimate_floor (d : Q) (i : Z) :
  (10 <= estimate_processing_duration d i)%Q.
Proof.
  unfold estimate_processing_duration,
    AudioTimeCalculator.estimate_processing_time.
  destruct (py_max_spec (d * (7 # 10) * (1 + inject_Z i / 100 * (3 # 10))) 10)
    as [[? ->]|[? ->]]; [apply Qle_refl | done].
Qed.

Lemma job_evolves_refl (job : ProcessingJob) : job_evolves job job.
Proof.
  unfold job_evolves. repeat split; try done; try lia.
  apply status_may_become_refl.
Qed.

Lemma job_evolves_trans (j1 j2 j3 : ProcessingJob) :
  job_evolves j1 j2 → job_evolves j2 j3 → job_evolves j1 j3.
Proof.
  unfold job_evolves.
  intros (? & ? & ? & ? & ? & ? & Hs1 & ? & Hst1 & Hr1)
         (? & ? & ? & ? & ? & ? & Hs2 & ? & Hst2 & Hr2).
  repeat split; try congruence; try lia; auto.
  by eapply status_may_become_trans.
Qed.

Lemma fresh_job_record_ok (k : string) (song : Z) (path : string)
    (i b : Z) (now : Q) :
  job_record_ok (mkJob k song path i b now PENDING 0 "Initializing"
                       None None None None None).
Proof.
  unfold job_record_ok, job_fields_ok, job_progress_ok, job_times_ok, terminal.
  cbn. repeat split; try done; try lia; try (by intros [? ?]);
    try (by intros [?|[?|?]]); auto.
Qed.

Lemma cancel_record_ok (job : ProcessingJob) (now : Q) :
  job_record_ok job → status job = PENDING ∨ status job = RUNNING →
  job_record_ok (set_completed_at (Some now) (set_status CANCELLED job))
  ∧ job_evolves job (set_completed_at (Some now) (set_status CANCELLED job)).
Proof.
  intros (Hf & (Hp0 & Hp1 & Hp2 & Hp3) & (Ht0 & Ht1 & Ht2 & Ht3)) Hlive.
  destruct (job_fields_live job Hf Hlive) as [Hnr Hne].
  split.
  - unfold job_record_ok, job_fields_ok, job_progress_ok, job_times_ok,
      terminal. cbn.
    repeat split; try done; try lia; auto.
    + left. destruct (error_message job); [|done]. by destruct Hne.
    + intros E. apply Hp3 in E. destruct Hlive; congruence.
    + by intros [?|[?|?]].
  - unfold job_evolves. cbn. repeat split; try done; try lia.
    unfold status_may_become. destruct Hlive as [->| ->]; auto.
Qed.

Lemma coroutine_step_record (t : Task) (input : StepInput) (now : Q)
    (job job' : ProcessingJob) (log : list ProgressUpdate) (pc : ProgramPoint) :
  coroutine_step t input now job = Some (job', log, pc) →
  status job = status_for_task t →
  job_record_ok job →
  job_record_ok job' ∧ job_evolves job job'.
Proof.
  intros Hstep Hstatus (Hf & (Hp0 & Hp1 & Hp2 & Hp3) & (Ht0 & Ht1 & Ht2 & Ht3)).
  pose proof (estimate_floor) as Hfloor.
  destruct Hf as (Hf0 & Hf1 & Hf2 & Hf3).
  unfold job_record_ok, job_fields_ok, job_progress_ok, job_times_ok,
    job_evolves, terminal, status_may_become in *.
  destruct job as [jid song path fi tb created st prog cur res err sa ca ec].
  destruct t as [k tpc tc].
  destruct tpc, tc; try done; vm_compute in Hstatus; subst st;
    unfold coroutine_step, segment_start, segment_sleep1, segment_sleep2,
      segment_executor in Hstep; cbn in *.
  all: try (destruct input as [|d|[r|e]|e]; cbn in *; try done).
  all: injection Hstep as <- <- <-; cbn.
  all: repeat match goal with
              | H : ?x = ?x → _ |- _ => specialize (H eq_refl)
              | H : _ ∧ _ |- _ => destruct H
              end.
  all: repeat match goal with
              | |- _ ∧ _ => split
              | |- _ ↔ _ => split
              end.
  all: try done; try lia; auto.
  all: try (by intros [?|[?|?]]).
  all: try (by intros [? ?]).
  all: try (intros; by eauto).
  all: try tauto.
  all: try (intros; lia).
  all: try (intros; congruence).
  all: try (by intros ?%Hf0).
  all: try (by intros [?|?]%Hf2).
  all: try (by intros [?|[?|?]]%Ht0).
  all: try (intros ec0 [= <-]; exists now; split; [done|];
            apply Qplus_le_r, Hfloor).
  all: try (intros r0 E; rewrite E in Hf0; destruct Hf0 as [Hf0 _];
            by specialize (Hf0 ltac:(eauto))).
Qed.


Lemma task_job_status (q : ProcessingQueue) (h : nat) (t : Task)
    (job : ProcessingJob) :
  queue_inv q → loop_tasks q !! h = Some t → task_pc t ≠ Done →
  dict_get (task_job t) (jobs q) = Some job →
  status job = status_for_task t.
Proof.
  intros Hinv Ht Hpc Hjob.
  destruct (inv_tasks q Hinv h t Ht Hpc) as (job0 & Hjob0 & Hok).
  assert (job0 = job) as -> by congruence.
  unfold status_for_task. destruct (must_cancel t); [done|]. by destruct Hok.
Qed.

Lemma records_step (ev : Event) (q q' : ProcessingQueue) :
  queue_inv q →
  (∀ k job, dict_get k (jobs q) = Some job → job_record_ok job) →
  step ev q = Some q' →
  (∀ k job', dict_get k (jobs q') = Some job' → job_record_ok job')
  ∧ (∀ k job, dict_get k (jobs q) = Some job →
       ∃ job', dict_get k (jobs q') = Some job' ∧ job_evolves job job').
Proof.
  intros Hinv Hok Hstep.
  destruct ev as [k0 song path i b now|k0 now| |h input now]; cbn in Hstep.
  - destruct (dict_get k0 (jobs q)) eqn:Hfresh; [done|]. injection Hstep as <-.
    unfold submit_job. cbn [snd jobs]. rewrite dict_set_fresh by done. split.
    + intros k job'. rewrite dict_get_snoc.
      destruct (dict_get k (jobs q)) eqn:Hk.
      * intros [= <-]. by eapply Hok.
      * destruct (decide (k = k0)); [|done]. intros [= <-].
        apply fresh_job_record_ok.
    + intros k job Hjob. exists job. rewrite dict_get_snoc, Hjob.
      split; [done | apply job_evolves_refl].
  - injection Hstep as <-.
    destruct (cancel_job_unfold k0 now q) as [[-> _]|(job0 & Hj0 & Hlive & ->)].
    { split; [done|]. intros k job Hjob. exists job.
      split; [done | apply job_evolves_refl]. }
    destruct (cancel_record_ok job0 now (Hok _ _ Hj0) Hlive) as [Hok' Hev].
    cbn [snd jobs]. split.
    + intros k job'. rewrite dict_get_alter.
      destruct (decide (k = k0)) as [->|]; [|apply Hok].
      rewrite Hj0. by intros [= <-].
    + intros k job Hjob. rewrite dict_get_alter.
      destruct (decide (k = k0)) as [->|].
      * rewrite Hj0. assert (job0 = job) as -> by congruence. eauto.
      * exists job. split; [done | apply job_evolves_refl].
  - case_bool_decide; [|done]. injection Hstep as <-.
    rewrite worker_iteration_jobs. split; [done|].
    intros k job Hjob. exists job. split; [done | apply job_evolves_refl].
  - destruct (task_step h input now q) as [[q1 log]|] eqn:E; [|done].
    cbn in Hstep. injection Hstep as <-.
    apply task_step_unfold in E
      as (t & job0 & job' & pc & Ht & Hj0 & Hco & ->).
    assert (task_pc t ≠ Done) as Hpc.
    { by apply coroutine_step_spec in Hco as [? _]. }
    destruct (coroutine_step_record t input now job0 job' log pc Hco)
      as [Hok' Hev]; [by eapply task_job_status | by eapply Hok |].
    cbn [jobs]. split.
    + intros k job''. rewrite dict_get_alter.
      destruct (decide (k = task_job t)) as [->|]; [|apply Hok].
      rewrite Hj0. by intros [= <-].
    + intros k job Hjob. rewrite dict_get_alter.
      destruct (decide (k = task_job t)) as [->|].
      * rewrite Hj0. assert (job0 = job) as -> by congruence. eauto.
      * exists job. split; [done | apply job_evolves_refl].
Qed.

Lemma records_run (evs : list Event) (q q' : ProcessingQueue) :
  queue_inv q →
  (∀ k job, dict_get k (jobs q) = Some job → job_record_ok job) →
  run evs q = Some q' →
  (∀ k job', dict_get k (jobs q') = Some job' → job_record_ok job')
  ∧ (∀ k job, dict_get k (jobs q) = Some job →
       ∃ job', dict_get k (jobs q') = Some job' ∧ job_evolves job job').
Proof.
  revert q. induction evs as [|ev evs IH]; intros q Hinv Hok; cbn.
  - intros [= <-]. split; [done|]. intros k job Hjob. exists job.
    split; [done | apply job_evolves_refl].
  - destruct (step ev q) as [q1|] eqn:E; [|done]. cbn. intros Hrun.
    destruct (records_step ev q q1 Hinv Hok E) as [Hok1 Hev1].
    destruct (IH q1 (queue_inv_step _ _ _ Hinv E) Hok1 Hrun) as [Hok' Hev'].
    split; [done|]. intros k job Hjob.
    destruct (Hev1 k job Hjob) as (job1 & Hj1 & He1).
    destruct (Hev' k job1 Hj1) as (job' & Hj' & He').
    exists job'. split; [done|]. by eapply job_evolves_trans.
Qed.

Lemma records_reachable (m : Z) (q : ProcessingQueue) (k : string)
    (job : ProcessingJob) :
  reachable_from (init m) q → dict_get k (jobs q) = Some job →
  job_record_ok job.
Proof.
  intros [evs Hrun].
  by destruct (records_run evs (init m) q (queue_inv_init m)
                 ltac:(done) Hrun) as [Hok _]; apply Hok.
Qed.

(** X15: in every state the queue reaches, the progress of a job lies in
    0..100; it is 0 while the job is [PENDING], between 10 and 20 while it
    is [RUNNING], and 100 exactly when the job is [COMPLETED]. *)
Theorem progress_follows_status (m : Z) (q : ProcessingQueue) (k : string)
    (job : ProcessingJob) :
  reachable_from (init m) q → dict_get k (jobs q) = Some job →
  0 <= progress_percent job <= 100
  ∧ (status job = PENDING → progress_percent job = 0)
  ∧ (status job = RUNNING → 10 <= progress_percent job <= 20)
  ∧ (status job = COMPLETED ↔ progress_percent job = 100).
Proof.
  intros Hreach Hjob.
  by destruct (records_reachable m q k job Hreach Hjob) as (_ & Hp & _).
Qed.

Lemma progress_follows_status_witness :
  ∃ q job,
    run cancelled_while_running (init 2) = Some q
    ∧ dict_get "job-1" (jobs q) = Some job
    ∧ 0 <= progress_percent job <= 100.
Proof.
  destruct (run cancelled_while_running (init 2)) as [q|] eqn:Hrun;
    [|by vm_compute in Hrun].
  destruct (dict_get "job-1" (jobs q)) as [job|] eqn:Hjob.
  - exists q, job. split; [done|]. split; [done|].
    by destruct (progress_follows_status 2 q "job-1" job) as [H _];
      [by exists cancelled_while_running | done |].
  - exfalso. revert Hjob. vm_compute in Hrun. injection Hrun as <-.
    by vm_compute.
Defined.

(** X16: in every state the queue reaches, [completed_at] is set exactly
    on the jobs in a terminal status; a [PENDING] job has neither
    [started_at] nor [estimated_completion]; a [RUNNING], [COMPLETED] or
    [FAILED] job has [started_at]; and an estimated completion lies at
    least 10 seconds after the start. *)
Theorem timestamps_follow_status (m : Z) (q : ProcessingQueue) (k : string)
    (job : ProcessingJob) :
  reachable_from (init m) q → dict_get k (jobs q) = Some job →
  (is_Some (completed_at job)
   ↔ status job = COMPLETED ∨ status job = FAILED ∨ status job = CANCELLED)
  ∧ (status job = PENDING →
     started_at job = None ∧ estimated_completion job = None)
  ∧ (status job = RUNNING ∨ status job = COMPLETED ∨ status job = FAILED →
     is_Some (started_at job))
  ∧ (∀ ec, estimated_completion job = Some ec →
           ∃ s, started_at job = Some s ∧ (s + 10 <= ec)%Q).
Proof.
  intros Hreach Hjob.
  by destruct (records_reachable m q k job Hreach Hjob) as (_ & _ & Ht).
Qed.

Lemma timestamps_follow_status_witness :
  ∃ q job,
    run cancelled_while_running (init 2) = Some q
    ∧ dict_get "job-1" (jobs q) = Some job
    ∧ (is_Some (completed_at job)
       ↔ status job = COMPLETED ∨ status job = FAILED
         ∨ status job = CANCELLED).
Proof.
  destruct (run cancelled_while_running (init 2)) as [q|] eqn:Hrun;
    [|by vm_compute in Hrun].
  destruct (dict_get "job-1" (jobs q)) as [job|] eqn:Hjob.
  - exists q, job. split; [done|]. split; [done|].
    by destruct (timestamps_follow_status 2 q "job-1" job) as [H _];
      [by exists cancelled_while_running | done |].
  - exfalso. revert Hjob. vm_compute in Hrun. injection Hrun as <-.
    by vm_compute.
Defined.

(** X17: along every execution that continues from a reachable state a
    job is never removed, its id, song, file, parameters and creation time
    never change, its status only moves forward ([PENDING] to anything,
    [RUNNING] to [RUNNING] or a terminal status, a terminal status stays),
    its progress never decreases, and [started_at] and [result], once set,
    keep their value. *)
Theorem job_record_only_moves_forward (m : Z) (pre evs : list Event)
    (q q' : ProcessingQueue) (k : string) (job : ProcessingJob) :
  run pre (init m) = Some q → run evs q = Some q' →
  dict_get k (jobs q) = Some job →
  ∃ job',
    dict_get k (jobs q') = Some job'
    ∧ (job_id job', song_id job', input_file_path job',
       focus_intensity job', target_bpm job', created_at job')
      = (job_id job, song_id job, input_file_path job,
         focus_intensity job, target_bpm job, created_at job)
    ∧ (status job ≠ PENDING → status job' ≠ PENDING)
    ∧ (terminal (status job) → status job' = status job)
    ∧ progress_percent job <= progress_percent job'
    ∧ (∀ s, started_at job = Some s → started_at job' = Some s)
    ∧ (∀ r, result job = Some r → result job' = Some r).
Proof.
  intros Hpre Hrun Hjob.
  assert (queue_inv q) as Hinv by (by eapply queue_inv_reachable; eexists).
  assert (∀ k job, dict_get k (jobs q) = Some job → job_record_ok job) as Hok.
  { intros k0 job0. apply (records_reachable m). by exists pre. }
  destruct (records_run evs q q' Hinv Hok Hrun) as [_ Hev].
  destruct (Hev k job Hjob)
    as (job' & Hj' & E1 & E2 & E3 & E4 & E5 & E6 & Hs & Hp & Hst & Hres).
  exists job'. split; [done|]. split; [congruence|].
  unfold terminal, status_may_become in *.
  repeat split; try done.
  - intros Hne E. rewrite E in Hs. by destruct Hs as [?|[?|[_ ?]]].
  - intros Hterm. destruct Hs as [?|[?|[? _]]]; [done|..];
      destruct Hterm as [?|[?|?]]; congruence.
Qed.

Lemma job_record_only_moves_forward_witness :
  ∃ q q' job job',
    run cancelled_while_pending (init 2) = Some q
    ∧ run [WorkerIteration; TaskStep 0 (Analysis 180) 1] q = Some q'
    ∧ dict_get "job-1" (jobs q) = Some job
    ∧ dict_get "job-1" (jobs q') = Some job'
    ∧ progress_percent job <= progress_percent job'.
Proof.
  destruct (run cancelled_while_pending (init 2)) as [q|] eqn:Hq;
    [|by vm_compute in Hq].
  destruct (run [WorkerIteration; TaskStep 0 (Analysis 180) 1] q)
    as [q'|] eqn:Hq'.
  - destruct (dict_get "job-1" (jobs q)) as [job|] eqn:Hjob.
    + destruct (job_record_only_moves_forward 2 cancelled_while_pending
                  [WorkerIteration; TaskStep 0 (Analysis 180) 1]
                  q q' "job-1" job Hq Hq' Hjob)
        as (job' & Hj' & _ & _ & _ & Hp & _).
      exists q, q', job, job'.
      split; [reflexivity|]. split; [exact Hq'|]. split; [exact Hjob|].
      split; [exact Hj' | exact Hp].
    + exfalso. clear Hq'. revert Hjob. vm_compute in Hq.
      injection Hq as <-. by vm_compute.
  - exfalso. revert Hq'. vm_compute in Hq. injection Hq as <-.
    by vm_compute.
Defined.

(** ** The worker loop, for any limit *)

Lemma init_running_bound (m : Z) : 0 <= m → running_bound (init m).
Proof. intros Hm. unfold running_bound. cbn. rewrite map_size_empty. lia. Qed.

(** X18: in every state that a queue created with a limit [m >= 0] can
    reach, [running_jobs] has at most [m] entries, at most [m] jobs are
    [RUNNING], and any set of distinct tasks that are neither finished nor
    cancelled has at most [m] members. *)
Theorem running_jobs_within_limit (m : Z) (q : ProcessingQueue) :
  0 <= m → reachable_from (init m) q →
  Z.of_nat (size (running_jobs q)) <= m
  ∧ Z.of_nat (count_status RUNNING q) <= m
  ∧ ∀ hs : list nat,
      NoDup hs →
      (∀ h, h ∈ hs → ∃ t, loop_tasks q !! h = Some t
                          ∧ task_pc t ≠ Done ∧ must_cancel t = false) →
      Z.of_nat (length hs) <= m.
Proof.
  intros Hm Hreach.
  assert (queue_inv q) as Hinv by by eapply queue_inv_reachable.
  destruct Hreach as [evs Hrun].
  assert (running_bound q) as Hb
    by (eapply running_bound_run; [by apply init_running_bound | done]).
  pose proof (run_max_concurrent _ _ _ Hrun) as Hmax. cbn in Hmax.
  unfold running_bound in Hb. rewrite Hmax in Hb.
  split; [done|]. split.
  { pose proof (count_running_le_size q Hinv). lia. }
  intros hs Hnd Hlive.
  assert (∀ h, h ∈ hs → ∃ k, running_jobs q !! k = Some h) as Hreg.
  { intros h Hin. destruct (Hlive h Hin) as (t & Ht & Hpc & Hc).
    destruct (inv_tasks q Hinv h t Ht Hpc) as (job & _ & Hok).
    rewrite Hc in Hok. destruct Hok as [Hr _]. eauto. }
  enough (length hs ≤ size (running_jobs q))%nat by lia.
  clear Hlive Hb Hmax Hrun Hinv. revert Hnd Hreg.
  generalize (running_jobs q) as r. clear.
  induction hs as [|h hs IH]; intros r Hnd Hreg; cbn; [lia|].
  apply NoDup_cons in Hnd as [Hnotin Hnd].
  destruct (Hreg h) as [k Hk]; [left|].
  specialize (IH (delete k r) Hnd).
  rewrite map_size_delete, Hk in IH. cbn in IH.
  assert (size r ≠ 0%nat).
  { intros E%map_size_empty_inv. subst r. by rewrite lookup_empty in Hk. }
  enough (length hs ≤ Nat.pred (size r))%nat by lia.
  apply IH. intros h' Hin'.
  destruct (Hreg h') as [k' Hk']; [by right|].
  exists k'. rewrite lookup_delete_ne; [done|].
  intros <-. assert (h = h') by congruence. by subst.
Qed.

Lemma running_jobs_within_limit_witness :
  ∃ q, run (three_submitted ++ [WorkerIteration]) (init 2) = Some q
       ∧ Z.of_nat (size (running_jobs q)) <= 2
       ∧ Z.of_nat (count_status RUNNING q) <= 2.
Proof.
  destruct (run (three_submitted ++ [WorkerIteration]) (init 2))
    as [q|] eqn:Hq; [|by vm_compute in Hq].
  exists q. split; [reflexivity|].
  destruct (running_jobs_within_limit 2 q) as (H1 & H2 & _).
  - lia.
  - by exists (three_submitted ++ [WorkerIteration]).
  - split; [exact H1 | exact H2].
Defined.

Lemma worker_iteration_tasks (q : ProcessingQueue) :
  running_bound q →
  loop_tasks (worker_iteration q)
  = loop_tasks q
    ++ ((λ k, mkTask k AtStart false)
        <$> take (Z.to_nat (max_concurrent_jobs q
                            - Z.of_nat (size (running_jobs q))))
                 (job_id <$> filter (λ job, status job = PENDING)
                                    (dict_values (jobs q)))).
Proof.
  intros Hb.
  unfold worker_iteration. rewrite del_runnings_tasks, start_jobs_tasks.
  f_equal. unfold py_slice_to, running_bound in *.
  destruct (0 <=? _) eqn:E; [|lia].
  by rewrite <- fmap_take, <- list_fmap_compose.
Qed.

(** X19: the worker admits the oldest pending jobs: when [running_jobs]
    is within the limit, one iteration creates one task for each of the
    first [max_concurrent_jobs - len(running_jobs)] pending jobs, in the
    order of [jobs], and changes no job record. *)
Theorem worker_admits_oldest_pending (q : ProcessingQueue) :
  running_bound q →
  let pending_ids :=
    job_id <$> filter (λ job, status job = PENDING) (dict_values (jobs q)) in
  let free :=
    Z.to_nat (max_concurrent_jobs q - Z.of_nat (size (running_jobs q))) in
  loop_tasks (worker_iteration q)
  = loop_tasks q
    ++ ((λ k, mkTask k AtStart false) <$> take free pending_ids)
  ∧ jobs (worker_iteration q) = jobs q.
Proof.
  intros Hb pending_ids free.
  split; [by apply worker_iteration_tasks | apply worker_iteration_jobs].
Qed.

Lemma worker_admits_oldest_pending_witness :
  ∃ q, run three_submitted (init 2) = Some q
       ∧ loop_tasks (worker_iteration q)
         = [mkTask "job-1" AtStart false; mkTask "job-2" AtStart false].
Proof.
  destruct (run three_submitted (init 2)) as [q|] eqn:Hq;
    [|by vm_compute in Hq].
  exists q. split; [reflexivity|].
  destruct (worker_admits_oldest_pending q) as [-> _].
  - vm_compute in Hq. injection Hq as <-. by vm_compute.
  - vm_compute in Hq. injection Hq as <-. by vm_compute.
Defined.
Lemma del_runnings_lookup (ids : list string) (q : ProcessingQueue) (k : string) :
  running_jobs (foldl del_running q ids) !! k
  = if decide (k ∈ ids) then None else running_jobs q !! k.
Proof.
  revert q. induction ids as [|k0 ids IH]; intros q; cbn [foldl].
  - rewrite decide_False; [done|]. apply not_elem_of_nil.
  - rewrite IH. cbn [del_running running_jobs].
    destruct (decide (k = k0)) as [->|Hne].
    + rewrite lookup_delete_eq, (decide_True (P := k0 ∈ k0 :: ids)) by left.
      by case_decide.
    + rewrite lookup_delete_ne by done.
      destruct (decide (k ∈ ids)) as [Hin|Hnotin].
      * by rewrite decide_True by by right.
      * rewrite decide_False; [done|]. by intros [?|?]%elem_of_cons.
Qed.

Lemma start_jobs_lookup (l : list ProcessingJob) (q : ProcessingQueue)
    (k : string) :
  k ∉ job_id <$> l →
  running_jobs (foldl start_job q l) !! k = running_jobs q !! k.
Proof.
  revert q. induction l as [|job l IH]; intros q Hnotin; [done|].
  rewrite fmap_cons in Hnotin. apply not_elem_of_cons in Hnotin as [Hne Hnotin].
  cbn [foldl]. rewrite IH by done. cbn [start_job running_jobs].
  by rewrite lookup_insert_ne.
Qed.

Lemma start_jobs_task_done (l : list ProcessingJob) (q : ProcessingQueue)
    (h : nat) :
  (h < length (loop_tasks q))%nat →
  task_done (foldl start_job q l) h = task_done q h.
Proof.
  intros Hlt. unfold task_done.
  by rewrite start_jobs_tasks, lookup_app_l by done.
Qed.

(** X20: on a reachable queue an iteration of the worker unregisters
    exactly the finished tasks: afterwards no entry of [running_jobs]
    refers to a finished task, an entry whose task has not finished is
    kept, and an entry whose task has finished is gone. *)
Theorem worker_reaps_finished_only (m : Z) (q q' : ProcessingQueue)
    (k : string) (h : nat) :
  reachable_from (init m) q → step WorkerIteration q = Some q' →
  (running_jobs q' !! k = Some h → task_done q' h = false)
  ∧ (running_jobs q !! k = Some h → task_done q h = false →
     running_jobs q' !! k = Some h)
  ∧ (running_jobs q !! k = Some h → task_done q h = true →
     running_jobs q' !! k ≠ Some h).
Proof.
  intros Hinv%queue_inv_reachable. cbn. case_bool_decide as Hstarted; [|done].
  intros [= <-].
  assert (∀ k h, running_jobs (worker_iteration q) !! k = Some h →
                 task_done (worker_iteration q) h = false) as Hclean.
  { clear k h. intros k h. unfold worker_iteration.
    set (q1 := foldl start_job q _).
    rewrite del_runnings_lookup. case_decide as Hin; [done|]. intros Hk.
    unfold task_done. rewrite del_runnings_tasks.
    fold (task_done q1 h). destruct (task_done q1 h) eqn:Hd; [|done].
    destruct Hin. apply list_elem_of_fmap. exists (k, h). split; [done|].
    apply list_elem_of_filter. split; [done|]. by apply elem_of_map_to_list. }
  assert (∀ h, is_Some (loop_tasks q !! h) →
               task_done (worker_iteration q) h = task_done q h) as Hsame.
  { intros h0 Hh0%lookup_lt_is_Some. unfold worker_iteration.
    set (q1 := foldl start_job q _).
    transitivity (task_done q1 h0).
    - unfold task_done. by rewrite del_runnings_tasks.
    - by apply start_jobs_task_done. }
  split; [apply Hclean|]. split.
  - intros Hk Hd.
    destruct (inv_running_jobs q Hinv k h Hk) as (t & Ht & Htk).
    assert (task_pc t ≠ Done) as Hpc.
    { unfold task_done in Hd. rewrite Ht in Hd.
      by apply bool_decide_eq_false in Hd. }
    assert (∀ job, dict_get k (jobs q) = Some job → status job ≠ PENDING)
      as Hnp.
    { intros job Hjob.
      destruct (inv_tasks q Hinv h t Ht Hpc) as (job0 & Hjob0 & Hok).
      rewrite Htk in Hjob0. assert (job0 = job) as -> by congruence.
      destruct (must_cancel t); [congruence|]. destruct Hok as [_ ->].
      rewrite Forall_forall in Hstarted.
      rewrite decide_False; [done|].
      apply Hstarted. by eapply list_elem_of_lookup_2. }
    unfold worker_iteration.
    set (n := max_concurrent_jobs q - Z.of_nat (size (running_jobs q))).
    set (l := py_slice_to _ n). set (q1 := foldl start_job q l).
    destruct (pending_slice_facts q n Hinv) as [Hall _]. fold l in Hall.
    assert (running_jobs q1 !! k = Some h) as Hk1.
    { unfold q1. rewrite start_jobs_lookup; [done|].
      intros (job & -> & Hin)%list_elem_of_fmap.
      rewrite Forall_forall in Hall. destruct (Hall job Hin) as [Hjob Hp].
      by apply (Hnp job). }
    rewrite del_runnings_lookup. rewrite decide_False; [done|].
    intros ([k0 h0] & -> & [Hd0 Hin]%list_elem_of_filter)%list_elem_of_fmap.
    apply elem_of_map_to_list in Hin. cbn in *.
    assert (h0 = h) as -> by congruence.
    unfold q1 in Hd0. rewrite start_jobs_task_done in Hd0; [congruence|].
    by eapply lookup_lt_Some.
  - intros Hk Hd Hk'.
    destruct (inv_running_jobs q Hinv k h Hk) as (t & Ht & _).
    specialize (Hclean k h Hk'). rewrite Hsame in Hclean by eauto. congruence.
Qed.

Lemma worker_reaps_finished_only_witness :
  ∃ q q', run one_failed_one_running (init 2) = Some q
          ∧ step WorkerIteration q = Some q'
          ∧ running_jobs q !! "job-1" = Some 0%nat
          ∧ task_done q 0 = true
          ∧ running_jobs q' !! "job-1" ≠ Some 0%nat
          ∧ running_jobs q !! "job-2" = Some 1%nat
          ∧ task_done q 1 = false
          ∧ running_jobs q' !! "job-2" = Some 1%nat
          ∧ task_done q' 1 = false.
Proof.
  eexists _, _.
  split; [vm_compute; reflexivity|].
  match goal with |- step _ ?q0 = _ ∧ _ => pose (q := q0) end.
  split; [vm_compute; reflexivity|].
  match goal with |- _ ∧ _ ∧ running_jobs ?q0 !! _ ≠ _ ∧ _ =>
    pose (q' := q0) end.
  assert (reachable_from (init 2) q) as Hreach.
  { exists one_failed_one_running. vm_compute. reflexivity. }
  assert (step WorkerIteration q = Some q') as Hstep.
  { vm_compute. reflexivity. }
  assert (running_jobs q !! "job-1" = Some 0%nat) as H1
    by (vm_compute; reflexivity).
  assert (task_done q 0 = true) as Hd1 by (vm_compute; reflexivity).
  assert (running_jobs q !! "job-2" = Some 1%nat) as H2
    by (vm_compute; reflexivity).
  assert (task_done q 1 = false) as Hd2 by (vm_compute; reflexivity).
  destruct (worker_reaps_finished_only 2 q q' "job-1" 0 Hreach Hstep)
    as (_ & _ & Hgone).
  destruct (worker_reaps_finished_only 2 q q' "job-2" 1 Hreach Hstep)
    as (Hclean & Hkept & _).
  split; [exact H1|]. split; [exact Hd1|].
  split; [exact (Hgone H1 Hd1)|].
  split; [exact H2|]. split; [exact Hd2|].
  split; [exact (Hkept H2 Hd2)|].
  exact (Hclean (Hkept H2 Hd2)).
Defined.

(** ** Events and job records *)

Lemma dict_get_set {V} (d : pydict V) (k k' : string) (v : V) :
  dict_get k' (dict_set k v d)
  = if decide (k' = k) then Some v else dict_get k' d.
Proof.
  induction d as [|[k0 v0] d IH]; cbn; [by case_decide|].
  destruct (decide (k = k0)) as [->|Hk]; cbn.
  - destruct (decide (k' = k0)) as [->|Hk']; [done|]. done.
  - destruct (decide (k' = k0)) as [->|Hk'].
    + by rewrite decide_False.
    + done.
Qed.

(** X21: an event changes at most the job record it addresses: a
    submission or cancellation leaves every other job as it was, a step of
    a task changes only the job of that task, and an iteration of the
    worker changes no job record at all. *)
Theorem events_touch_one_job (ev : Event) (q q' : ProcessingQueue)
    (k : string) :
  step ev q = Some q' → event_job q ev ≠ Some k →
  get_job_status k q' = get_job_status k q.
Proof.
  unfold get_job_status.
  destruct ev as [k0 song path i b now|k0 now| |h input now]; cbn.
  - destruct (dict_get k0 (jobs q)); [done|]. intros [= <-] Hne. cbn.
    rewrite dict_get_set, decide_False; [done|]. congruence.
  - intros [= <-] Hne.
    destruct (cancel_job_unfold k0 now q) as [[-> _]|(job & _ & _ & ->)];
      [done|].
    cbn. rewrite dict_get_alter, decide_False; [done|]. congruence.
  - case_bool_decide; [|done]. intros [= <-] _.
    by rewrite worker_iteration_jobs.
  - destruct (task_step h input now q) as [[q1 log]|] eqn:E; [|done].
    cbn. intros [= <-].
    apply task_step_unfold in E as (t & job & job' & pc & Ht & _ & _ & ->).
    rewrite Ht. cbn. intros Hne.
    rewrite dict_get_alter, decide_False; [done|]. congruence.
Qed.

Lemma events_touch_one_job_witness :
  ∃ q q', run three_submitted (init 2) = Some q
          ∧ step (Cancel "job-2" 5) q = Some q'
          ∧ get_job_status "job-1" q' = get_job_status "job-1" q.
Proof.
  destruct (run three_submitted (init 2)) as [q|] eqn:Hq;
    [|by vm_compute in Hq].
  eexists q, _. split; [reflexivity|]. split; [reflexivity|].
  apply (events_touch_one_job (Cancel "job-2" 5)); [reflexivity|].
  cbn. discriminate.
Defined.
(** X22: a submitted job can be looked up under the returned id: it is
    [PENDING] at 0 percent with the submitted parameters, and the queue
    information counts one more job, one more pending job and the same
    number of running, completed and failed jobs. *)
Theorem submit_then_lookup (k : string) (song : Z) (path : string)
    (i b : Z) (now : Q) (q : ProcessingQueue) :
  dict_get k (jobs q) = None →
  let r := submit_job k song path i b now q in
  r.1 = k
  ∧ (∃ job, get_job_status r.1 r.2 = Some job
            ∧ status job = PENDING ∧ progress_percent job = 0
            ∧ song_id job = song ∧ input_file_path job = path
            ∧ focus_intensity job = i ∧ target_bpm job = b
            ∧ result job = None ∧ error_message job = None)
  ∧ total_jobs (get_queue_info r.2) = S (total_jobs (get_queue_info q))
  ∧ pending (get_queue_info r.2) = S (pending (get_queue_info q))
  ∧ running (get_queue_info r.2) = running (get_queue_info q)
  ∧ completed (get_queue_info r.2) = completed (get_queue_info q)
  ∧ failed (get_queue_info r.2) = failed (get_queue_info q).
Proof.
  intros Hfresh r. unfold r, submit_job, get_job_status. cbn [fst snd jobs].
  split; [done|]. split.
  { eexists. rewrite dict_get_set, decide_True by done. by split. }
  unfold get_queue_info. cbn [total_jobs pending running completed failed].
  rewrite !count_status_length. cbn [jobs].
  rewrite dict_set_fresh by done. unfold dict_values.
  rewrite !fmap_app, !filter_app, !length_app. cbn [fmap list_fmap snd].
  rewrite (filter_cons_True (λ job, status job = PENDING)) by done.
  rewrite !filter_cons_False, !filter_nil by done. cbn. lia.
Qed.

Lemma submit_then_lookup_witness :
  ∃ job, get_job_status "job-1"
           (submit_job "job-1" 1 "/music/a.mp3" 50 0 0 (init 2)).2 = Some job
         ∧ status job = PENDING
         ∧ total_jobs (get_queue_info
             (submit_job "job-1" 1 "/music/a.mp3" 50 0 0 (init 2)).2) = 1%nat.
Proof.
  destruct (submit_then_lookup "job-1" 1 "/music/a.mp3" 50 0 0 (init 2))
    as (_ & (job & Hjob & Hs & _) & Ht & _); [reflexivity|].
  exists job. split; [exact Hjob|]. split; [exact Hs | exact Ht].
Defined.

(** X23: the system status of a reachable queue with limit [m >= 0] is
    ['busy'] exactly when [m] jobs are [RUNNING]; a busy queue has no free
    slot, so the next iteration of the worker creates no task. *)
Theorem busy_queue_admits_nothing (m : Z) (q : ProcessingQueue) :
  0 <= m → reachable_from (init m) q →
  ((get_queue_status q).2 = "busy"%string
   ↔ Z.of_nat (running (get_queue_status q).1) = m)
  ∧ ((get_queue_status q).2 = "busy"%string →
     loop_tasks (worker_iteration q) = loop_tasks q).
Proof.
  intros Hm Hreach.
  assert (queue_inv q) as Hinv by by eapply queue_inv_reachable.
  pose proof (running_count_bounded m q Hm Hreach) as Hcount.
  destruct Hreach as [evs Hrun].
  assert (running_bound q) as Hb
    by (eapply running_bound_run; [by apply init_running_bound | done]).
  pose proof (run_max_concurrent _ _ _ Hrun) as Hmax. cbn in Hmax.
  pose proof (count_running_le_size q Hinv) as Hsize.
  unfold get_queue_status, get_queue_info.
  cbn [fst snd running max_concurrent]. rewrite Hmax.
  assert (∀ b : bool, (if b then "healthy" else "busy") = "busy"%string
                      ↔ b = false) as Hstr by (by intros []).
  rewrite Hstr, Z.ltb_ge. split; [lia|]. intros Hbusy.
  rewrite (worker_iteration_tasks q Hb).
  unfold running_bound in Hb. rewrite Hmax in *.
  replace (Z.to_nat _) with 0%nat by lia.
  by rewrite take_0, fmap_nil, app_nil_r.
Qed.

Lemma busy_queue_admits_nothing_witness :
  ∃ q, run [Submit "job-1" 1 "/music/a.mp3" 50 0 0; WorkerIteration;
            TaskStep 0 (Analysis 180) 1;
            Submit "job-2" 2 "/music/b.mp3" 50 0 2] (init 1) = Some q
       ∧ (get_queue_status q).2 = "busy"%string
       ∧ loop_tasks (worker_iteration q) = loop_tasks q.
Proof.
  destruct (run [Submit "job-1" 1 "/music/a.mp3" 50 0 0; WorkerIteration;
                 TaskStep 0 (Analysis 180) 1;
                 Submit "job-2" 2 "/music/b.mp3" 50 0 2] (init 1))
    as [q|] eqn:Hq; [|by vm_compute in Hq].
  exists q. split; [reflexivity|].
  assert ((get_queue_status q).2 = "busy"%string) as Hbusy.
  { vm_compute in Hq. injection Hq as <-. by vm_compute. }
  split; [exact Hbusy|].
  destruct (busy_queue_admits_nothing 1 q) as [_ H].
  - lia.
  - by eexists.
  - exact (H Hbusy).
Defined.
(** ** The API on top of the queue and the cache *)

(** X24: whatever the analysis says, the recommended intensity lies in
    25..80, at most three reasons are given, and the recommended tempo is
    0 (automatic) unless the analysed tempo exceeds 140, in which case it
    is six tenths of that tempo and above 84: the floor of 80 in
    [max(80, tempo * 0.6)] never applies. *)
Theorem recommendations_in_range (analysis : AnalysisDict) :
  let r := _generate_focus_recommendations analysis in
  let tempo := default 120%Q (an_tempo analysis) in
  25 <= recommended_intensity r <= 80
  ∧ (length (reasoning r) ≤ 3)%nat
  ∧ ((tempo <= 140)%Q → recommended_target_bpm r = 0%Q)
  ∧ ((140 < tempo)%Q →
     recommended_target_bpm r = (tempo * (6 # 10))%Q
     ∧ (84 < recommended_target_bpm r)%Q).
Proof.
  intros r tempo. unfold r, _generate_focus_recommendations. fold tempo.
  destruct (Qltb 140 tempo) eqn:Hfast.
  - apply Qltb_true in Hfast.
    assert (py_max 80 (tempo * (6 # 10)) = (tempo * (6 # 10))%Q) as Hmax.
    { unfold py_max.
      destruct (Qltb 80 (tempo * (6 # 10))) eqn:E; [done|].
      apply Qltb_false in E. lra. }
    repeat case_decide; destruct (Qltb (6 # 10) _);
      cbn [recommended_intensity recommended_target_bpm reasoning];
      rewrite ?Hmax, ?length_app; cbn [length];
      (split; [lia|]); (split; [lia|]);
      (split; [intros; lra|]); intros _; (split; [done|lra]).
  - apply Qltb_false in Hfast.
    destruct (Qltb tempo 80); repeat case_decide;
      destruct (Qltb (6 # 10) _);
      cbn [recommended_intensity recommended_target_bpm reasoning];
      rewrite ?length_app; cbn [length];
      (split; [lia|]); (split; [lia|]);
      (split; [done|]); intros; lra.
Qed.

Lemma cached_lookup (fs : FileSystem) (db : Table) (song i t : Z) :
  match head (query_versions song i (inject_Z t) db) with
  | Some row => bool_decide (is_Some (fs (processed_filepath row)))
  | None => false
  end
  = is_response (download_cached_processed_audio fs song i t db).1.
Proof.
  unfold download_cached_processed_audio.
  destruct (head _) as [row|]; [|done].
  destruct (fs (processed_filepath row)) eqn:E; cbn [fst is_response].
  - by apply bool_decide_eq_true_2.
  - apply bool_decide_eq_false_2. by intros [? ?].
Qed.

(** X25: the two endpoints agree on what is cached: for a fresh job id,
    [start_focus_processing] answers ["cached"] exactly when
    [download_cached_processed_audio] serves a file for the same song and
    parameters; in that case neither the queue nor the table changes. *)
Theorem cached_answer_is_downloadable (fs : FileSystem) (db : Table)
    (song : Z) (path : string) (dur : option Q) (i t : Z) (uuid : string)
    (now : Q) (q : ProcessingQueue) :
  uuid ≠ "cached"%string →
  let started := start_focus_processing fs db song path dur i t uuid now q in
  let served := download_cached_processed_audio fs song i t db in
  (resp_job_id started.1 = "cached"%string ↔ is_response served.1 = true)
  ∧ (resp_job_id started.1 = "cached"%string →
     started.2 = q ∧ served.2 = db
     ∧ ∃ row, row ∈ db ∧ version_matches song i (inject_Z t) row = true
              ∧ served.1 = Response (processed_filepath row)).
Proof.
  intros Huuid started served.
  assert ((resp_job_id started.1 = "cached"%string → started.2 = q)
          ∧ (resp_job_id started.1 = "cached"%string
             ↔ is_response served.1 = true)) as [Hq Hiff].
  { unfold started, served, start_focus_processing.
    rewrite cached_lookup.
    destruct (is_response _); cbn; [done|]. split; [done|]. by split. }
  split; [done|]. intros Hc. split; [by apply Hq|].
  apply Hiff in Hc. unfold served in *. clear started Hq Hiff.
  unfold download_cached_processed_audio in *.
  destruct (head _) as [row|] eqn:Hrow; [|done].
  destruct (fs (processed_filepath row)); [|done].
  split; [done|]. exists row.
  apply head_Some_elem_of, list_elem_of_filter in Hrow as [Hm Hin]. done.
Qed.

Lemma cached_answer_is_downloadable_witness :
  is_response
    (download_cached_processed_audio no_files 7 50 90 stale_table).1 = false
  ∧ resp_job_id
      (start_focus_processing no_files stale_table 7 "/music/a.mp3" None
         50 90 "job-1" 0 (init 2)).1 ≠ "cached"%string.
Proof.
  split; [reflexivity|].
  destruct (cached_answer_is_downloadable no_files stale_table 7
              "/music/a.mp3" None 50 90 "job-1" 0 (init 2)) as [H _];
    [discriminate|].
  intros Hc. apply H in Hc. discriminate Hc.
Defined.

Lemma filter_elem_shorter {A} (P : A → Prop) `{∀ x, Decision (P x)}
    (l : list A) (x : A) :
  x ∈ l → ¬ P x → (length (filter P l) < length l)%nat.
Proof.
  intros (l1 & l2 & ->)%list_elem_of_split Hx.
  rewrite filter_app, filter_cons_False by done.
  rewrite !length_app. cbn [length].
  pose proof (length_filter P l1). pose proof (length_filter P l2). lia.
Qed.

(** X26: [download_cached_processed_audio] never adds a row.  It changes
    the table only when the file of the matching row is gone from the
    disk: then that row is deleted, every row with another id is kept,
    and the table is strictly shorter. *)
Theorem stale_cache_row_removed (fs : FileSystem) (song i t : Z)
    (db : Table) :
  let served := download_cached_processed_audio fs song i t db in
  served.2 `sublist_of` db
  ∧ (is_response served.1 = true → served.2 = db)
  ∧ (served.2 ≠ db →
     ∃ row, head (cache_entries (song, i, inject_Z t) db) = Some row
            ∧ fs (processed_filepath row) = None
            ∧ served.1
              = HTTPException 404 "Processed file not found on disk"
            ∧ ¬ (row ∈ served.2)
            ∧ (∀ pv, pv ∈ db → pv_id pv ≠ pv_id row → pv ∈ served.2)
            ∧ (length served.2 < length db)%nat).
Proof.
  intros served. unfold served, download_cached_processed_audio, cache_entries.
  destruct (head _) as [row|] eqn:Hrow; [|done].
  destruct (fs (processed_filepath row)) eqn:Hfs; [done|].
  cbn [fst snd]. split; [apply sublist_filter|]. split; [done|].
  intros _. exists row.
  apply head_Some_elem_of, list_elem_of_filter in Hrow as [Hm Hin].
  repeat split; try done.
  - unfold db_delete. by intros [? _]%list_elem_of_filter.
  - intros pv Hpv Hne. unfold db_delete. by apply list_elem_of_filter.
  - unfold db_delete. apply (filter_elem_shorter _ _ row); [done|].
    intros Hne. by apply Hne.
Qed.

Lemma stale_cache_row_removed_witness :
  (download_cached_processed_audio no_files 7 50 90 stale_table).2 = [].
Proof.
  destruct (stale_cache_row_removed no_files 7 50 90 stale_table)
    as (_ & _ & H).
  destruct H as (row & _ & _ & _ & _ & _ & Hlen); [discriminate|].
  destruct (download_cached_processed_audio no_files 7 50 90 stale_table).2
    eqn:E; [reflexivity|].
  exfalso. vm_compute in E. discriminate E.
Defined.

Lemma download_response (fs : FileSystem) (k : string) (q : ProcessingQueue)
    (db db' : Table) (p : string) :
  download_processed_audio fs k q db = (Response p, db') →
  ∃ job res size,
    get_job_status k q = Some job ∧ status job = COMPLETED
    ∧ result job = Some res ∧ p = processed_file_path res
    ∧ fs p = Some size
    ∧ db' = db ++ [ {| pv_id := 1 + foldr Z.max 0 (pv_id <$> db);
                       pv_song_id := song_id job;
                       pv_focus_intensity := res_focus_intensity res;
                       pv_target_bpm := Some (processed_bpm res);
                       processed_filepath := processed_file_path res;
                       pv_processed_duration := Some (processed_duration res);
                       actual_bpm := Some (processed_bpm res);
                       pv_file_size := Some size |} ].
Proof.
  unfold download_processed_audio. case_decide; [done|].
  destruct (get_job_status k q) as [job|]; [|done].
  case_bool_decide as Hs; [|done]. cbn [negb].
  destruct (result job) as [res|] eqn:Hres; [|done].
  case_decide; [done|].
  destruct (fs (processed_file_path res)) as [size|] eqn:Hfs; [|done].
  intros [= <- <-]. by exists job, res, size.
Qed.

Lemma inject_Z_nonpos (t : Z) : t <= 0 → (inject_Z t <= 0)%Q.
Proof. unfold Qle. cbn. lia. Qed.

(** The processed tempo of a successful pipeline result in automatic
    mode is positive. *)
Lemma pipeline_processed_bpm (env : Collaborators) (i t : Z) (r : FocusResult) :
  FocusProcessor.process_audio_for_focus env i t = Success r →
  res_focus_intensity r = i
  ∧ (t <= 0 → (0 < processed_bpm r)%Q).
Proof.
  unfold FocusProcessor.process_audio_for_focus.
  destruct (FocusProcessor.process_audio_body env i t) as [r'|] eqn:Hbody;
    [|done].
  intros [= ->].
  apply process_audio_body_ok in Hbody
    as (duration & ratio & new_duration & _ & _ & Hr & _ & _ & _ & ->).
  cbn [res_focus_intensity processed_bpm]. split; [done|].
  set (o := FocusProcessor.detect_bpm (librosa_tempo env)) in *.
  destruct (tempo_ratio_nonzero _ _ _ _ Hr) as [Ho _].
  unfold FocusProcessor.calculate_tempo_ratio in Hr.
  intros Ht. apply inject_Z_nonpos in Ht.
  assert (Qltb 0 (inject_Z t) = false) as E by by apply Qltb_false.
  rewrite E, py_div_nonzero in Hr by done. injection Hr as <-.
  set (target := py_max 50 _).
  assert (50 <= target)%Q.
  { unfold target. destruct (py_max_spec 50
      (o * (1 - inject_Z i / 100 * (1 # 2))))
      as [[? ->]|[? ->]]; lra. }
  assert (o * (target / o) == target)%Q as -> by by field.
  lra.
Qed.

Lemma query_versions_single (song i : Z) (t : Q) (row : ProcessedVersion) :
  query_versions song i t [row]
  = if version_matches song i t row then [row] else [].
Proof.
  unfold query_versions, Table.
  destruct (version_matches song i t row) eqn:E.
  - by rewrite filter_cons_True.
  - rewrite filter_cons_False; [done|]. congruence.
Qed.

(** X27: under which key a result is cached.  When the result that the
    pipeline produced for a job is downloaded, the stored row carries the
    processed tempo in the column of the target tempo: the lookups for a
    song, an intensity and a target tempo see a new row exactly when these
    are the song and the intensity of the job and the target tempo equals
    the processed tempo.  A job in automatic mode (target tempo 0) is
    therefore never found under its own parameters: the lookup sees the
    same rows as before, and [start_focus_processing] answers a repeated
    request exactly as it did before the download. *)
Theorem pipeline_result_cache_key (env : Collaborators) (fs : FileSystem)
    (k : string) (q : ProcessingQueue) (db db' : Table)
    (job : ProcessingJob) (r : FocusResult) (p : string) :
  FocusProcessor.process_audio_for_focus env
    (focus_intensity job) (target_bpm job) = Success r →
  get_job_status k q = Some job → result job = Some r →
  download_processed_audio fs k q db = (Response p, db') →
  (∀ song intensity tempo,
     cache_entries (song, intensity, tempo) db'
     ≠ cache_entries (song, intensity, tempo) db
     ↔ song = song_id job ∧ intensity = focus_intensity job
       ∧ (processed_bpm r == tempo)%Q)
  ∧ (target_bpm job <= 0 →
     cache_entries
       (song_id job, focus_intensity job, inject_Z (target_bpm job)) db'
     = cache_entries
         (song_id job, focus_intensity job, inject_Z (target_bpm job)) db
     ∧ ∀ fs' path dur uuid now q0,
         start_focus_processing fs' db' (song_id job) path dur
           (focus_intensity job) (target_bpm job) uuid now q0
         = start_focus_processing fs' db (song_id job) path dur
             (focus_intensity job) (target_bpm job) uuid now q0).
Proof.
  intros Hpipe Hjob Hres Hdown.
  apply download_response in Hdown
    as (job0 & res & size & Hjob0 & _ & Hres0 & _ & _ & ->).
  assert (job0 = job) as -> by congruence.
  assert (res = r) as -> by congruence.
  destruct (pipeline_processed_bpm _ _ _ _ Hpipe) as (Hi & Hauto).
  set (row := mkProcessedVersion _ _ _ _ _ _ _ _).
  assert (∀ song intensity tempo,
            version_matches song intensity tempo row = true
            ↔ song = song_id job ∧ intensity = focus_intensity job
              ∧ (processed_bpm r == tempo)%Q) as Hm.
  { intros song intensity tempo. unfold version_matches, row. cbn.
    rewrite Hi, !andb_true_iff, !Z.eqb_eq, Qeq_bool_iff.
    split; [intros [[<- <-] ?] | intros (-> & -> & ?)]; done. }
  assert (∀ song intensity tempo,
            cache_entries (song, intensity, tempo) (db ++ [row])
            = cache_entries (song, intensity, tempo) db
              ++ (if version_matches song intensity tempo row
                  then [row] else [])) as Hce.
  { intros. unfold cache_entries.
    by rewrite query_versions_app, query_versions_single. }
  split.
  - intros song intensity tempo. rewrite Hce, <- Hm.
    destruct (version_matches song intensity tempo row).
    + split; [done|]. intros _ E.
      apply (f_equal length) in E. rewrite length_app in E. cbn in E. lia.
    + rewrite app_nil_r. split; [done|]. discriminate.
  - intros Ht.
    assert (version_matches (song_id job) (focus_intensity job)
              (inject_Z (target_bpm job)) row = false) as Hfalse.
    { apply not_true_is_false. intros (_ & _ & E)%Hm.
      specialize (Hauto Ht). apply inject_Z_nonpos in Ht. lra. }
    split.
    + by rewrite Hce, Hfalse, app_nil_r.
    + intros fs' path dur uuid now q0. unfold start_focus_processing.
      by rewrite query_versions_app, query_versions_single, Hfalse, app_nil_r.
Qed.

Lemma pipeline_result_cache_key_witness :
  ∃ q job r db',
    run auto_request_run (init 2) = Some q
    ∧ get_job_status "job-1" q = Some job
    ∧ result job = Some r
    ∧ download_processed_audio all_files "job-1" q []
      = (Response "/tmp/focus_a.mp3"%string, db')
    ∧ length db' = 1%nat
    ∧ cache_entries (1, 50, inject_Z 0) db' = [].
Proof.
  eexists _, _, _, _.
  split; [vm_compute; reflexivity|].
  match goal with |- get_job_status _ ?q0 = _ ∧ _ => pose (q := q0) end.
  split; [vm_compute; reflexivity|].
  match goal with |- result ?j = _ ∧ _ => pose (job := j) end.
  split; [vm_compute; reflexivity|].
  match goal with |- _ = (_, ?d) ∧ _ => pose (db' := d) end.
  split; [vm_compute; reflexivity|].
  split; [reflexivity|].
  destruct (pipeline_result_cache_key
              (collaborators_ok 180 120 "/tmp/focus_a.mp3") all_files
              "job-1" q [] db' job
              (default sample_result (result job)) "/tmp/focus_a.mp3")
    as [_ H].
  - vm_compute. reflexivity.
  - vm_compute. reflexivity.
  - vm_compute. reflexivity.
  - vm_compute. reflexivity.
  - destruct H as [H _]; [vm_compute; discriminate|]. exact H.
Defined.

(** X28: what [start_focus_processing] does after validation.  Either it
    answers ["cached"] with an estimate of 0 and leaves the queue alone,
    or it answers the new job id with an estimate of at least 10 seconds,
    the job is in the queue, [PENDING], with the parameters of the
    request, and no other job has changed. *)
Theorem start_focus_processing_outcome (fs : FileSystem) (db : Table)
    (song : Z) (path : string) (dur : option Q) (i t : Z) (uuid : string)
    (now : Q) (q : ProcessingQueue) :
  let started := start_focus_processing fs db song path dur i t uuid now q in
  resp_song_id started.1 = song
  ∧ ((resp_job_id started.1 = "cached"%string
      ∧ estimated_duration_seconds started.1 = 0%Q
      ∧ started.2 = q)
     ∨ (resp_job_id started.1 = uuid
        ∧ (10 <= estimated_duration_seconds started.1)%Q
        ∧ (∃ job, get_job_status uuid started.2 = Some job
                  ∧ status job = PENDING ∧ song_id job = song
                  ∧ input_file_path job = path
                  ∧ focus_intensity job = i ∧ target_bpm job = t)
        ∧ (∀ k, k ≠ uuid →
                get_job_status k started.2 = get_job_status k q)
        ∧ max_concurrent_jobs started.2 = max_concurrent_jobs q
        ∧ running_jobs started.2 = running_jobs q)).
Proof.
  intros started. unfold started, start_focus_processing.
  destruct (match head _ with Some _ => _ | None => false end).
  - split; [done|]. by left.
  - cbn [fst snd submit_job resp_song_id resp_job_id
         estimated_duration_seconds]. split; [done|]. right.
    split; [done|]. split; [apply estimate_floor|].
    unfold get_job_status. cbn [jobs max_concurrent_jobs running_jobs].
    split.
    + eexists. rewrite dict_get_set, decide_True by done. by split.
    + split; [|done]. intros k Hk. by rewrite dict_get_set, decide_False.
Qed.
